(** * randomchess: position generation and engine-evaluation pipeline

  A shallow embedding of the TypeScript sources
    - [src/lib/constants.ts]
    - [src/lib/stockfish.ts], the browser engine client (class
      [StockfishEngine], [evaluateChessPosition])
    - [src/app/api/stockfish/route.ts], the server analysis route ([POST],
      [estimateEvaluation], [analyzePosition])
    - [src/services/chess/chess-utils.ts], with its board analysis
      helpers ([getPawnStructure], [getKingSafety], [getCastlingRights],
      [getEnPassantSquare])
    - [src/services/chess/position-analyzer.ts] ([refreshPositionAnalysis],
      [evaluationToString])
    - [src/services/chess/position-generator.ts] ([generateRandomPosition]
      and its helpers)
    - [src/hooks/use-stockfish.ts] ([getBotMove], the move of the computer
      opponent)
  followed by the properties of the pipeline.

  Conventions of the embedding.
    - A JavaScript number that carries an evaluation is an exact rational
      ([Q]); the win-probability model, which calls [Math.exp], is stated
      over the real numbers ([R]).  IEEE-754 rounding is not modelled.
    - Code that may throw returns [exn A]; a promise that is awaited is
      an [Async A] (resolved, rejected, or never settled).
    - [Math.random] is a stream of draws, threaded as a counter.
    - chess.js is an external library: its board is a finite map from
      squares to pieces, and its rule queries (FEN validation, check
      detection, legal-move enumeration) are the fields of [Rules]. *)

From Stdlib Require Import List String Ascii Bool Arith ZArith QArith Qround Qabs Lia.
From Stdlib Require Import Numbers.DecimalString.
From Stdlib Require Import Reals Lra Qreals.
From Stdlib Require Import Permutation.
Import ListNotations.

Local Open Scope string_scope.

(* ===================================================================== *)
(** ** src/lib/constants.ts *)
(* ===================================================================== *)

Module Constants.

(** [CENTIPAWNS_TO_PAWNS = 100] *)
Definition CENTIPAWNS_TO_PAWNS : Z := 100.

(** [EVALUATION_THRESHOLDS] *)
Definition BALANCED : Z := 25.
Definition SLIGHT_ADVANTAGE : Z := 50.
Definition ADVANTAGE : Z := 100.
Definition WINNING : Z := 300.
Definition DECISIVE : Z := 1000.
Definition MATE_THRESHOLD : Z := 2000.

(** [WIN_PROBABILITY]: [SIGMOID_FACTOR = 0.004] is kept as the fraction
    4/1000. *)
Definition SIGMOID_FACTOR_num : Z := 4.
Definition SIGMOID_FACTOR_den : Z := 1000.
Definition DRAW_THRESHOLD : Z := 350.
Definition MAX_DRAW_PROB : Z := 30.

(** [PIECE_VALUES] *)
Definition PAWN : Z := 100.
Definition KNIGHT : Z := 320.
Definition BISHOP : Z := 330.
Definition ROOK : Z := 500.
Definition QUEEN : Z := 900.
Definition KING : Z := 0.

(** [ENGINE_STRENGTH] *)
Inductive DifficultyLevel := easy | medium | hard | max.

Record Strength := { skillLevel : Z; limitStrength : bool; elo : Z }.

Definition ENGINE_STRENGTH (d : DifficultyLevel) : Strength :=
  match d with
  | easy => {| skillLevel := 5; limitStrength := true; elo := 1200 |}
  | medium => {| skillLevel := 10; limitStrength := true; elo := 1500 |}
  | hard => {| skillLevel := 15; limitStrength := true; elo := 1800 |}
  | max => {| skillLevel := 20; limitStrength := false; elo := 3000 |}
  end.

(** [STOCKFISH_ANALYSIS] *)
Definition DEFAULT_DEPTH : Z := 15.
Definition DEFAULT_MULTI_PV : Z := 3.
Definition ANALYSIS_TIMEOUT : Z := 10000.
Definition MAX_RETRIES : nat := 2.

End Constants.

(* ===================================================================== *)
(** ** The JavaScript fragments the sources rely on *)
(* ===================================================================== *)

Module Js.

(** A computation that may throw. *)
Inductive exn (A : Type) : Type :=
| Ok (a : A)
| Throw (msg : string).
Arguments Ok {A} a.
Arguments Throw {A} msg.

Definition bind {A B} (c : exn A) (k : A -> exn B) : exn B :=
  match c with
  | Ok a => k a
  | Throw m => Throw m
  end.

(** [try { c } catch (e) { h }] *)
Definition try_catch {A} (c : exn A) (h : string -> exn A) : exn A :=
  match c with
  | Ok a => Ok a
  | Throw m => h m
  end.

(** The state of an awaited promise: the caller resumes with a value,
    resumes into its [catch], or never resumes. *)
Inductive Async (A : Type) : Type :=
| Resolved (a : A)
| Rejected (msg : string)
| Never.
Arguments Resolved {A} a.
Arguments Rejected {A} msg.
Arguments Never {A}.

(** A property that is [undefined], [null], or holds a value. *)
Inductive nullable (A : Type) : Type :=
| Undefined
| Null
| Value (a : A).
Arguments Undefined {A}.
Arguments Null {A}.
Arguments Value {A} a.

(** [x ?? null] *)
Definition orNull {A} (x : nullable A) : option A :=
  match x with
  | Value a => Some a
  | _ => None
  end.

(** *** Strings *)

(** The rest of [s] after the literal [p], when [s] begins with [p]. *)
Fixpoint strip_prefix (p s : string) : option string :=
  match p with
  | EmptyString => Some s
  | String a p' =>
      match s with
      | EmptyString => None
      | String b s' => if Ascii.eqb a b then strip_prefix p' s' else None
      end
  end.

(** Leftmost match of an unanchored pattern: the matcher [m] is tried at
    every position of the subject, from the left. *)
Fixpoint search {A} (m : string -> option A) (s : string) : option A :=
  match m s with
  | Some r => Some r
  | None =>
      match s with
      | EmptyString => None
      | String _ s' => search m s'
      end
  end.

(** [s.includes(sub)] *)
Definition includes (s sub : string) : bool :=
  match search (strip_prefix sub) s with
  | Some _ => true
  | None => false
  end.

(** [s.startsWith(p)] *)
Definition startsWith (s p : string) : bool :=
  match strip_prefix p s with
  | Some _ => true
  | None => false
  end.

Definition in_range (lo hi c : ascii) : bool :=
  (nat_of_ascii lo <=? nat_of_ascii c)%nat && (nat_of_ascii c <=? nat_of_ascii hi)%nat.

(** [\d] *)
Definition is_digit (c : ascii) : bool := in_range "0" "9" c.
(** [[a-h]] *)
Definition is_file (c : ascii) : bool := in_range "a" "h" c.
(** [[1-8]] *)
Definition is_rank (c : ascii) : bool := in_range "1" "8" c.
(** [[qrbnQRBN]] *)
Definition is_promo (c : ascii) : bool :=
  existsb (Ascii.eqb c) ["q"; "r"; "b"; "n"; "Q"; "R"; "B"; "N"]%char.
(** [.] : any character but a line terminator *)
Definition is_dot (c : ascii) : bool :=
  negb (Ascii.eqb c "010" || Ascii.eqb c "013")%char.

(** The longest prefix of [s] made of characters satisfying [p]
    (a greedy [p*]). *)
Fixpoint take_while (p : ascii -> bool) (s : string) : string :=
  match s with
  | EmptyString => EmptyString
  | String c s' => if p c then String c (take_while p s') else EmptyString
  end.

(** [(-?\d+)] at the head of [s]. *)
Definition signed_digits (s : string) : option string :=
  match s with
  | String "-" s' =>
      match take_while is_digit s' with
      | EmptyString => None
      | ds => Some (String "-" ds)
      end
  | _ =>
      match take_while is_digit s with
      | EmptyString => None
      | ds => Some ds
      end
  end.

(** [(\d+)] at the head of [s]. *)
Definition digits (s : string) : option string :=
  match take_while is_digit s with
  | EmptyString => None
  | ds => Some ds
  end.

(** [([a-h][1-8][a-h][1-8][qrbnQRBN]?)] at the head of [s]. *)
Definition coordinate_move (s : string) : option string :=
  match s with
  | String f1 (String r1 (String f2 (String r2 rest))) =>
      if is_file f1 && is_rank r1 && is_file f2 && is_rank r2 then
        let base := String f1 (String r1 (String f2 (String r2 EmptyString))) in
        match rest with
        | String p _ => if is_promo p then Some (base ++ String p EmptyString) else Some base
        | EmptyString => Some base
        end
      else None
  | _ => None
  end.

(** [(.+)] at the head of [s]. *)
Definition dot_plus (s : string) : option string :=
  match take_while is_dot s with
  | EmptyString => None
  | r => Some r
  end.

(** [s.match(/<lit><group>/)]: the first capture group of the leftmost
    match, or [None] when [match] returns [null]. *)
Definition match_after (lit : string) (group : string -> option string) (s : string)
  : option string :=
  search (fun t => match strip_prefix lit t with
                   | Some rest => group rest
                   | None => None
                   end) s.

(** Reading an index of the result of [match]: a [TypeError] on [null]. *)
Definition group1 (m : option string) : exn string :=
  match m with
  | Some g => Ok g
  | None => Throw "TypeError: Cannot read properties of null"
  end.

Definition digit_val (c : ascii) : Z := Z.of_nat (nat_of_ascii c - 48).

Fixpoint parse_digits (acc : Z) (s : string) : Z :=
  match s with
  | EmptyString => acc
  | String c s' => if is_digit c then parse_digits (10 * acc + digit_val c) s' else acc
  end.

(** [parseInt(s, 10)] on the strings the patterns above capture. *)
Definition parseInt (s : string) : Z :=
  match s with
  | String "-" s' => Z.opp (parse_digits 0 s')
  | _ => parse_digits 0 s
  end.

(** [s.split(' ')] *)
Fixpoint split_spaces_aux (cur : string) (s : string) : list string :=
  match s with
  | EmptyString => [cur]
  | String c s' =>
      if Ascii.eqb c " " then cur :: split_spaces_aux EmptyString s'
      else split_spaces_aux (cur ++ String c EmptyString) s'
  end.
Definition split_spaces (s : string) : list string := split_spaces_aux EmptyString s.

(** *** Numbers to strings *)

(** [String(z)] for an integer. *)
Definition Z_to_string (z : Z) : string := NilZero.string_of_int (Z.to_int z).

(** [x.toFixed(2)] for a non-negative rational below 1e21: the integer
    [n] closest to [100 x] (the larger of two), printed with two
    decimals.  The argument is taken as the exact rational. *)
Definition toFixed2 (x : Q) : string :=
  let n := Qfloor (x * 100 + (1 # 2)) in
  let frac := (n mod 100)%Z in
  Z_to_string (n / 100)
    ++ "." ++ (if (frac <? 10)%Z then "0" else "") ++ Z_to_string frac.

(** [arr.indexOf(x)], [-1] when absent. *)
Fixpoint indexOf (l : list string) (x : string) : Z :=
  match l with
  | [] => (-1)%Z
  | y :: l' =>
      if String.eqb y x then 0%Z
      else let i := indexOf l' x in if (i <? 0)%Z then (-1)%Z else (i + 1)%Z
  end.

(** [s.charAt(i)] *)
Definition charAt (s : string) (i : nat) : string :=
  match get i s with
  | Some c => String c EmptyString
  | None => EmptyString
  end.

(** [s.charCodeAt(i)] on an index inside the string. *)
Definition charCodeAt (s : string) (i : nat) : Z :=
  match get i s with
  | Some c => Z.of_nat (nat_of_ascii c)
  | None => 0%Z
  end.

(** *** Randomness: [Math.random] is the stream [draws], read at a
    counter; [getRandomElement arr] is [arr[Math.floor(Math.random() *
    arr.length)]], the draw reduced to an index of [arr]. *)
Record Rng := { draws : nat -> nat; pos : nat }.

Definition next_index (len : nat) (g : Rng) : nat * Rng :=
  ((draws g (pos g)) mod len, {| draws := draws g; pos := S (pos g) |}).

End Js.

Notation "x <- c ;; k" := (Js.bind c (fun x => k))
(at level 61, c at next level, right associativity).

(* ===================================================================== *)
(** ** chess.js, as far as the pipeline consumes it *)
(* ===================================================================== *)

Module ChessJs.
Import Js.

(** ['w'] and ['b'] *)
Inductive Color := White | Black.

(** ['p'], ['n'], ['b'], ['r'], ['q'], ['k'] *)
Inductive PieceSymbol := Pawn | Knight | Bishop | Rook | Queen | King.

Record Piece := { type : PieceSymbol; color : Color }.

Definition Color_eqb (c d : Color) : bool :=
  match c, d with
  | White, White | Black, Black => true
  | _, _ => false
  end.

Definition PieceSymbol_eqb (s t : PieceSymbol) : bool :=
  match s, t with
  | Pawn, Pawn | Knight, Knight | Bishop, Bishop
  | Rook, Rook | Queen, Queen | King, King => true
  | _, _ => false
  end.

Definition Piece_eqb (x y : Piece) : bool :=
  PieceSymbol_eqb (type x) (type y) && Color_eqb (color x) (color y).

Definition swapColor (c : Color) : Color :=
  match c with White => Black | Black => White end.

(** A square is the two-character string ['a1'] ... ['h8']. *)
Definition Square := string.

(** The piece placement: what [get] answers on every square. *)
Definition Board := Square -> option Piece.

(** A FEN string, by its six space-separated fields ([fen.split(' ')]);
    the placement field is kept as the board it encodes. *)
Record FEN := {
  placement : Board;
  sideToMove : Color;
  castlingField : string;
  enPassantField : string;
  halfmoveField : Z;
  fullmoveField : Z
}.

(** [fenParts[1] = c; fenParts.join(' ')] *)
Definition setSide (f : FEN) (c : Color) : FEN :=
  {| placement := placement f; sideToMove := c;
     castlingField := castlingField f; enPassantField := enPassantField f;
     halfmoveField := halfmoveField f; fullmoveField := fullmoveField f |}.

(** [fenParts[2] = '-'; fenParts[3] = '-'] *)
Definition clearCastlingAndEnPassant (f : FEN) : FEN :=
  {| placement := placement f; sideToMove := sideToMove f;
     castlingField := "-"; enPassantField := "-";
     halfmoveField := halfmoveField f; fullmoveField := fullmoveField f |}.

(** A [Chess] object: the position and the positions played so far. *)
Record Chess := { position : FEN; history : list FEN }.

(** The rule queries of the library.  They are not part of this
    repository; every property below holds for all of them. *)
Record Rules := {
  (** [load(fen)] and [new Chess(fen)] accept the string *)
  validateFen : FEN -> bool;
  (** [inCheck()]: the side to move is in check *)
  inCheck : Chess -> exn bool;
  (** [moves().length] *)
  movesLength : Chess -> exn nat;
  (** [isThreefoldRepetition()] *)
  isThreefoldRepetition : Chess -> exn bool
}.

Definition emptyBoard : Board := fun _ => None.

(** [const chess = new Chess(); chess.clear()] *)
Definition cleared : Chess :=
  {| position := {| placement := emptyBoard; sideToMove := White;
                    castlingField := "-"; enPassantField := "-";
                    halfmoveField := 0; fullmoveField := 1 |};
     history := [] |}.

(** [chess.fen()] *)
Definition fen (c : Chess) : FEN := position c.

(** [chess.turn()] *)
Definition turn (c : Chess) : Color := sideToMove (position c).

(** [new Chess(fen)]: throws on a string the library rejects. *)
Definition newChess (R : Rules) (f : FEN) : exn Chess :=
  if validateFen R f then Ok {| position := f; history := [] |}
  else Throw "Invalid FEN".

(** [chess.load(fen)] *)
Definition load (R : Rules) (c : Chess) (f : FEN) : exn Chess := newChess R f.

(** [chess.get(square)] *)
Definition get (c : Chess) (s : Square) : option Piece := placement (position c) s.

(** [chess.put(piece, square)] *)
Definition put (c : Chess) (x : Piece) (s : Square) : Chess :=
  let f := position c in
  {| position :=
       {| placement := fun s' => if String.eqb s' s then Some x else placement f s';
          sideToMove := sideToMove f;
          castlingField := castlingField f; enPassantField := enPassantField f;
          halfmoveField := halfmoveField f; fullmoveField := fullmoveField f |};
     history := history c |}.

Definition FILES : list string := ["a"; "b"; "c"; "d"; "e"; "f"; "g"; "h"].
Definition RANKS : list string := ["1"; "2"; "3"; "4"; "5"; "6"; "7"; "8"].

(** [chess.board()]: eight rows from rank 8 down to rank 1, each from
    file a to file h. *)
Definition board (c : Chess) : list (list (option Piece)) :=
  map (fun rk => map (fun fl => get c (nth fl FILES "" ++ nth (7 - rk) RANKS ""))
                     (seq 0 8))
      (seq 0 8).

End ChessJs.

(* ===================================================================== *)
(** ** src/services/chess/chess-utils.ts *)
(* ===================================================================== *)

Module ChessUtils.
Import Js ChessJs.

(** [safeChessMutate]: run [modify] on a copy rebuilt from the FEN. *)
Definition safeChessMutate {T} (R : Rules) (chess : Chess) (modify : Chess -> exn T) : exn T :=
  chessCopy <- newChess R (fen chess) ;;
  modify chessCopy.

Record WinChance := { white : Z; black : Z; draw : Z }.

Inductive JsVal := VNum (z : Z) | VStr (s : string).

(** [description]: a legacy string or a translation key with
    parameters. *)
Inductive Description :=
| DescText (s : string)
| DescKey (key : string) (params : option (list (string * JsVal))).

Record MaterialCount := { mc_white : Z; mc_black : Z; mc_advantage : Z }.
Record LegalMovesCount := { lm_white : nat; lm_black : nat; lm_current : nat }.

Record PositionFairnessInfo := {
  isLegal : bool;
  isFair : bool;
  evaluation : Q;
  winChance : option WinChance;
  forcedMate : option Z;
  description : Description;
  materialCount : option MaterialCount;
  legalMovesCount : option LegalMovesCount;
  inCheckInfo : option bool;
  moveNumber : option Z;
  halfmoveClock : option Z;
  repetition : option Z
}.

Definition pieceValue (t : PieceSymbol) : Z :=
  match t with
  | Pawn => 1 | Knight => 3 | Bishop => 3 | Rook => 5 | Queen => 9 | King => 0
  end.

(** [calculateMaterialCount] *)
Definition calculateMaterialCount (chess : Chess) : MaterialCount :=
  let step (acc : Z * Z) (square : option Piece) :=
    match square with
    | Some x =>
        let value := pieceValue (type x) in
        match color x with
        | White => (fst acc + value, snd acc)%Z
        | Black => (fst acc, snd acc + value)%Z
        end
    | None => acc
    end in
  let totals := fold_left (fun acc row => fold_left step row acc) (board chess) (0, 0)%Z in
  {| mc_white := fst totals; mc_black := snd totals;
     mc_advantage := (fst totals - snd totals)%Z |}.

(** [calculateLegalMovesCount] *)
Definition calculateLegalMovesCount (R : Rules) (chess : Chess) : exn LegalMovesCount :=
  let currentTurn := turn chess in
  currentMoves <- movesLength R chess ;;
  try_catch
    (oppositeMoves <-
       safeChessMutate R chess (fun chessCopy =>
         let modifiedFen := setSide (fen chessCopy) (swapColor currentTurn) in
         loaded <- load R chessCopy modifiedFen ;;
         movesLength R loaded) ;;
     Ok {| lm_white := if Color_eqb currentTurn White then currentMoves else oppositeMoves;
           lm_black := if Color_eqb currentTurn Black then currentMoves else oppositeMoves;
           lm_current := currentMoves |})
    (fun _ =>
       Ok {| lm_white := if Color_eqb currentTurn White then currentMoves else 0%nat;
             lm_black := if Color_eqb currentTurn Black then currentMoves else 0%nat;
             lm_current := currentMoves |}).

(** [Math.round]: the integer nearest to [x], halves upwards. *)
Definition Math_round (x : R) : Z := Int_part (x + / 2).

(** [calculateWinChances] *)
Definition calculateWinChances (evaluation : R) (forcedMate : option Z) : WinChance :=
  match forcedMate with
  | Some m =>
      if (m >? 0)%Z then {| white := 100; black := 0; draw := 0 |}
      else {| white := 0; black := 100; draw := 0 |}
  | None =>
      if Rlt_dec (IZR Constants.MATE_THRESHOLD) (Rabs evaluation) then
        if Rlt_dec 0 evaluation then {| white := 98; black := 0; draw := 2 |}
        else {| white := 0; black := 98; draw := 2 |}
      else
        let centipawns := evaluation in
        let SIGMOID_FACTOR :=
          (IZR Constants.SIGMOID_FACTOR_num / IZR Constants.SIGMOID_FACTOR_den)%R in
        let MAX_DRAW_PROB := IZR Constants.MAX_DRAW_PROB in
        let DRAW_THRESHOLD := IZR Constants.DRAW_THRESHOLD in
        let winningChances :=
          (50 + 50 * (2 / (1 + exp (- SIGMOID_FACTOR * centipawns)) - 1))%R in
        let drawChance :=
          Rmax 0 (Rmin MAX_DRAW_PROB
                       (MAX_DRAW_PROB * exp (- (centipawns / DRAW_THRESHOLD) ^ 2)))%R in
        let (whiteWinProb, blackWinProb) :=
          if Rle_dec 0 centipawns then
            (((winningChances - drawChance / 2) / 100)%R,
             ((100 - winningChances - drawChance / 2) / 100)%R)
          else
            (((winningChances - drawChance / 2) / 100)%R,
             ((100 - winningChances - drawChance / 2) / 100)%R) in
        let whiteWinProb := Rmax 0 whiteWinProb in
        let blackWinProb := Rmax 0 blackWinProb in
        {| white := Math_round (whiteWinProb * 100);
           black := Math_round (blackWinProb * 100);
           draw := Math_round drawChance |}
  end.

Definition sideKey (evaluation : Q) : JsVal :=
  VStr (if Qle_bool evaluation 0 then "chess:players.black" else "chess:players.white").

Definition Qlt_bool (x y : Q) : bool := negb (Qle_bool y x).

(** [generatePositionDescription] *)
Definition generatePositionDescription
    (isLegal isFair : bool) (evaluation : Q) (forcedMate : option Z) : Description :=
  if negb isLegal then DescKey "analysis:description.illegal" None
  else
    match forcedMate with
    | Some m =>
        DescKey "analysis:description.mateIn"
          (Some [("moves", VNum (Z.abs m));
                 ("side", VStr (if (m >? 0)%Z then "chess:players.white"
                                else "chess:players.black"))])
    | None =>
        let a := Qabs evaluation in
        if Qlt_bool a (inject_Z Constants.BALANCED) then
          DescKey "analysis:description.balanced" (Some [])
        else if Qlt_bool a (inject_Z Constants.SLIGHT_ADVANTAGE) then
          DescKey "analysis:description.slightAdvantage" (Some [("side", sideKey evaluation)])
        else if Qlt_bool a (inject_Z Constants.ADVANTAGE) then
          DescKey "analysis:description.advantage" (Some [("side", sideKey evaluation)])
        else if Qlt_bool a (inject_Z Constants.WINNING) then
          DescKey "analysis:description.winning" (Some [("side", sideKey evaluation)])
        else
          DescKey "analysis:description.decisive" (Some [("side", sideKey evaluation)])
    end.

End ChessUtils.

(* ===================================================================== *)
(** ** src/lib/stockfish.ts: the browser engine client *)
(* ===================================================================== *)

Module Stockfish.
Import Js Constants ChessJs.

(** One principal-variation line of the server response. *)
Record Line := { line_moves : list string; line_score : Q; line_mate : option Z }.

(** [StockfishAnalysis], together with the further properties the
    server route puts on the object it answers with ([lines], [fen],
    [error]). *)
Record StockfishAnalysis := {
  score : option Q;
  mate : nullable Z;
  bestMove : nullable string;
  pv : option (list string);
  depth : option Z;
  lines : option (list Line);
  fenEcho : option FEN;
  error : option string
}.

(** [{}] *)
Definition emptyAnalysis : StockfishAnalysis :=
  {| score := None; mate := Undefined; bestMove := Undefined; pv := None;
     depth := None; lines := None; fenEcho := None; error := None |}.

Definition with_score (a : StockfishAnalysis) (x : Q) : StockfishAnalysis :=
  {| score := Some x; mate := mate a; bestMove := bestMove a; pv := pv a;
     depth := depth a; lines := lines a; fenEcho := fenEcho a; error := error a |}.
Definition with_mate (a : StockfishAnalysis) (m : Z) : StockfishAnalysis :=
  {| score := score a; mate := Value m; bestMove := bestMove a; pv := pv a;
     depth := depth a; lines := lines a; fenEcho := fenEcho a; error := error a |}.
Definition with_bestMove (a : StockfishAnalysis) (m : string) : StockfishAnalysis :=
  {| score := score a; mate := mate a; bestMove := Value m; pv := pv a;
     depth := depth a; lines := lines a; fenEcho := fenEcho a; error := error a |}.
Definition with_pv (a : StockfishAnalysis) (l : list string) : StockfishAnalysis :=
  {| score := score a; mate := mate a; bestMove := bestMove a; pv := Some l;
     depth := depth a; lines := lines a; fenEcho := fenEcho a; error := error a |}.
Definition with_depth (a : StockfishAnalysis) (d : Z) : StockfishAnalysis :=
  {| score := score a; mate := mate a; bestMove := bestMove a; pv := pv a;
     depth := Some d; lines := lines a; fenEcho := fenEcho a; error := error a |}.

(** What [worker.postMessage] sends. *)
Inductive Command :=
| Uci
| SetOption (name value : string)
| IsReady
| PositionFen (f : FEN)
| GoDepth (d : Z)
| Stop.

(** A call of [evaluatePosition] suspended at [await this.waitReady()]. *)
Record EvalCall := { call_fen : FEN; call_depth : Z; call_multiPV : Z; call_request : nat }.

(** The class [StockfishEngine].  [resolvers] is a [Map] that the class
    only ever reads and writes at the two keys ['ready'] and
    ['bestmove']: [resolver_ready] holds the [resolve] of the promise
    made by [waitReady] (and the call of [evaluatePosition] awaiting it,
    if any), [resolver_bestmove] the [resolve] of the promise made by
    [evaluatePosition], named by the number of the request.
    [currentAnalysis] is the variable [setupWorker] closes over.  The
    last four fields record what has happened to the promises handed
    out and to the callback. *)
Record StockfishEngine := {
  worker : option (list Command);
  isReady : bool;
  resolver_ready : option (option EvalCall);
  resolver_bestmove : option nat;
  analysisCallback : bool;
  useWasmStockfish : bool;
  currentDifficulty : DifficultyLevel;
  currentAnalysis : StockfishAnalysis;
  nextRequest : nat;
  resolved : list (nat * StockfishAnalysis);
  rejected : list (nat * string);
  callbackCalls : list StockfishAnalysis
}.

Definition set_worker w (e : StockfishEngine) : StockfishEngine :=
  {| worker := w; isReady := isReady e; resolver_ready := resolver_ready e;
     resolver_bestmove := resolver_bestmove e; analysisCallback := analysisCallback e;
     useWasmStockfish := useWasmStockfish e; currentDifficulty := currentDifficulty e;
     currentAnalysis := currentAnalysis e; nextRequest := nextRequest e;
     resolved := resolved e; rejected := rejected e; callbackCalls := callbackCalls e |}.
Definition set_isReady v (e : StockfishEngine) : StockfishEngine :=
  {| worker := worker e; isReady := v; resolver_ready := resolver_ready e;
     resolver_bestmove := resolver_bestmove e; analysisCallback := analysisCallback e;
     useWasmStockfish := useWasmStockfish e; currentDifficulty := currentDifficulty e;
     currentAnalysis := currentAnalysis e; nextRequest := nextRequest e;
     resolved := resolved e; rejected := rejected e; callbackCalls := callbackCalls e |}.
Definition set_resolver_ready v (e : StockfishEngine) : StockfishEngine :=
  {| worker := worker e; isReady := isReady e; resolver_ready := v;
     resolver_bestmove := resolver_bestmove e; analysisCallback := analysisCallback e;
     useWasmStockfish := useWasmStockfish e; currentDifficulty := currentDifficulty e;
     currentAnalysis := currentAnalysis e; nextRequest := nextRequest e;
     resolved := resolved e; rejected := rejected e; callbackCalls := callbackCalls e |}.
Definition set_resolver_bestmove v (e : StockfishEngine) : StockfishEngine :=
  {| worker := worker e; isReady := isReady e; resolver_ready := resolver_ready e;
     resolver_bestmove := v; analysisCallback := analysisCallback e;
     useWasmStockfish := useWasmStockfish e; currentDifficulty := currentDifficulty e;
     currentAnalysis := currentAnalysis e; nextRequest := nextRequest e;
     resolved := resolved e; rejected := rejected e; callbackCalls := callbackCalls e |}.
Definition set_analysisCallback v (e : StockfishEngine) : StockfishEngine :=
  {| worker := worker e; isReady := isReady e; resolver_ready := resolver_ready e;
     resolver_bestmove := resolver_bestmove e; analysisCallback := v;
     useWasmStockfish := useWasmStockfish e; currentDifficulty := currentDifficulty e;
     currentAnalysis := currentAnalysis e; nextRequest := nextRequest e;
     resolved := resolved e; rejected := rejected e; callbackCalls := callbackCalls e |}.
Definition set_useWasmStockfish v (e : StockfishEngine) : StockfishEngine :=
  {| worker := worker e; isReady := isReady e; resolver_ready := resolver_ready e;
     resolver_bestmove := resolver_bestmove e; analysisCallback := analysisCallback e;
     useWasmStockfish := v; currentDifficulty := currentDifficulty e;
     currentAnalysis := currentAnalysis e; nextRequest := nextRequest e;
     resolved := resolved e; rejected := rejected e; callbackCalls := callbackCalls e |}.
Definition set_currentDifficulty v (e : StockfishEngine) : StockfishEngine :=
  {| worker := worker e; isReady := isReady e; resolver_ready := resolver_ready e;
     resolver_bestmove := resolver_bestmove e; analysisCallback := analysisCallback e;
     useWasmStockfish := useWasmStockfish e; currentDifficulty := v;
     currentAnalysis := currentAnalysis e; nextRequest := nextRequest e;
     resolved := resolved e; rejected := rejected e; callbackCalls := callbackCalls e |}.
Definition set_currentAnalysis v (e : StockfishEngine) : StockfishEngine :=
  {| worker := worker e; isReady := isReady e; resolver_ready := resolver_ready e;
     resolver_bestmove := resolver_bestmove e; analysisCallback := analysisCallback e;
     useWasmStockfish := useWasmStockfish e; currentDifficulty := currentDifficulty e;
     currentAnalysis := v; nextRequest := nextRequest e;
     resolved := resolved e; rejected := rejected e; callbackCalls := callbackCalls e |}.
Definition set_nextRequest v (e : StockfishEngine) : StockfishEngine :=
  {| worker := worker e; isReady := isReady e; resolver_ready := resolver_ready e;
     resolver_bestmove := resolver_bestmove e; analysisCallback := analysisCallback e;
     useWasmStockfish := useWasmStockfish e; currentDifficulty := currentDifficulty e;
     currentAnalysis := currentAnalysis e; nextRequest := v;
     resolved := resolved e; rejected := rejected e; callbackCalls := callbackCalls e |}.
Definition set_resolved v (e : StockfishEngine) : StockfishEngine :=
  {| worker := worker e; isReady := isReady e; resolver_ready := resolver_ready e;
     resolver_bestmove := resolver_bestmove e; analysisCallback := analysisCallback e;
     useWasmStockfish := useWasmStockfish e; currentDifficulty := currentDifficulty e;
     currentAnalysis := currentAnalysis e; nextRequest := nextRequest e;
     resolved := v; rejected := rejected e; callbackCalls := callbackCalls e |}.
Definition set_rejected v (e : StockfishEngine) : StockfishEngine :=
  {| worker := worker e; isReady := isReady e; resolver_ready := resolver_ready e;
     resolver_bestmove := resolver_bestmove e; analysisCallback := analysisCallback e;
     useWasmStockfish := useWasmStockfish e; currentDifficulty := currentDifficulty e;
     currentAnalysis := currentAnalysis e; nextRequest := nextRequest e;
     resolved := resolved e; rejected := v; callbackCalls := callbackCalls e |}.
Definition set_callbackCalls v (e : StockfishEngine) : StockfishEngine :=
  {| worker := worker e; isReady := isReady e; resolver_ready := resolver_ready e;
     resolver_bestmove := resolver_bestmove e; analysisCallback := analysisCallback e;
     useWasmStockfish := useWasmStockfish e; currentDifficulty := currentDifficulty e;
     currentAnalysis := currentAnalysis e; nextRequest := nextRequest e;
     resolved := resolved e; rejected := rejected e; callbackCalls := v |}.

(** [this.worker.postMessage(c)] where the worker is known to exist. *)
Definition postMessage (c : Command) (e : StockfishEngine) : StockfishEngine :=
  match worker e with
  | Some sent => set_worker (Some (sent ++ [c])%list) e
  | None => e
  end.

Definition bool_to_string (v : bool) : string := if v then "true" else "false".

(** [applyDifficultySettings] *)
Definition applyDifficultySettings (difficulty : DifficultyLevel) (e : StockfishEngine)
  : StockfishEngine :=
  match worker e with
  | None => e
  | Some _ =>
      let e := set_currentDifficulty difficulty e in
      let settings := ENGINE_STRENGTH difficulty in
      let e := postMessage (SetOption "Skill Level" (Z_to_string (skillLevel settings))) e in
      let e := postMessage (SetOption "UCI_LimitStrength"
                              (bool_to_string (limitStrength settings))) e in
      if limitStrength settings
      then postMessage (SetOption "UCI_Elo" (Z_to_string (elo settings))) e
      else e
  end.

(** The part of [evaluatePosition] after [await this.waitReady()].  When
    the worker has been terminated in between, [this.worker.postMessage]
    throws and the promise of the call rejects. *)
Definition startSearch (c : EvalCall) (e : StockfishEngine) : StockfishEngine :=
  match worker e with
  | None =>
      set_rejected ((call_request c, "TypeError: Cannot read properties of null")
                      :: rejected e) e
  | Some _ =>
      let e := postMessage (PositionFen (call_fen c)) e in
      let e := if (call_multiPV c >? 1)%Z
               then postMessage (SetOption "MultiPV" (Z_to_string (call_multiPV c))) e
               else e in
      let e := postMessage (GoDepth (call_depth c)) e in
      set_resolver_bestmove (Some (call_request c)) e
  end.

(** The [readyok] branch of [onmessage]. *)
Definition onReadyOk (e : StockfishEngine) : StockfishEngine :=
  let e := set_isReady true e in
  match resolver_ready e with
  | Some waiting =>
      let e := set_resolver_ready None e in
      match waiting with
      | Some c => startSearch c e
      | None => e
      end
  | None => e
  end.

Definition is_some {A} (o : option A) : bool :=
  match o with Some _ => true | None => false end.

(** [// Parse score] *)
Definition parseScore (line : string) (e : StockfishEngine) : exn StockfishEngine :=
  if includes line "score cp" then
    let m := match_after "score cp " signed_digits line in
    if is_some m then
      g <- group1 m ;;
      Ok (set_currentAnalysis
            (with_score (currentAnalysis e)
                        (inject_Z (parseInt g) / inject_Z CENTIPAWNS_TO_PAWNS)) e)
    else Ok e
  else Ok e.

(** [// Parse mate] *)
Definition parseMate (line : string) (e : StockfishEngine) : exn StockfishEngine :=
  if includes line "score mate" then
    let m := match_after "score mate " signed_digits line in
    if is_some m then
      g <- group1 m ;;
      Ok (set_currentAnalysis (with_mate (currentAnalysis e) (parseInt g)) e)
    else Ok e
  else Ok e.

(** [// Parse best move] *)
Definition parseBestMove (line : string) (e : StockfishEngine) : exn StockfishEngine :=
  if includes line "bestmove" then
    let m := match_after "bestmove " coordinate_move line in
    if is_some m then
      g <- group1 m ;;
      let e := set_currentAnalysis (with_bestMove (currentAnalysis e) g) e in
      match resolver_bestmove e with
      | Some request =>
          let e := set_resolved ((request, currentAnalysis e) :: resolved e) e in
          let e := set_resolver_bestmove None e in
          Ok (set_currentAnalysis emptyAnalysis e)
      | None => Ok e
      end
    else Ok e
  else Ok e.

(** [// Parse principal variation] *)
Definition parsePv (line : string) (e : StockfishEngine) : exn StockfishEngine :=
  if includes line "pv" then
    let m := match_after "pv " dot_plus line in
    if is_some m then
      g <- group1 m ;;
      Ok (set_currentAnalysis (with_pv (currentAnalysis e) (split_spaces g)) e)
    else Ok e
  else Ok e.

(** [// Parse depth] *)
Definition parseDepth (line : string) (e : StockfishEngine) : exn StockfishEngine :=
  if includes line "depth" then
    let m := match_after "depth " digits line in
    if is_some m then
      g <- group1 m ;;
      Ok (set_currentAnalysis (with_depth (currentAnalysis e) (parseInt g)) e)
    else Ok e
  else Ok e.

Definition has_score_or_mate (a : StockfishAnalysis) : bool :=
  is_some (score a) || match mate a with Undefined => false | _ => true end.

(** [// Check for info strings that contain score and depth together] *)
Definition notifyCallback (line : string) (e : StockfishEngine) : exn StockfishEngine :=
  if startsWith line "info" && includes line "depth"
     && (includes line "score cp" || includes line "score mate") then
    if analysisCallback e && has_score_or_mate (currentAnalysis e)
    then Ok (set_callbackCalls (callbackCalls e ++ [currentAnalysis e])%list e)
    else Ok e
  else Ok e.

(** [this.worker.onmessage], on the line [e.data]. *)
Definition onmessage (e : StockfishEngine) (line : string) : exn StockfishEngine :=
  if String.eqb line "readyok" then Ok (onReadyOk e)
  else
    e <- parseScore line e ;;
    e <- parseMate line e ;;
    e <- parseBestMove line e ;;
    e <- parsePv line e ;;
    e <- parseDepth line e ;;
    notifyCallback line e.

(** [setupWorker] *)
Definition setupWorker (e : StockfishEngine) : StockfishEngine :=
  match worker e with
  | None => e
  | Some _ =>
      let e := set_currentAnalysis emptyAnalysis e in
      let e := postMessage Uci e in
      let e := postMessage (SetOption "UCI_AnalyseMode" "true") e in
      let e := postMessage (SetOption "Threads" "4") e in
      let e := applyDifficultySettings (currentDifficulty e) e in
      postMessage IsReady e
  end.

(** What the constructor finds in its environment. *)
Record Browser := {
  hasWindow : bool;
  hasSharedArrayBuffer : bool;
  serviceWorkerControls : bool;
  (** [new Worker('/stockfish.js')] succeeds *)
  wasmWorkerStarts : bool;
  (** [new Worker('/stockfish-nnue.js')] succeeds *)
  nnueWorkerStarts : bool
}.

(** [new StockfishEngine(difficulty)] *)
Definition construct (env : Browser) (difficulty : DifficultyLevel) : StockfishEngine :=
  let e := {| worker := None; isReady := false; resolver_ready := None;
              resolver_bestmove := None; analysisCallback := false;
              useWasmStockfish := true; currentDifficulty := difficulty;
              currentAnalysis := emptyAnalysis; nextRequest := 0;
              resolved := []; rejected := []; callbackCalls := [] |} in
  if hasWindow env then
    let useWasm := hasSharedArrayBuffer env || serviceWorkerControls env in
    let e := set_useWasmStockfish useWasm e in
    if (if useWasm then wasmWorkerStarts env else nnueWorkerStarts env) then
      setupWorker (set_worker (Some []) e)
    else if useWasm then
      if nnueWorkerStarts env
      then setupWorker (set_useWasmStockfish false (set_worker (Some []) e))
      else e
    else e
  else e.

(** [waitReady], called on its own. *)
Definition waitReady (e : StockfishEngine) : StockfishEngine :=
  if isReady e then e
  else postMessage IsReady (set_resolver_ready (Some None) e).

(** [evaluatePosition]: the engine after the call, and the number that
    names the promise returned. *)
Definition evaluatePosition (e : StockfishEngine) (f : FEN) (depth multiPV : Z)
  : StockfishEngine * nat :=
  let request := nextRequest e in
  let e := set_nextRequest (S request) e in
  let c := {| call_fen := f; call_depth := depth; call_multiPV := multiPV;
              call_request := request |} in
  match worker e with
  | None => (set_rejected ((request, "Stockfish worker not initialized") :: rejected e) e,
             request)
  | Some _ =>
      if isReady e then (startSearch c e, request)
      else (postMessage IsReady (set_resolver_ready (Some (Some c)) e), request)
  end.

(** [setAnalysisCallback], [stop], [terminate] *)
Definition setAnalysisCallback (e : StockfishEngine) : StockfishEngine :=
  set_analysisCallback true e.
Definition stop (e : StockfishEngine) : StockfishEngine := postMessage Stop e.
Definition terminate (e : StockfishEngine) : StockfishEngine := set_worker None e.

(** The state of the promise that [evaluatePosition] returned under the
    number [request]: [Never] while neither [resolve] nor a rejection has
    reached it. *)
Definition settled (e : StockfishEngine) (request : nat) : Async StockfishAnalysis :=
  match find (fun x => Nat.eqb (fst x) request) (resolved e) with
  | Some x => Resolved (snd x)
  | None =>
      match find (fun x => Nat.eqb (fst x) request) (rejected e) with
      | Some x => Rejected (snd x)
      | None => Never
      end
  end.

(** What happens around the client once it exists: the worker posts a
    line, or time passes.  The class installs [onmessage] and nothing
    else (there is no [setTimeout] in it), so the passage of time runs
    none of its code. *)
Inductive Event :=
| Posted (data : string)
| Elapsed (milliseconds : Z).

Definition react (e : StockfishEngine) (ev : Event) : exn StockfishEngine :=
  match ev with
  | Posted data => onmessage e data
  | Elapsed _ => Ok e
  end.

(** The events reach the client one after the other; a handler that
    throws ends the run. *)
Fixpoint run (e : StockfishEngine) (events : list Event) : exn StockfishEngine :=
  match events with
  | [] => Ok e
  | ev :: events' => e' <- react e ev ;; run e' events'
  end.

(** What [evaluateChessPosition] can reach: the page it runs on, the
    server route behind [fetch], and the singleton browser engine. *)
Record Response := { ok : bool; status : Z; json : Async StockfishAnalysis }.

Record Backends := {
  isGitHubPages : bool;
  (** [await fetch(basePath + '/api/stockfish/route', ...)] *)
  fetchRoute : FEN -> Z -> DifficultyLevel -> Async Response;
  (** [await engine.evaluatePosition(fen, depth)] on
      [getStockfishEngine(difficulty)] *)
  browserEvaluate : DifficultyLevel -> FEN -> Z -> Async StockfishAnalysis
}.

(** [// Return a basic analysis if all methods fail] *)
Definition basicAnalysis (depth : Z) : StockfishAnalysis :=
  {| score := Some 0; mate := Null; bestMove := Undefined; pv := None;
     depth := Some depth; lines := None; fenEcho := None; error := None |}.

(** The browser half of [evaluateChessPosition] (its second [try]). *)
Definition evaluateInBrowser (B : Backends) (fenCopy : FEN) (depth : Z)
    (difficulty : DifficultyLevel) : Async StockfishAnalysis :=
  match browserEvaluate B difficulty fenCopy depth with
  | Resolved analysis =>
      match score analysis, mate analysis with
      | None, Undefined =>
          match browserEvaluate B difficulty fenCopy (depth + 2) with
          | Resolved deeper => Resolved deeper
          | Rejected _ => Resolved (basicAnalysis depth)
          | Never => Never
          end
      | _, _ => Resolved analysis
      end
  | Rejected _ => Resolved (basicAnalysis depth)
  | Never => Never
  end.

(** [evaluateChessPosition] *)
Definition evaluateChessPosition (B : Backends) (f : FEN) (depth : Z)
    (useServer : bool) (difficulty : DifficultyLevel) : Async StockfishAnalysis :=
  let fenCopy := f in
  if useServer && negb (isGitHubPages B) then
    match fetchRoute B fenCopy depth difficulty with
    | Resolved response =>
        if ok response then
          match json response with
          | Resolved body => Resolved body
          | Rejected _ => evaluateInBrowser B fenCopy depth difficulty
          | Never => Never
          end
        else evaluateInBrowser B fenCopy depth difficulty
    | Rejected _ => evaluateInBrowser B fenCopy depth difficulty
    | Never => Never
    end
  else evaluateInBrowser B fenCopy depth difficulty.

End Stockfish.

(* ===================================================================== *)
(** ** src/app/api/stockfish/route.ts: the server analysis route *)
(* ===================================================================== *)

Module Route.
Import Js Constants ChessJs Stockfish.

Definition pieceValues (t : PieceSymbol) : Z :=
  match t with
  | Pawn => PAWN | Knight => KNIGHT | Bishop => BISHOP
  | Rook => ROOK | Queen => QUEEN | King => KING
  end.

(** [estimateEvaluation]: the material balance in centipawns. *)
Definition estimateEvaluation (chess : Chess) : Z :=
  fold_left
    (fun evaluation row =>
       fold_left
         (fun evaluation piece =>
            match piece with
            | None => evaluation
            | Some x =>
                let value := pieceValues (type x) in
                (evaluation + match color x with White => value | Black => - value end)%Z
            end)
         row evaluation)
    (board chess) 0%Z.

(** When the promise of [analyzePosition] settles, in milliseconds
    after the call, and how; [None] when it never does. *)
Definition Settling := option (Z * exn StockfishAnalysis).

(** [Promise.race([analyzePosition(...), <reject after
    ANALYSIS_TIMEOUT>])] *)
Definition raceWithTimeout (p : Settling) : exn StockfishAnalysis :=
  match p with
  | Some (t, r) => if (t <? ANALYSIS_TIMEOUT)%Z then r else Throw "Analysis timeout"
  | None => Throw "Analysis timeout"
  end.

Record RequestBody := {
  body_fen : FEN;
  body_depth : option Z;
  body_multiPv : option Z;
  body_difficulty : option string
}.

Inductive Body :=
| AnalysisBody (a : StockfishAnalysis)
| ErrorBody (msg : string).

(** [NextResponse.json(body, { status })] *)
Record HttpResponse := { http_status : Z; http_body : Body }.

Definition orDefault {A} (o : option A) (d : A) : A :=
  match o with Some a => a | None => d end.

(** The retry loop of [POST]: [remaining] more attempts, the next one
    numbered [attempt]. *)
Fixpoint tryAnalysis (analyze : nat -> Settling) (remaining attempt : nat)
  : option StockfishAnalysis :=
  match remaining with
  | O => None
  | S remaining' =>
      match raceWithTimeout (analyze attempt) with
      | Ok analysis => Some analysis
      | Throw _ => tryAnalysis analyze remaining' (S attempt)
      end
  end.

(** [POST].  [analyzePosition n fen depth multiPv difficulty] is the
    engine process spawned for attempt [n]. *)
Definition POST (R : Rules)
    (analyzePosition : nat -> FEN -> Z -> Z -> string -> Settling)
    (req : exn RequestBody) : HttpResponse :=
  match req with
  | Throw _ => {| http_status := 500; http_body := ErrorBody "Failed to analyze position" |}
  | Ok body =>
      let f := body_fen body in
      let depth := orDefault (body_depth body) DEFAULT_DEPTH in
      let multiPv := orDefault (body_multiPv body) DEFAULT_MULTI_PV in
      let difficulty := orDefault (body_difficulty body) "medium" in
      match newChess R f with
      | Throw _ => {| http_status := 400; http_body := ErrorBody "Invalid FEN position" |}
      | Ok chess =>
          if negb (validateFen R f) then
            {| http_status := 400; http_body := ErrorBody "Invalid FEN position" |}
          else
            match tryAnalysis (fun n => analyzePosition n f depth multiPv difficulty)
                              (S MAX_RETRIES) 0 with
            | Some analysis => {| http_status := 200; http_body := AnalysisBody analysis |}
            | None =>
                let evaluation := estimateEvaluation chess in
                {| http_status := 200;
                   http_body :=
                     AnalysisBody
                       {| score := Some (inject_Z evaluation / inject_Z CENTIPAWNS_TO_PAWNS);
                          mate := Null;
                          bestMove := Null;
                          pv := None;
                          depth := Some depth;
                          lines := Some [];
                          fenEcho := Some f;
                          error := Some "Analysis failed after multiple attempts, providing estimated evaluation only" |} |}
            end
      end
  end.

(** What [fetch] hands to the client for a response of the route. *)
Definition toResponse (r : HttpResponse) : Response :=
  {| ok := (200 <=? http_status r)%Z && (http_status r <=? 299)%Z;
     status := http_status r;
     json := match http_body r with
             | AnalysisBody a => Resolved a
             | ErrorBody msg =>
                 Resolved {| score := None; mate := Undefined; bestMove := Undefined;
                             pv := None; depth := None; lines := None; fenEcho := None;
                             error := Some msg |}
             end |}.

End Route.

(* ===================================================================== *)
(** ** src/services/chess/position-analyzer.ts *)
(* ===================================================================== *)

Module PositionAnalyzer.
Import Js Constants ChessJs ChessUtils Stockfish.

(** The record returned from the [catch] of [refreshPositionAnalysis]. *)
Definition errorInfo : PositionFairnessInfo :=
  {| isLegal := false;
     isFair := false;
     evaluation := 0;
     winChance := Some {| white := 33; black := 33; draw := 34 |};
     forcedMate := None;
     description := DescText "Error analyzing position.";
     materialCount := None;
     legalMovesCount := None;
     inCheckInfo := None;
     moveNumber := None;
     halfmoveClock := None;
     repetition := None |}.

(** [isFair] as [refreshPositionAnalysis] computes it. *)
Definition fairVerdict (evaluation : Q) (forcedMate : option Z) : bool :=
  match forcedMate with
  | None => Qle_bool (Qabs evaluation) (inject_Z SLIGHT_ADVANTAGE)
  | Some _ => false
  end.

(** The statements of the [try] block after the awaited analysis. *)
Definition buildInfo (R : Rules) (chess : Chess) (f : FEN) (analysis : StockfishAnalysis)
  : exn PositionFairnessInfo :=
  let evaluation := match score analysis with
                    | Some s => s * inject_Z CENTIPAWNS_TO_PAWNS
                    | None => 0
                    end in
  let forcedMate := orNull (mate analysis) in
  let isFair := fairVerdict evaluation forcedMate in
  let materialCount := calculateMaterialCount chess in
  legalMovesCount <- calculateLegalMovesCount R chess ;;
  inCheck <- safeChessMutate R chess (fun chessCopy => inCheck R chessCopy) ;;
  let moveNumber := if (fullmoveField f =? 0)%Z then 1%Z else fullmoveField f in
  let halfmoveClock := halfmoveField f in
  threefold <- isThreefoldRepetition R chess ;;
  let repetition := if threefold then Some 3%Z else None in
  Ok {| isLegal := true;
        isFair := isFair;
        evaluation := evaluation;
        winChance := Some (calculateWinChances (Q2R evaluation) forcedMate);
        forcedMate := forcedMate;
        description := generatePositionDescription true isFair evaluation forcedMate;
        materialCount := Some materialCount;
        legalMovesCount := Some legalMovesCount;
        inCheckInfo := Some inCheck;
        moveNumber := Some moveNumber;
        halfmoveClock := Some halfmoveClock;
        repetition := repetition |}.

(** [refreshPositionAnalysis].  [evaluateChessPosition] is the function
    bound by the dynamic [import('../../lib/stockfish')]; the module
    system is taken to deliver it. *)
Definition refreshPositionAnalysis (R : Rules)
    (evaluateChessPosition : FEN -> Z -> bool -> Async StockfishAnalysis)
    (chess : Chess) (depth : Z) : Async PositionFairnessInfo :=
  match safeChessMutate R chess (fun chessCopy => Ok (fen chessCopy)) with
  | Throw _ => Resolved errorInfo
  | Ok f =>
      match evaluateChessPosition f depth false with
      | Never => Never
      | Rejected _ => Resolved errorInfo
      | Resolved analysis =>
          match buildInfo R chess f analysis with
          | Ok info => Resolved info
          | Throw _ => Resolved errorInfo
          end
      end
  end.

(** [evaluationToString] *)
Definition evaluationToString (evaluation : Q) (forcedMate : option Z) : string :=
  match forcedMate with
  | Some m =>
      if (m >? 0)%Z then "#" ++ Z_to_string m
      else "#-" ++ Z_to_string (Z.abs m)
  | None =>
      let absEval := Qabs evaluation / 100 in
      if Qeq_bool evaluation 0 then "0.00"
      else (if Qle_bool evaluation 0 then "-" else "+") ++ toFixed2 absEval
  end.

End PositionAnalyzer.

(* ===================================================================== *)
(** ** src/services/chess/position-generator.ts *)
(* ===================================================================== *)

Module PositionGenerator.
Import Js Constants ChessJs ChessUtils Stockfish PositionAnalyzer.

(** [getRandomElement] *)
Definition getRandomElement {T} (arr : list T) (undefined : T) (g : Rng) : T * Rng :=
  let (i, g') := next_index (List.length arr) g in
  (nth i arr undefined, g').

Record FairnessChecks := {
  kingsNotInCheck : bool;
  bishopsOnDifferentColors : bool;
  noStalemate : bool;
  evaluationWithinRange : bool
}.

(** [PositionGeneratorOptions] *)
Record PositionGeneratorOptions := {
  maxEvaluation : Q;
  stockfishDepth : Z;
  fairnessChecks : FairnessChecks
}.

(** [DEFAULT_POSITION_OPTIONS] *)
Definition DEFAULT_POSITION_OPTIONS : PositionGeneratorOptions :=
  {| maxEvaluation := inject_Z SLIGHT_ADVANTAGE;
     stockfishDepth := 15;
     fairnessChecks := {| kingsNotInCheck := true;
                          bishopsOnDifferentColors := true;
                          noStalemate := true;
                          evaluationWithinRange := true |} |}.

(** [Partial<PositionGeneratorOptions>] *)
Record PartialChecks := {
  opt_kingsNotInCheck : option bool;
  opt_bishopsOnDifferentColors : option bool;
  opt_noStalemate : option bool;
  opt_evaluationWithinRange : option bool
}.

Record PartialOptions := {
  opt_maxEvaluation : option Q;
  opt_stockfishDepth : option Z;
  opt_fairnessChecks : option PartialChecks
}.

Definition spread {A} (base : A) (over : option A) : A :=
  match over with Some a => a | None => base end.

(** [{ ...DEFAULT_POSITION_OPTIONS, ...options, fairnessChecks: {
    ...DEFAULT_POSITION_OPTIONS.fairnessChecks, ...options.fairnessChecks } }] *)
Definition mergeOptions (options : PartialOptions) : PositionGeneratorOptions :=
  let d := DEFAULT_POSITION_OPTIONS in
  let dc := fairnessChecks d in
  let oc := spread {| opt_kingsNotInCheck := None; opt_bishopsOnDifferentColors := None;
                      opt_noStalemate := None; opt_evaluationWithinRange := None |}
                   (opt_fairnessChecks options) in
  {| maxEvaluation := spread (maxEvaluation d) (opt_maxEvaluation options);
     stockfishDepth := spread (stockfishDepth d) (opt_stockfishDepth options);
     fairnessChecks :=
       {| kingsNotInCheck := spread (kingsNotInCheck dc) (opt_kingsNotInCheck oc);
          bishopsOnDifferentColors :=
            spread (bishopsOnDifferentColors dc) (opt_bishopsOnDifferentColors oc);
          noStalemate := spread (noStalemate dc) (opt_noStalemate oc);
          evaluationWithinRange :=
            spread (evaluationWithinRange dc) (opt_evaluationWithinRange oc) |} |}.

(** [isLightSquare] *)
Definition isLightSquare (square : Square) : bool :=
  let fileIndex := indexOf FILES (charAt square 0) in
  let rankIndex := indexOf RANKS (charAt square 1) in
  (Z.rem (fileIndex + rankIndex) 2 =? 0)%Z.

(** [getRandomSquare] *)
Definition getRandomSquare (allowedRanks : list nat) (g : Rng) : Square * Rng :=
  let (file, g) := getRandomElement FILES "undefined" g in
  let (rank, g) := getRandomElement (map (fun r => nth r RANKS "undefined") allowedRanks)
                                    "undefined" g in
  (file ++ rank, g).

(** [areKingsAdjacent] *)
Definition areKingsAdjacent (k1 k2 : Square) : bool :=
  let file1 := charCodeAt k1 0 in
  let rank1 := parseInt (charAt k1 1) in
  let file2 := charCodeAt k2 0 in
  let rank2 := parseInt (charAt k2 1) in
  (Z.abs (file1 - file2) <=? 1)%Z && (Z.abs (rank1 - rank2) <=? 1)%Z.

(** [isKingInCheck] *)
Definition isKingInCheck (R : Rules) (chess : Chess) (color : Color) : bool :=
  let attempt :=
    safeChessMutate R chess (fun chessCopy =>
      let opponentColor := swapColor color in
      let tempFen := setSide (fen chessCopy) opponentColor in
      loaded <- load R chessCopy tempFen ;;
      inCheck R loaded) in
  match attempt with
  | Ok v => v
  | Throw _ => true
  end.

(** The square colours pushed for the bishops of one colour, in the
    order of the scan of [chess.board()]. *)
Definition bishopSquares (chess : Chess) (c : Color) : list bool :=
  let rows := board chess in
  flat_map
    (fun rank =>
       flat_map
         (fun file =>
            match nth file (nth rank rows []) None with
            | Some piece =>
                if PieceSymbol_eqb (type piece) Bishop && Color_eqb (color piece) c then
                  let squareStr := nth file FILES "" ++ nth rank RANKS "" in
                  [isLightSquare squareStr]
                else []
            | None => []
            end)
         (seq 0 8))
    (seq 0 8).

Definition twoOnOneColour (bishops : list bool) : bool :=
  if (2 <=? List.length bishops)%nat then
    let onLightSquare := List.length (filter (fun isLight => isLight) bishops) in
    let onDarkSquare := (List.length bishops - onLightSquare)%nat in
    (2 <=? onLightSquare)%nat || (2 <=? onDarkSquare)%nat
  else false.

(** [hasBishopsOnSameColoredSquares] *)
Definition hasBishopsOnSameColoredSquares (chess : Chess) : bool :=
  let whiteBishopSquares := bishopSquares chess White in
  let blackBishopSquares := bishopSquares chess Black in
  if twoOnOneColour whiteBishopSquares then true
  else twoOnOneColour blackBishopSquares.

(** The [while (!placed && placementAttempts < 100)] loop for one
    piece, with [left] draws still allowed: the value of [placed] when
    the loop ends, and the board. *)
Fixpoint placeOne (chess : Chess) (piece : Piece) (allowedRanks : list nat)
    (left : nat) (g : Rng) : bool * Chess * Rng :=
  match left with
  | O => (false, chess, g)
  | S left' =>
      let (square, g) := getRandomSquare allowedRanks g in
      match get chess square with
      | None => (true, put chess piece square, g)
      | Some _ => placeOne chess piece allowedRanks left' g
      end
  end.

(** The [for (const piece of piecesToPlace)] loop: [false] as soon as a
    piece could not be placed, with the board as it is then. *)
Fixpoint placeAll (chess : Chess) (piecesToPlace : list Piece) (allowedRanks : list nat)
    (g : Rng) : bool * Chess * Rng :=
  match piecesToPlace with
  | [] => (true, chess, g)
  | piece :: rest =>
      match placeOne chess piece allowedRanks 100 g with
      | (true, chess', g') => placeAll chess' rest allowedRanks g'
      | (false, chess', g') => (false, chess', g')
      end
  end.

(** [// Early legality checks after pieces are placed] *)
Definition earlyChecks (R : Rules) (chess : Chess) (options : PositionGeneratorOptions)
  : exn bool :=
  let checks := fairnessChecks options in
  if kingsNotInCheck checks && (isKingInCheck R chess White || isKingInCheck R chess Black)
  then Ok false
  else if bishopsOnDifferentColors checks && hasBishopsOnSameColoredSquares chess
  then Ok false
  else if noStalemate checks then
    legalMoves <- calculateLegalMovesCount R chess ;;
    if (lm_white legalMoves =? 0)%nat || (lm_black legalMoves =? 0)%nat
    then Ok false
    else Ok true
  else Ok true.

Inductive PieceOrList :=
| OnePiece (piece : Piece)
| PieceList (pieces : list Piece).

(** [placePieces]: its answer, the board it leaves, and the draws
    used. *)
Definition placePieces (R : Rules) (chess : Chess) (pieceOrList : PieceOrList)
    (count : nat) (allowedRanks : list nat) (options : option PositionGeneratorOptions)
    (g : Rng) : exn bool * Chess * Rng :=
  let piecesToPlace := match pieceOrList with
                       | PieceList l => l
                       | OnePiece x => repeat x count
                       end in
  match placeAll chess piecesToPlace allowedRanks g with
  | (false, chess', g') => (Ok false, chess', g')
  | (true, chess', g') =>
      match options with
      | Some o => (earlyChecks R chess' o, chess', g')
      | None => (Ok true, chess', g')
      end
  end.

(** The [do ... while (areKingsAdjacent(...))] loop, run for at most
    [fuel] rounds. *)
Fixpoint placeKings (fuel : nat) (g : Rng) : option (Square * Square) * Rng :=
  match fuel with
  | O => (None, g)
  | S fuel' =>
      let (whiteKingSquare, g) := getRandomSquare [0; 1; 2]%nat g in
      let (blackKingSquare, g) := getRandomSquare [5; 6; 7]%nat g in
      if areKingsAdjacent whiteKingSquare blackKingSquare
      then placeKings fuel' g
      else (Some (whiteKingSquare, blackKingSquare), g)
  end.

Definition mk (t : PieceSymbol) (c : Color) : Piece := {| type := t; color := c |}.

Definition whitePieces : list Piece :=
  [mk Queen White; mk Rook White; mk Rook White;
   mk Bishop White; mk Bishop White; mk Knight White; mk Knight White].
Definition blackPieces : list Piece :=
  [mk Queen Black; mk Rook Black; mk Rook Black;
   mk Bishop Black; mk Bishop Black; mk Knight Black; mk Knight Black].

(** How one round of the [while (true)] loop ends. *)
Inductive Round :=
| Accepted (f : FEN) (fairness : PositionFairnessInfo)
| Continue
| Suspended.

(** Steps 1 to 6 of a round: the candidate FEN, or [None] for
    [continue].  A [Throw] is caught by the [catch] of the round. *)
Definition buildCandidate (R : Rules) (mergedOptions : PositionGeneratorOptions)
    (whiteKingSquare blackKingSquare : Square) (g : Rng) : exn (option FEN) * Rng :=
  let chess := cleared in
  let chess := put chess (mk King White) whiteKingSquare in
  let chess := put chess (mk King Black) blackKingSquare in
  match placePieces R chess (OnePiece (mk Pawn White)) 8 [1; 2; 3]%nat None g with
  | (Throw m, _, g) => (Throw m, g)
  | (Ok false, _, g) => (Ok None, g)
  | (Ok true, chess, g) =>
  match placePieces R chess (OnePiece (mk Pawn Black)) 8 [4; 5; 6]%nat None g with
  | (Throw m, _, g) => (Throw m, g)
  | (Ok false, _, g) => (Ok None, g)
  | (Ok true, chess, g) =>
  match placePieces R chess (PieceList whitePieces) (List.length whitePieces)
                    [0; 1; 2; 3]%nat (Some mergedOptions) g with
  | (Throw m, _, g) => (Throw m, g)
  | (Ok false, _, g) => (Ok None, g)
  | (Ok true, chess, g) =>
  match placePieces R chess (PieceList blackPieces) (List.length blackPieces)
                    [4; 5; 6; 7]%nat (Some mergedOptions) g with
  | (Throw m, _, g) => (Throw m, g)
  | (Ok false, _, g) => (Ok None, g)
  | (Ok true, chess, g) =>
      (f <- safeChessMutate R chess (fun chessCopy =>
              Ok (clearCastlingAndEnPassant (setSide (fen chessCopy) White))) ;;
       match safeChessMutate R chess (fun chessCopy =>
               loaded <- load R chessCopy f ;; Ok (fen loaded)) with
       | Ok validFen => Ok (Some validFen)
       | Throw _ => Ok None
       end, g)
  end end end end.

(** Step 7 and the acceptance test. *)
Definition judge (R : Rules) (B : Backends) (mergedOptions : PositionGeneratorOptions)
    (f : FEN) : Round :=
  match newChess R f with
  | Throw _ => Continue
  | Ok chess =>
      match refreshPositionAnalysis R
              (fun f' depth useServer => evaluateChessPosition B f' depth useServer max)
              chess (stockfishDepth mergedOptions) with
      | Never => Suspended
      | Rejected _ => Continue
      | Resolved analysis =>
          match forcedMate analysis with
          | None =>
              if isFair analysis then
                let whiteToMove := Qle_bool (evaluation analysis) 0 in
                let f := setSide f (if whiteToMove then White else Black) in
                Accepted f
                  {| isLegal := true;
                     isFair := true;
                     evaluation := evaluation analysis;
                     winChance := Some (calculateWinChances (Q2R (evaluation analysis)) None);
                     forcedMate := None;
                     description :=
                       generatePositionDescription true true (evaluation analysis) None;
                     materialCount := None;
                     legalMovesCount := None;
                     inCheckInfo := None;
                     moveNumber := None;
                     halfmoveClock := None;
                     repetition := None |}
              else Continue
          | Some _ => Continue
          end
      end
  end.

(** One round of the loop.  [kingFuel] bounds the king loop; running
    out of it means the round is still drawing king squares. *)
Definition round (R : Rules) (B : Backends) (mergedOptions : PositionGeneratorOptions)
    (kingFuel : nat) (g : Rng) : Round * Rng :=
  match placeKings kingFuel g with
  | (None, g) => (Suspended, g)
  | (Some (whiteKingSquare, blackKingSquare), g) =>
      match buildCandidate R mergedOptions whiteKingSquare blackKingSquare g with
      | (Throw _, g) => (Continue, g)
      | (Ok None, g) => (Continue, g)
      | (Ok (Some f), g) => (judge R B mergedOptions f, g)
      end
  end.

(** The [while (true)] loop, observed for [rounds] rounds starting with
    attempt number [attempts + 1].  The callback [onAttempt] only counts
    for the caller and is left out.  [world n] is what the evaluation
    backends do during attempt [n].  [Never] stands for a call that has
    not returned: a round is suspended for good, or the rounds observed
    were all rejected. *)
Fixpoint generateLoop (R : Rules) (world : nat -> Backends)
    (mergedOptions : PositionGeneratorOptions) (kingFuel rounds attempts : nat) (g : Rng)
  : Async (FEN * PositionFairnessInfo) :=
  match rounds with
  | O => Never
  | S rounds' =>
      let attempts := S attempts in
      match round R (world attempts) mergedOptions kingFuel g with
      | (Accepted f fairness, _) => Resolved (f, fairness)
      | (Suspended, _) => Never
      | (Continue, g') => generateLoop R world mergedOptions kingFuel rounds' attempts g'
      end
  end.

(** [generateRandomPosition] *)
Definition generateRandomPosition (R : Rules) (world : nat -> Backends)
    (options : PartialOptions) (kingFuel rounds : nat) (g : Rng)
  : Async (FEN * PositionFairnessInfo) :=
  generateLoop R world (mergeOptions options) kingFuel rounds 0 g.

End PositionGenerator.

(* ===================================================================== *)
(** ** The vocabulary of the properties *)
(* ===================================================================== *)

Module Notions.
Import Js Constants ChessJs ChessUtils Stockfish PositionGenerator.

(** The sixty-four squares. *)
Definition allSquares : list Square :=
  flat_map (fun rank => map (fun file => file ++ rank) FILES) RANKS.

(** File index (a = 0 ... h = 7) and rank index (1 = 0 ... 8 = 7). *)
Definition fileIndex (s : Square) : Z := indexOf FILES (charAt s 0).
Definition rankIndex (s : Square) : Z := indexOf RANKS (charAt s 1).

(** The colour of a square: (file index + rank index) mod 2. *)
Definition squareColor (s : Square) : Z := ((fileIndex s + rankIndex s) mod 2)%Z.

(** The Chebyshev distance of two squares. *)
Definition chebyshev (s1 s2 : Square) : Z :=
  Z.max (Z.abs (fileIndex s1 - fileIndex s2)) (Z.abs (rankIndex s1 - rankIndex s2)).

Definition holds (f : FEN) (x : Piece) (s : Square) : bool :=
  match placement f s with
  | Some y => Piece_eqb y x
  | None => false
  end.

(** How many squares carry the piece [x]. *)
Definition countPieces (f : FEN) (x : Piece) : nat :=
  List.length (filter (holds f x) allSquares).

(** All the pieces of one side. *)
Definition countSide (f : FEN) (c : Color) : nat :=
  (countPieces f (mk King c) + countPieces f (mk Pawn c) + countPieces f (mk Queen c)
   + countPieces f (mk Rook c) + countPieces f (mk Bishop c)
   + countPieces f (mk Knight c))%nat.

(** Whether [c], having the move in [f], is in check. *)
Definition inCheckOnOwnTurn (R : Rules) (f : FEN) (c : Color) : exn bool :=
  inCheck R {| position := setSide f c; history := [] |}.

(** A coordinate move: from-square, to-square, optional promotion
    piece. *)
Definition wellFormedMove (m : string) : Prop :=
  exists f1 r1 f2 r2,
    is_file f1 = true /\ is_rank r1 = true /\ is_file f2 = true /\ is_rank r2 = true /\
    (m = String f1 (String r1 (String f2 (String r2 EmptyString))) \/
     exists p, is_promo p = true /\
               m = String f1 (String r1 (String f2 (String r2 (String p EmptyString))))).

(** The line contains [bestmove] followed by the coordinate move [m]. *)
Definition announcesBestMove (line m : string) : Prop :=
  exists before after, line = before ++ "bestmove " ++ m ++ after /\ wellFormedMove m.

(** Two states of the client that agree on the promises handed out
    and on the worker. *)
Definition sameRequests (e e' : StockfishEngine) : Prop :=
  resolved e' = resolved e /\ rejected e' = rejected e
  /\ resolver_bestmove e' = resolver_bestmove e
  /\ resolver_ready e' = resolver_ready e
  /\ worker e' = worker e /\ isReady e' = isReady e.

(** The analysis accumulated when the best-move step of [onmessage]
    runs on [line]: the score and mate steps come first. *)
Definition accumulated (e : StockfishEngine) (line : string) : exn StockfishAnalysis :=
  e1 <- parseScore line e ;;
  e2 <- parseMate line e1 ;;
  Ok (currentAnalysis e2).



(** [c'] is [c] with the pieces of [l] put, one after the other, on
    squares of the board that were empty. *)
Inductive placedOn : Chess -> list Piece -> Chess -> Prop :=
| placed_nil c : placedOn c [] c
| placed_cons c x s l c' :
    In s allSquares -> get c s = None -> placedOn (put c x s) l c' ->
    placedOn c (x :: l) c'.

(** The pieces a round puts on the board, in order. *)
Definition allPieces : list Piece :=
  (mk King White :: mk King Black
     :: repeat (mk Pawn White) 8 ++ repeat (mk Pawn Black) 8
     ++ whitePieces ++ blackPieces)%list.

(** Rank indices a placement may draw from. *)
Definition ranksOk (allowedRanks : list nat) : Prop :=
  allowedRanks <> [] /\ Forall (fun r => (r < 8)%nat) allowedRanks.

(** The cells of [chess.board()] in the order of the scan of
    [hasBishopsOnSameColoredSquares]: the square a cell shows, and the
    square name the scan computes for it. *)
Definition scanCells : list (Square * Square) :=
  flat_map
    (fun rank => map (fun file => (nth file FILES "" ++ nth (7 - rank) RANKS "",
                                   nth file FILES "" ++ nth rank RANKS ""))
                     (seq 0 8))
    (seq 0 8).

Definition isBishopOf (c : Color) (cell : option Piece) : bool :=
  match cell with
  | Some piece => PieceSymbol_eqb (type piece) Bishop && Color_eqb (color piece) c
  | None => false
  end.

Fixpoint nodupb (l : list string) : bool :=
  match l with
  | [] => true
  | x :: l' => negb (existsb (String.eqb x) l') && nodupb l'
  end.

(** The squares of the ranks a placement may draw from. *)
Definition zoneSquares (allowedRanks : list nat) : list Square :=
  flat_map (fun r => map (fun file => file ++ nth r RANKS "undefined") FILES) allowedRanks.


(** Two sets of options that agree on everything but [maxEvaluation]
    and the [evaluationWithinRange] toggle. *)
Definition sameChecks (o o' : PositionGeneratorOptions) : Prop :=
  stockfishDepth o = stockfishDepth o'
  /\ kingsNotInCheck (fairnessChecks o) = kingsNotInCheck (fairnessChecks o')
  /\ bishopsOnDifferentColors (fairnessChecks o) = bishopsOnDifferentColors (fairnessChecks o')
  /\ noStalemate (fairnessChecks o) = noStalemate (fairnessChecks o').

(** The options of a caller, with the evaluation range set. *)
Definition withEvaluationRange (options : PartialOptions) (bound : Q) (enabled : bool)
  : PartialOptions :=
  let checks := spread {| opt_kingsNotInCheck := None; opt_bishopsOnDifferentColors := None;
                          opt_noStalemate := None; opt_evaluationWithinRange := None |}
                       (opt_fairnessChecks options) in
  {| opt_maxEvaluation := Some bound;
     opt_stockfishDepth := opt_stockfishDepth options;
     opt_fairnessChecks :=
       Some {| opt_kingsNotInCheck := opt_kingsNotInCheck checks;
               opt_bishopsOnDifferentColors := opt_bishopsOnDifferentColors checks;
               opt_noStalemate := opt_noStalemate checks;
               opt_evaluationWithinRange := Some enabled |} |}.

End Notions.

(* ===================================================================== *)
(** ** Concrete runs *)
(* ===================================================================== *)

Module Scenario.
Import Js Constants ChessJs ChessUtils Stockfish PositionGenerator.

(** Rules under which every FEN loads, nobody is in check and twenty
    moves are available. *)
Definition quietRules : Rules :=
  {| validateFen := fun _ => true;
     inCheck := fun _ => Ok false;
     movesLength := fun _ => Ok 20%nat;
     isThreefoldRepetition := fun _ => Ok false |}.


(** Draws that put the pieces on the squares of the standard starting
    position: kings, white pawns, black pawns, white pieces, black
    pieces; each square is a file draw followed by a rank draw. *)
Definition standardDraws : list nat :=
  ([4; 0; 4; 2]
   ++ [0; 0; 1; 0; 2; 0; 3; 0; 4; 0; 5; 0; 6; 0; 7; 0]
   ++ [0; 2; 1; 2; 2; 2; 3; 2; 4; 2; 5; 2; 6; 2; 7; 2]
   ++ [3; 0; 0; 0; 7; 0; 2; 0; 5; 0; 1; 0; 6; 0]
   ++ [3; 3; 0; 3; 7; 3; 2; 3; 5; 3; 1; 3; 6; 3])%nat%list.

Definition standardRng : Rng :=
  {| draws := fun k => nth k standardDraws 0%nat; pos := 0 |}.

(** A browser engine that reports [cp] centipawns and no mate. *)
Definition engineReporting (cp : Z) : Backends :=
  {| isGitHubPages := false;
     fetchRoute := fun _ _ _ => Rejected "Failed to fetch";
     browserEvaluate := fun _ _ _ =>
       Resolved (with_bestMove
                   (with_score emptyAnalysis (inject_Z cp / inject_Z CENTIPAWNS_TO_PAWNS))
                   "e2e4") |}.

(** The caller asks for at most 25 centipawns, all checks enabled. *)
Definition strictOptions : PartialOptions :=
  {| opt_maxEvaluation := Some (inject_Z 25);
     opt_stockfishDepth := None;
     opt_fairnessChecks :=
       Some {| opt_kingsNotInCheck := Some true;
               opt_bishopsOnDifferentColors := Some true;
               opt_noStalemate := Some true;
               opt_evaluationWithinRange := Some true |} |}.

(** No backend answers: the request to the server fails and the
    browser engine has no worker. *)
Definition noBackend : Backends :=
  {| isGitHubPages := false;
     fetchRoute := fun _ _ _ => Rejected "Failed to fetch";
     browserEvaluate := fun _ _ _ => Rejected "Stockfish worker not initialized" |}.

(** The two kings and a white queen. *)
Definition queenUp : FEN :=
  position (put (put (put cleared (mk King White) "e1") (mk King Black) "e8")
                 (mk Queen White) "d1").

(** Engine processes that never answer. *)
Definition silentProcess : nat -> FEN -> Z -> Z -> string -> Route.Settling :=
  fun _ _ _ _ _ => None.

Definition queenUpRequest : exn Route.RequestBody :=
  Ok {| Route.body_fen := queenUp; Route.body_depth := None;
        Route.body_multiPv := None; Route.body_difficulty := None |}.

(** A page with [SharedArrayBuffer] on which the worker starts. *)
Definition modernBrowser : Browser :=
  {| hasWindow := true; hasSharedArrayBuffer := true; serviceWorkerControls := false;
     wasmWorkerStarts := true; nnueWorkerStarts := true |}.

(** A client that has been asked to evaluate [queenUp] at depth 15. *)
Definition askedEngine : StockfishEngine * nat :=
  evaluatePosition (construct modernBrowser max) queenUp 15 1.

(** An engine that searches on and never announces a move, while first
    ten seconds and then an hour go by. *)
Definition searchingForEver : list Event :=
  [Posted "readyok";
   Posted "info depth 1 seldepth 1 multipv 1 score cp 912 nodes 20 nps 20000 pv d1d7";
   Elapsed 5000;
   Posted "info depth 2 seldepth 2 multipv 1 score cp 930 nodes 57 nps 28500 pv d1d7 e8f8";
   Elapsed 5000;
   Posted "info string still searching";
   Posted "bestmove (none)";
   Elapsed 3600000].

(** An engine that announces a move after two seconds. *)
Definition searchingAndFinding : list Event :=
  [Posted "readyok";
   Posted "info depth 1 seldepth 1 multipv 1 score cp 912 nodes 20 nps 20000 pv d1d7";
   Elapsed 2000;
   Posted "bestmove d1d7 ponder e8f8"].

End Scenario.

(* ===================================================================== *)
(** ** src/services/chess/chess-utils.ts: the board analysis helpers *)
(* ===================================================================== *)

Module BoardAnalysis.
Import Js ChessJs ChessUtils.

(** [getCastlingRights] *)
Definition getCastlingRights (chess : Chess) : string :=
  let castling := castlingField (fen chess) in
  if String.eqb castling "-" then "None" else castling.

(** [getEnPassantSquare] *)
Definition getEnPassantSquare (chess : Chess) : string :=
  if String.eqb (enPassantField (fen chess)) "-" then "None"
  else enPassantField (fen chess).

(** [String.fromCharCode(97 + f) + (8 - r)] *)
Definition cellName (r f : nat) : Square :=
  String (ascii_of_nat (97 + f)) EmptyString ++ Z_to_string (8 - Z.of_nat r).

(** [arr.filter((x, i) => keep(x, i))], the elements numbered from
    [i]. *)
Fixpoint filterFrom {A} (keep : A -> nat -> bool) (i : nat) (arr : list A) : list A :=
  match arr with
  | [] => []
  | x :: rest =>
      if keep x i then x :: filterFrom keep (S i) rest else filterFrom keep (S i) rest
  end.

(** [arr.filter((f, i, arr) => arr.indexOf(f) !== i)] *)
Definition laterOccurrences (arr : list string) : list string :=
  filterFrom (fun f i => negb (indexOf arr f =? Z.of_nat i)%Z) 0 arr.

(** [arr.filter((v, i, arr) => arr.indexOf(v) === i)] *)
Definition firstOccurrences (arr : list string) : list string :=
  filterFrom (fun v i => (indexOf arr v =? Z.of_nat i)%Z) 0 arr.

(** [pawns[color]] after the scan of [chess.board()]. *)
Definition pawnSquares (chess : Chess) (c : Color) : list Square :=
  let board := board chess in
  flat_map
    (fun r =>
       flat_map
         (fun f =>
            match nth f (nth r board []) None with
            | Some sq =>
                if PieceSymbol_eqb (type sq) Pawn && Color_eqb (color sq) c
                then [cellName r f]
                else []
            | None => []
            end)
         (seq 0 8))
    (seq 0 8).

(** [allFiles[i]], [undefined] outside the array. *)
Definition fileAt (i : Z) : option string :=
  if (i <? 0)%Z then None else nth_error FILES (Z.to_nat i).

(** [files.includes(x)] *)
Definition includesFile (files : list string) (x : option string) : bool :=
  match x with
  | Some v => existsb (String.eqb v) files
  | None => false
  end.

Record PawnStructure := { doubled : nat; isolated : nat; passed : nat }.

(** [analyze(color)] inside [getPawnStructure] *)
Definition analyze (chess : Chess) (c : Color) : PawnStructure :=
  let own := pawnSquares chess c in
  let files := map (fun sq => charAt sq 0) own in
  let doubled := List.length (firstOccurrences (laterOccurrences files)) in
  let allFiles := FILES in
  let isolated :=
    List.length
      (filter (fun f =>
                 let idx := indexOf allFiles f in
                 ((idx =? 0)%Z || negb (includesFile files (fileAt (idx - 1))))
                 && ((idx =? 7)%Z || negb (includesFile files (fileAt (idx + 1)))))
              files) in
  let enemy := swapColor c in
  let enemyPawns := pawnSquares chess enemy in
  let passed :=
    List.length
      (filter (fun sq =>
                 let fileIdx := indexOf allFiles (charAt sq 0) in
                 let rank := parseInt (charAt sq 1) in
                 negb (existsb
                         (fun ep =>
                            let epFileIdx := indexOf allFiles (charAt ep 0) in
                            let epRank := parseInt (charAt ep 1) in
                            if (Z.abs (epFileIdx - fileIdx) >? 1)%Z then false
                            else match c with
                                 | White => (epRank >? rank)%Z
                                 | Black => (epRank <? rank)%Z
                                 end)
                         enemyPawns))
              own) in
  {| doubled := doubled; isolated := isolated; passed := passed |}.

(** [getPawnStructure]: the answer for White and for Black. *)
Definition getPawnStructure (chess : Chess) : PawnStructure * PawnStructure :=
  (analyze chess White, analyze chess Black).

Inductive KingPlace := castled | center | moved.

(** [getKingSafety]: the scan keeps, for each colour, the verdict on
    the last king of that colour it meets. *)
Definition getKingSafety (chess : Chess) : KingPlace * KingPlace :=
  let board := board chess in
  fold_left
    (fun acc r =>
       fold_left
         (fun acc f =>
            match nth f (nth r board []) None with
            | Some sq =>
                if PieceSymbol_eqb (type sq) King then
                  let pos := cellName r f in
                  match color sq with
                  | White =>
                      (if String.eqb pos "g1" || String.eqb pos "c1" then castled
                       else if String.eqb pos "e1" then center else moved,
                       snd acc)
                  | Black =>
                      (fst acc,
                       if String.eqb pos "g8" || String.eqb pos "c8" then castled
                       else if String.eqb pos "e8" then center else moved)
                  end
                else acc
            | None => acc
            end)
         (seq 0 8) acc)
    (seq 0 8) (center, center).

End BoardAnalysis.

(* ===================================================================== *)
(** ** src/hooks/use-stockfish.ts: the move of the computer opponent *)
(* ===================================================================== *)

Module UseStockfish.
Import Js Constants ChessJs Stockfish.

(** [DIFFICULTY_DEPTHS] *)
Definition DIFFICULTY_DEPTHS (difficulty : DifficultyLevel) : Z :=
  match difficulty with
  | easy => 5
  | medium => 10
  | hard => 15
  | max => 20
  end.

(** A verbose move of chess.js, by the properties the hook reads. *)
Record Move := {
  move_from : Square;
  move_to : Square;
  move_promotion : option string;
  move_san : string
}.

(** The queries of chess.js the hook relies on. *)
Record MoveQueries := {
  (** [isGameOver()] *)
  isGameOver : Chess -> bool;
  (** [moves({ verbose: true })] *)
  movesVerbose : Chess -> list Move
}.

(** [!x] for an optional string: [undefined] and [''] are falsy. *)
Definition falsy (x : option string) : bool :=
  match x with
  | None => true
  | Some EmptyString => true
  | Some _ => false
  end.

(** [a === b] for optional strings. *)
Definition sameOptional (a b : option string) : bool :=
  match a, b with
  | None, None => true
  | Some x, Some y => String.eqb x y
  | _, _ => false
  end.

(** [// Process the move data], on a truthy [data.bestMove]: the move
    handed to [onMove], if any. *)
Definition processMove (Q : MoveQueries) (chess : Chess) (moveNotation : string)
  : option Move :=
  if (4 <=? String.length moveNotation)%nat then
    let from := substring 0 2 moveNotation in
    let to := substring 2 2 moveNotation in
    let promotion := if (4 <? String.length moveNotation)%nat
                     then Some (substring 4 1 moveNotation) else None in
    let possibleMoves := movesVerbose Q chess in
    find (fun m =>
            String.eqb (move_from m) from && String.eqb (move_to m) to
            && (sameOptional (move_promotion m) promotion
                || (falsy (move_promotion m) && falsy promotion)))
         possibleMoves
  else None.

(** [if (data && data.bestMove)] *)
Definition moveOf (Q : MoveQueries) (chess : Chess) (bestMove : nullable string)
  : option Move :=
  match bestMove with
  | Value (String c s) => processMove Q chess (String c s)
  | _ => None
  end.

(** The value of [data] after the request to the server. *)
Definition askServer (B : Backends) (f : FEN) (depth : Z) (difficulty : DifficultyLevel)
  : Async (option StockfishAnalysis) :=
  if isGitHubPages B then Resolved None
  else
    match fetchRoute B f depth difficulty with
    | Resolved response =>
        if ok response then
          match json response with
          | Resolved body => Resolved (Some body)
          | Rejected _ => Resolved None
          | Never => Never
          end
        else Resolved None
    | Rejected _ => Resolved None
    | Never => Never
    end.

(** [getBotMove]: the move passed to [onMove], [None] when the call
    returns without calling it.  Every exception is caught by the outer
    [catch]. *)
Definition getBotMove (Q : MoveQueries) (B : Backends) (difficulty : DifficultyLevel)
    (chess : Chess) : Async (option Move) :=
  if isGameOver Q chess then Resolved None
  else
    let depth := DIFFICULTY_DEPTHS difficulty in
    let f := fen chess in
    match askServer B f depth difficulty with
    | Never => Never
    | Rejected _ => Resolved None
    | Resolved (Some data) => Resolved (moveOf Q chess (bestMove data))
    | Resolved None =>
        match browserEvaluate B difficulty f depth with
        | Never => Never
        | Rejected _ => Resolved None
        | Resolved analysis =>
            match bestMove analysis with
            | Value (String c s) => Resolved (moveOf Q chess (Value (String c s)))
            | _ => Resolved None
            end
        end
    end.

End UseStockfish.

(* ===================================================================== *)
(** ** Further vocabulary: zones, material, forgotten requests *)
(* ===================================================================== *)

Module Measures.
Import Js Constants ChessJs ChessUtils Stockfish PositionGenerator Notions.

(** The rank indices from which a round draws the square of the piece
    [x]. *)
Definition ownZone (x : Piece) : list nat :=
  match type x, color x with
  | King, White => [0; 1; 2]
  | King, Black => [5; 6; 7]
  | Pawn, White => [1; 2; 3]
  | Pawn, Black => [4; 5; 6]
  | _, White => [0; 1; 2; 3]
  | _, Black => [4; 5; 6; 7]
  end%nat.

(** The pieces of one side weighed by a table of values. *)
Definition weighedBy (value : PieceSymbol -> Z) (f : FEN) (c : Color) : Z :=
  (value Pawn * Z.of_nat (countPieces f (mk Pawn c))
   + value Knight * Z.of_nat (countPieces f (mk Knight c))
   + value Bishop * Z.of_nat (countPieces f (mk Bishop c))
   + value Rook * Z.of_nat (countPieces f (mk Rook c))
   + value Queen * Z.of_nat (countPieces f (mk Queen c))
   + value King * Z.of_nat (countPieces f (mk King c)))%Z.

(** The same weighing, counted on the squares of [l]. *)
Definition weighedOn (l : list Square) (value : PieceSymbol -> Z) (f : FEN) (c : Color) : Z :=
  (value Pawn * Z.of_nat (List.length (filter (holds f (mk Pawn c)) l))
   + value Knight * Z.of_nat (List.length (filter (holds f (mk Knight c)) l))
   + value Bishop * Z.of_nat (List.length (filter (holds f (mk Bishop c)) l))
   + value Rook * Z.of_nat (List.length (filter (holds f (mk Rook c)) l))
   + value Queen * Z.of_nat (List.length (filter (holds f (mk Queen c)) l))
   + value King * Z.of_nat (List.length (filter (holds f (mk King c)) l)))%Z.

(** An event that announces no best move. *)
Definition quiet (ev : Event) : Prop :=
  match ev with
  | Posted data => match_after "bestmove " coordinate_move data = None
  | Elapsed _ => True
  end.

(** The promise numbered [request] is pending and no resolver of the
    client refers to it any more. *)
Definition forgotten (e : StockfishEngine) (request : nat) : Prop :=
  resolver_bestmove e <> Some request
  /\ (forall c, resolver_ready e = Some (Some c) -> call_request c <> request)
  /\ settled e request = Never.

(** The translation key of a description. *)
Definition descriptionKey (d : Description) : string :=
  match d with
  | DescKey key _ => key
  | DescText s => s
  end.

(** How many pawns of colour [c] stand on the file [file]. *)
Definition pawnsOnFile (f : FEN) (c : Color) (file : string) : nat :=
  List.length (filter (fun s => holds f (mk Pawn c) s && String.eqb (charAt s 0) file)
                      allSquares).


(** Some side has two bishops on squares of one colour. *)
Definition twoBishopsOnOneColour (chess : Chess) : Prop :=
  exists c s1 s2,
    In s1 allSquares /\ In s2 allSquares /\ s1 <> s2
    /\ get chess s1 = Some (mk Bishop c) /\ get chess s2 = Some (mk Bishop c)
    /\ squareColor s1 = squareColor s2.

(** The verdict of [getKingSafety] on a king of colour [c] standing on
    [s]. *)
Definition kingPlaceOf (c : Color) (s : Square) : BoardAnalysis.KingPlace :=
  match c with
  | White =>
      if String.eqb s "g1" || String.eqb s "c1" then BoardAnalysis.castled
      else if String.eqb s "e1" then BoardAnalysis.center else BoardAnalysis.moved
  | Black =>
      if String.eqb s "g8" || String.eqb s "c8" then BoardAnalysis.castled
      else if String.eqb s "e8" then BoardAnalysis.center else BoardAnalysis.moved
  end.

(** The half of the answer of [getKingSafety] that concerns [c]. *)
Definition verdictFor (c : Color) (v : BoardAnalysis.KingPlace * BoardAnalysis.KingPlace)
  : BoardAnalysis.KingPlace :=
  match c with
  | White => fst v
  | Black => snd v
  end.

End Measures.

(* ===================================================================== *)
(** ** Concrete games *)
(* ===================================================================== *)

Module Games.
Import Js Constants ChessJs Stockfish UseStockfish Scenario.

(** A game that is not over, in which two moves are available. *)
Definition twoMoves : MoveQueries :=
  {| isGameOver := fun _ => false;
     movesVerbose := fun _ =>
       [{| move_from := "d1"; move_to := "d7"; move_promotion := None; move_san := "Qd7" |};
        {| move_from := "e2"; move_to := "e4"; move_promotion := None; move_san := "e4" |}] |}.

(** A server whose engine processes never answer, in front of a
    browser engine that would. *)
Definition degradedServer : Backends :=
  {| isGitHubPages := false;
     fetchRoute := fun f depth _ =>
       Resolved (Route.toResponse
                   (Route.POST quietRules silentProcess
                      (Ok {| Route.body_fen := f; Route.body_depth := Some depth;
                             Route.body_multiPv := None;
                             Route.body_difficulty := None |})));
     browserEvaluate := browserEvaluate (engineReporting 20) |}.

End Games.

(* ===================================================================== *)
(** * Properties *)
(* ===================================================================== *)

(** ** The analyzer: [evaluationToString] and [refreshPositionAnalysis] *)

Module AnalyzerFacts.
Import Js Constants ChessJs ChessUtils Stockfish PositionAnalyzer Notions Scenario.

(** C9.  [evaluationToString] prints +150 centipawns without a forced
    mate as "+1.50", a forced mate of 3 as "#3" and a forced mate of -3
    as "#-3"; whenever a forced mate is present the result is that of
    the mate branch, whatever the numeric evaluation. *)
Theorem evaluationToString_formats :
  evaluationToString 150 None = "+1.50"
  /\ (forall evaluation, evaluationToString evaluation (Some 3%Z) = "#3")
  /\ (forall evaluation, evaluationToString evaluation (Some (-3)%Z) = "#-3")
  /\ (forall evaluation m,
        evaluationToString evaluation (Some m)
        = if (m >? 0)%Z then "#" ++ Z_to_string m else "#-" ++ Z_to_string (Z.abs m))
  /\ (forall evaluation evaluation' m,
        evaluationToString evaluation (Some m) = evaluationToString evaluation' (Some m)).
Proof.
  repeat split; intros; reflexivity.
Qed.


Lemma refresh_cases R evaluate chess depth :
  refreshPositionAnalysis R evaluate chess depth = Never
  \/ refreshPositionAnalysis R evaluate chess depth = Resolved errorInfo
  \/ exists f analysis info,
       safeChessMutate R chess (fun chessCopy => Ok (fen chessCopy)) = Ok f
       /\ evaluate f depth false = Resolved analysis
       /\ buildInfo R chess f analysis = Ok info
       /\ refreshPositionAnalysis R evaluate chess depth = Resolved info.
Proof.
  unfold refreshPositionAnalysis.
  destruct (safeChessMutate R chess _) as [f|msg] eqn:Hfen; [|now right; left].
  destruct (evaluate f depth false) as [analysis|msg|] eqn:Heval;
    [|now right; left|now left].
  destruct (buildInfo R chess f analysis) as [info|msg] eqn:Hinfo; [|now right; left].
  right; right. exists f, analysis, info. now rewrite Heval.
Qed.



End AnalyzerFacts.

(** ** The browser engine client *)

Module EngineClientFacts.
Import Js Constants ChessJs Stockfish Notions Scenario.

Lemma length_append (a b : string) :
  String.length (a ++ b) = (String.length a + String.length b)%nat.
Proof.
  induction a as [|c a IH]; simpl; [reflexivity|now rewrite IH].
Qed.

Lemma strip_prefix_sound p : forall s rest, strip_prefix p s = Some rest -> s = p ++ rest.
Proof.
  induction p as [|a p IH]; simpl; intros s rest H.
  - now inversion H.
  - destruct s as [|b s]; [discriminate|].
    destruct (Ascii.eqb_spec a b); [|discriminate].
    subst. f_equal. now apply IH.
Qed.

Lemma strip_prefix_complete p rest : strip_prefix p (p ++ rest) = Some rest.
Proof.
  induction p as [|a p IH]; simpl; [reflexivity|].
  now rewrite Ascii.eqb_refl.
Qed.

Lemma search_sound {A} (m : string -> option A) s r :
  search m s = Some r -> exists before t, s = before ++ t /\ m t = Some r.
Proof.
  induction s as [|a s IH]; simpl.
  - destruct (m "") eqn:E; intros H; inversion H; subst.
    exists "", "". auto.
  - destruct (m (String a s)) eqn:E; intros H.
    + inversion H; subst. exists "", (String a s). auto.
    + destruct (IH H) as (before & t & -> & Ht).
      exists (String a before), t. auto.
Qed.

Lemma search_complete {A} (m : string -> option A) before t r :
  m t = Some r -> exists r', search m (before ++ t) = Some r'.
Proof.
  intros H. induction before as [|a before IH]; simpl.
  - destruct t; simpl; rewrite H; eauto.
  - destruct (m (String a (before ++ t))); eauto.
Qed.

Lemma coordinate_move_sound s m :
  coordinate_move s = Some m -> wellFormedMove m /\ exists rest, s = m ++ rest.
Proof.
  destruct s as [|f1 [|r1 [|f2 [|r2 rest]]]]; simpl; try discriminate.
  destruct (is_file f1 && is_rank r1 && is_file f2 && is_rank r2) eqn:E; [|discriminate].
  apply andb_true_iff in E as [E H4]. apply andb_true_iff in E as [E H3].
  apply andb_true_iff in E as [H1 H2].
  destruct rest as [|p rest].
  - intros H; inversion H; subst. split; [|exists ""; reflexivity].
    exists f1, r1, f2, r2. auto 10.
  - destruct (is_promo p) eqn:Ep; intros H; inversion H; subst.
    + split; [|exists rest; reflexivity].
      exists f1, r1, f2, r2. repeat split; auto. right. exists p. auto.
    + split; [|exists (String p rest); reflexivity].
      exists f1, r1, f2, r2. auto 10.
Qed.

Lemma coordinate_move_complete m rest :
  wellFormedMove m -> exists m', coordinate_move (m ++ rest) = Some m'.
Proof.
  intros (f1 & r1 & f2 & r2 & H1 & H2 & H3 & H4 & [-> | (p & Hp & ->)]);
    simpl; rewrite H1, H2, H3, H4; simpl.
  - destruct rest as [|p rest]; [eauto|]. destruct (is_promo p); eauto.
  - rewrite Hp. eauto.
Qed.

Lemma bestmove_match_sound line m :
  match_after "bestmove " coordinate_move line = Some m -> announcesBestMove line m.
Proof.
  unfold match_after. intros H.
  apply search_sound in H as (before & t & -> & Ht).
  destruct (strip_prefix "bestmove " t) as [rest|] eqn:E; [|discriminate].
  apply strip_prefix_sound in E. subst t.
  apply coordinate_move_sound in Ht as (Hwf & after & ->).
  exists before, after. split; [reflexivity|exact Hwf].
Qed.

Lemma bestmove_match_complete line m :
  announcesBestMove line m ->
  exists m', match_after "bestmove " coordinate_move line = Some m'.
Proof.
  intros (before & after & -> & Hwf).
  destruct (coordinate_move_complete m after Hwf) as (m' & Hm').
  unfold match_after.
  apply search_complete with (r := m').
  now rewrite strip_prefix_complete.
Qed.

Lemma bestmove_match_includes line m :
  match_after "bestmove " coordinate_move line = Some m ->
  includes line "bestmove" = true.
Proof.
  unfold match_after, includes. intros H.
  apply search_sound in H as (before & t & -> & Ht).
  destruct (strip_prefix "bestmove " t) as [rest|] eqn:E; [|discriminate].
  apply strip_prefix_sound in E. subst t.
  destruct (search_complete (strip_prefix "bestmove") before
              ("bestmove" ++ String " " rest) (String " " rest)
              (strip_prefix_complete _ _)) as (r' & Hr').
  change ("bestmove " ++ rest) with ("bestmove" ++ String " " rest).
  now rewrite Hr'.
Qed.

Lemma readyok_announces_nothing m : ~ announcesBestMove "readyok" m.
Proof.
  intros (before & after & H & _).
  apply (f_equal String.length) in H.
  rewrite !length_append in H. simpl in H. lia.
Qed.

Lemma sameRequests_refl e : sameRequests e e.
Proof. repeat split. Qed.

Lemma sameRequests_trans e1 e2 e3 :
  sameRequests e1 e2 -> sameRequests e2 e3 -> sameRequests e1 e3.
Proof.
  unfold sameRequests. intuition congruence.
Qed.

Lemma parseScore_frame line e : exists e', parseScore line e = Ok e' /\ sameRequests e e'.
Proof.
  unfold parseScore.
  destruct (includes line "score cp"); [|eauto using sameRequests_refl].
  destruct (match_after "score cp " signed_digits line); simpl;
    eexists; (split; [reflexivity|repeat split]).
Qed.

Lemma parseMate_frame line e : exists e', parseMate line e = Ok e' /\ sameRequests e e'.
Proof.
  unfold parseMate.
  destruct (includes line "score mate"); [|eauto using sameRequests_refl].
  destruct (match_after "score mate " signed_digits line); simpl;
    eexists; (split; [reflexivity|repeat split]).
Qed.

Lemma parsePv_frame line e : exists e', parsePv line e = Ok e' /\ sameRequests e e'.
Proof.
  unfold parsePv.
  destruct (includes line "pv"); [|eauto using sameRequests_refl].
  destruct (match_after "pv " dot_plus line); simpl;
    eexists; (split; [reflexivity|repeat split]).
Qed.

Lemma parseDepth_frame line e : exists e', parseDepth line e = Ok e' /\ sameRequests e e'.
Proof.
  unfold parseDepth.
  destruct (includes line "depth"); [|eauto using sameRequests_refl].
  destruct (match_after "depth " digits line); simpl;
    eexists; (split; [reflexivity|repeat split]).
Qed.

Lemma notifyCallback_frame line e :
  exists e', notifyCallback line e = Ok e' /\ sameRequests e e'.
Proof.
  unfold notifyCallback.
  destruct (startsWith line "info" && includes line "depth"
            && (includes line "score cp" || includes line "score mate"));
    [|eauto using sameRequests_refl].
  destruct (analysisCallback e && has_score_or_mate (currentAnalysis e));
    eexists; (split; [reflexivity|repeat split]).
Qed.

(** The three steps after the best-move step. *)
Lemma tail_frame line e :
  exists e', (e3 <- parsePv line e ;; e4 <- parseDepth line e3 ;; notifyCallback line e4)
             = Ok e'
             /\ sameRequests e e'.
Proof.
  destruct (parsePv_frame line e) as (e3 & H3 & F3). rewrite H3. simpl.
  destruct (parseDepth_frame line e3) as (e4 & H4 & F4). rewrite H4. simpl.
  destruct (notifyCallback_frame line e4) as (e5 & H5 & F5).
  exists e5. split; [exact H5|].
  eauto using sameRequests_trans.
Qed.

(** What the best-move step does, by the outcome of the pattern. *)
Lemma parseBestMove_spec line e :
  parseBestMove line e =
  Ok match match_after "bestmove " coordinate_move line with
     | Some m =>
         match resolver_bestmove e with
         | Some request =>
             set_currentAnalysis emptyAnalysis
               (set_resolver_bestmove None
                  (set_resolved ((request, with_bestMove (currentAnalysis e) m) :: resolved e)
                     (set_currentAnalysis (with_bestMove (currentAnalysis e) m) e)))
         | None => set_currentAnalysis (with_bestMove (currentAnalysis e) m) e
         end
     | None => e
     end.
Proof.
  unfold parseBestMove.
  destruct (match_after "bestmove " coordinate_move line) as [m|] eqn:Hm.
  - rewrite (bestmove_match_includes line m Hm). simpl.
    destruct (resolver_bestmove e); reflexivity.
  - destruct (includes line "bestmove"); reflexivity.
Qed.

Lemma onReadyOk_resolved e : resolved (onReadyOk e) = resolved e.
Proof.
  destruct e as [w r rr rb cb wasm d a n res rej calls].
  unfold onReadyOk; simpl.
  destruct rr as [[c|]|]; simpl; try reflexivity.
  unfold startSearch; simpl. destruct w; simpl; [|reflexivity].
  destruct (call_multiPV c >? 1)%Z; reflexivity.
Qed.

(** C7.  The handler of engine output never throws, whatever the line.
    It leaves the promises resolved so far as they are unless the line
    contains [bestmove] followed by a well-formed coordinate move; and a
    line that does contain one resolves the pending request, with the
    analysis accumulated up to and including that line and the move it
    announces. *)
Theorem onmessage_resolves_only_on_bestmove (e : StockfishEngine) (line : string) :
  exists e',
    onmessage e line = Ok e'
    /\ (resolved e' = resolved e
        \/ exists request m acc,
             resolver_bestmove e = Some request
             /\ announcesBestMove line m
             /\ accumulated e line = Ok acc
             /\ resolved e' = (request, with_bestMove acc m) :: resolved e)
    /\ (forall m request,
           announcesBestMove line m ->
           resolver_bestmove e = Some request ->
           exists m' acc,
             announcesBestMove line m'
             /\ accumulated e line = Ok acc
             /\ resolved e' = (request, with_bestMove acc m') :: resolved e
             /\ resolver_bestmove e' = None).
Proof.
  unfold onmessage, accumulated.
  destruct (String.eqb_spec line "readyok") as [->|Hline].
  - exists (onReadyOk e). split; [reflexivity|]. split.
    + left. apply onReadyOk_resolved.
    + intros m request H _. now apply readyok_announces_nothing in H.
  - destruct (parseScore_frame line e) as (e1 & H1 & F1). rewrite H1. simpl.
    destruct (parseMate_frame line e1) as (e2 & H2 & F2). rewrite H2. simpl.
    assert (F : sameRequests e e2) by eauto using sameRequests_trans.
    rewrite parseBestMove_spec. simpl.
    destruct F as (Fres & _ & Fbest & _).
    destruct (match_after "bestmove " coordinate_move line) as [m|] eqn:Hm.
    + apply bestmove_match_sound in Hm.
      destruct (resolver_bestmove e2) as [request|] eqn:Hreq.
      * match goal with |- context [Js.bind (parsePv line ?x) _] =>
          destruct (tail_frame line x) as (e' & He' & Fres' & _ & Fbest' & _) end.
        exists e'. split; [exact He'|]. simpl in Fres', Fbest'.
        rewrite Fres in Fres'. split.
        -- right. exists request, m, (currentAnalysis e2). auto.
        -- intros m0 request0 _ Hreq0.
           assert (request0 = request) by congruence. subst request0.
           exists m, (currentAnalysis e2). auto.
      * match goal with |- context [Js.bind (parsePv line ?x) _] =>
          destruct (tail_frame line x) as (e' & He' & Fres' & _ & Fbest' & _) end.
        exists e'. split; [exact He'|]. simpl in Fres'. split.
        -- left. congruence.
        -- intros m0 request0 _ Hreq0. congruence.
    + destruct (tail_frame line e2) as (e' & He' & Fres' & _ & Fbest' & _).
      exists e'. split; [exact He'|]. split.
      * left. congruence.
      * intros m0 request0 Hm0 _.
        apply bestmove_match_complete in Hm0 as (m' & Hm'). congruence.
Qed.

(** X23.  A line with none of the tokens the handler looks for changes
    nothing at all. *)
Lemma unrecognised_line_is_ignored e line :
  line <> "readyok" ->
  includes line "score cp" = false -> includes line "score mate" = false ->
  includes line "bestmove" = false -> includes line "pv" = false ->
  includes line "depth" = false ->
  onmessage e line = Ok e.
Proof.
  intros Hready Hcp Hmate Hbest Hpv Hdepth. unfold onmessage.
  apply String.eqb_neq in Hready. rewrite Hready.
  unfold parseScore, parseMate, parseBestMove, parsePv, parseDepth, notifyCallback.
  rewrite Hcp, Hmate, Hbest, Hpv, Hdepth. cbn [Js.bind].
  now rewrite andb_false_r.
Qed.

(** A pending request and a line that announces a move: the request is
    resolved with that move. *)
Lemma onmessage_resolves_only_on_bestmove_witness :
  announcesBestMove "bestmove d1d7 ponder e8f8" "d1d7"
  /\ exists e' m' acc,
       onmessage (set_resolver_bestmove (Some 0%nat) (construct modernBrowser max))
                 "bestmove d1d7 ponder e8f8" = Ok e'
       /\ announcesBestMove "bestmove d1d7 ponder e8f8" m'
       /\ resolved e' = [(0%nat, with_bestMove acc m')].
Proof.
  assert (H : announcesBestMove "bestmove d1d7 ponder e8f8" "d1d7").
  { exists "", " ponder e8f8". split; [reflexivity|].
    exists "d"%char, "1"%char, "d"%char, "7"%char. auto 10. }
  split; [exact H|].
  destruct (onmessage_resolves_only_on_bestmove
              (set_resolver_bestmove (Some 0%nat) (construct modernBrowser max))
              "bestmove d1d7 ponder e8f8") as (e' & He' & _ & Hres).
  destruct (Hres "d1d7" 0%nat H eq_refl) as (m' & acc & Hm' & _ & Hr & _).
  exists e', m', acc. auto.
Defined.

Lemma onReadyOk_with_worker e :
  worker e <> None ->
  rejected (onReadyOk e) = rejected e /\ worker (onReadyOk e) <> None.
Proof.
  destruct e as [w r rr rb cb wasm d a n res rej calls]. simpl. intros Hw.
  destruct w as [sent|]; [|congruence].
  unfold onReadyOk; simpl.
  destruct rr as [[c|]|]; simpl; try (split; [reflexivity|discriminate]).
  unfold startSearch; simpl.
  destruct (call_multiPV c >? 1)%Z; simpl; (split; [reflexivity|discriminate]).
Qed.

(** A line that announces no move settles nothing. *)
Lemma onmessage_silent e line :
  worker e <> None ->
  match_after "bestmove " coordinate_move line = None ->
  exists e', onmessage e line = Ok e'
             /\ resolved e' = resolved e /\ rejected e' = rejected e
             /\ worker e' <> None.
Proof.
  intros Hw Hm. unfold onmessage.
  destruct (String.eqb_spec line "readyok") as [->|Hline].
  - exists (onReadyOk e). destruct (onReadyOk_with_worker e Hw).
    auto using onReadyOk_resolved.
  - destruct (parseScore_frame line e) as (e1 & H1 & F1). rewrite H1. simpl.
    destruct (parseMate_frame line e1) as (e2 & H2 & F2). rewrite H2. simpl.
    rewrite parseBestMove_spec, Hm. simpl.
    destruct (tail_frame line e2) as (e' & He' & F').
    exists e'. split; [exact He'|].
    destruct (sameRequests_trans _ _ _ (sameRequests_trans _ _ _ F1 F2) F')
      as (? & ? & _ & _ & Hwk & _).
    repeat split; auto. congruence.
Qed.

(** X22.  However long the engine goes on without announcing a move, and
    however much time passes meanwhile, the client settles no promise. *)
Lemma silence_settles_nothing events : forall e request,
  worker e <> None ->
  Forall (fun ev => match ev with
                    | Posted data => match_after "bestmove " coordinate_move data = None
                    | Elapsed _ => True
                    end) events ->
  exists e', run e events = Ok e' /\ settled e' request = settled e request.
Proof.
  induction events as [|ev events IH]; intros e request Hw Hall; cbn [run].
  - eauto.
  - inversion Hall as [|? ? Hev Hrest]; subst.
    destruct ev as [data|ms]; cbn [react].
    + destruct (onmessage_silent e data Hw Hev) as (e1 & H1 & Hres & Hrej & Hw1).
      rewrite H1. cbn [Js.bind].
      destruct (IH e1 request Hw1 Hrest) as (e' & He' & Hs).
      exists e'. split; [exact He'|].
      rewrite Hs. unfold settled. now rewrite Hres, Hrej.
    + cbn [Js.bind]. now apply IH.
Qed.

(** C5.  A client is asked to evaluate a position; the engine goes on
    searching without ever announcing a move while ten seconds, and then
    an hour, go by.  Every line is handled, and the promise of
    [evaluatePosition] is neither resolved nor rejected: its resolver is
    still waiting, and no timeout error has been produced. *)
Theorem evaluatePosition_never_times_out :
  exists e',
    run (fst askedEngine) searchingForEver = Ok e'
    /\ settled e' (snd askedEngine) = Never
    /\ resolver_bestmove e' = Some (snd askedEngine)
    /\ rejected e' = [].
Proof.
  eexists. split; [vm_compute; reflexivity|].
  repeat split.
Qed.

(** The same client, once the engine announces a move. *)
Lemma evaluatePosition_resolves_on_bestmove :
  exists e' analysis,
    run (fst askedEngine) searchingAndFinding = Ok e'
    /\ settled e' (snd askedEngine) = Resolved analysis
    /\ bestMove analysis = Value "d1d7"
    /\ score analysis = Some (912 # 100).
Proof.
  eexists. eexists. split; [vm_compute; reflexivity|].
  repeat split.
Qed.

(** The server route does race its engine against the clock: an engine
    process that has not settled before [ANALYSIS_TIMEOUT] loses. *)
Lemma route_race_times_out (p : Route.Settling) :
  match p with
  | Some (t, _) => (ANALYSIS_TIMEOUT <= t)%Z
  | None => True
  end ->
  Route.raceWithTimeout p = Throw "Analysis timeout".
Proof.
  destruct p as [[t r]|]; simpl; [|reflexivity].
  intros H. destruct (Z.ltb_spec t ANALYSIS_TIMEOUT); [lia|reflexivity].
Qed.

End EngineClientFacts.

(** ** The evaluation model: [calculateWinChances] *)

Module WinChanceFacts.
Import Constants ChessUtils.
Local Open Scope R_scope.

Lemma Math_round_bounds x : x - / 2 < IZR (Math_round x) <= x + / 2.
Proof.
  unfold Math_round. destruct (base_Int_part (x + / 2)) as [Hle Hgt]. lra.
Qed.

Lemma Math_round_nonneg x : 0 <= x -> (0 <= Math_round x)%Z.
Proof.
  intros Hx. destruct (Math_round_bounds x) as [Hlo _].
  assert (H : IZR (-1) < IZR (Math_round x)) by (simpl; lra).
  apply lt_IZR in H. lia.
Qed.

(** Three roundings move a sum of 100 by less than two. *)
Lemma rounded_sum a b d :
  a + b + d = 100 ->
  (99 <= Math_round a + Math_round b + Math_round d <= 101)%Z.
Proof.
  intros Hsum.
  destruct (Math_round_bounds a) as [Ha Ha'], (Math_round_bounds b) as [Hb Hb'],
           (Math_round_bounds d) as [Hd Hd'].
  split.
  - assert (H : IZR 98 < IZR (Math_round a + Math_round b + Math_round d))
      by (rewrite !plus_IZR; lra).
    apply lt_IZR in H. lia.
  - assert (H : IZR (Math_round a + Math_round b + Math_round d) < IZR 102)
      by (rewrite !plus_IZR; lra).
    apply lt_IZR in H. lia.
Qed.

Lemma exp_le_3_below_1 x : x <= 1 -> exp x <= 3.
Proof.
  intros [Hlt| ->]; [|exact exp_le_3].
  apply Rlt_le, Rlt_le_trans with (exp 1); [now apply exp_increasing|exact exp_le_3].
Qed.

Lemma exp_le_1_below_0 x : x <= 0 -> exp x <= 1.
Proof.
  intros [Hlt| ->]; [|rewrite exp_0; lra].
  rewrite <- exp_0. now apply Rlt_le, exp_increasing.
Qed.

(** The draw share never exceeds either side's share of the logistic
    curve: both win probabilities are non-negative before clamping. *)
Lemma draw_share_fits c :
  let E := exp (- (4 / 1000) * c) in
  let u := exp (- (c / 350) ^ 2) in
  0 < u <= 1 /\ 15 * u * (1 + E) <= 100 /\ 15 * u * (1 + E) <= 100 * E.
Proof.
  intros E u.
  assert (HE : 0 < E) by apply exp_pos.
  assert (Hu : 0 < u) by apply exp_pos.
  assert (Hu1 : u <= 1) by (apply exp_le_1_below_0; nra).
  assert (HuE : u * E <= 3).
  { unfold u, E. rewrite <- exp_plus. apply exp_le_3_below_1. nra. }
  assert (HuE' : u <= 3 * E).
  { assert (H : u * exp ((4 / 1000) * c) <= 3).
    { unfold u. rewrite <- exp_plus. apply exp_le_3_below_1. nra. }
    assert (HEE : exp ((4 / 1000) * c) * E = 1).
    { unfold E. rewrite <- exp_plus.
      replace (4 / 1000 * c + - (4 / 1000) * c) with 0 by lra. apply exp_0. }
    assert (0 < exp ((4 / 1000) * c)) by apply exp_pos.
    nra. }
  split; [lra|]. split; nra.
Qed.

(** C8.  Without a forced mate, the three win chances computed for an
    evaluation are non-negative integers and add up to 100, up to the
    +-1 that rounding each of them can cause. *)
Theorem calculateWinChances_sums_to_100 (evaluation : R) :
  let wc := calculateWinChances evaluation None in
  (0 <= white wc)%Z /\ (0 <= black wc)%Z /\ (0 <= draw wc)%Z
  /\ (99 <= white wc + black wc + draw wc <= 101)%Z.
Proof.
  unfold calculateWinChances.
  destruct (Rlt_dec (IZR MATE_THRESHOLD) (Rabs evaluation)) as [Hbig|Hsmall].
  - destruct (Rlt_dec 0 evaluation); simpl; lia.
  - cbv zeta.
    unfold SIGMOID_FACTOR_num, SIGMOID_FACTOR_den, MAX_DRAW_PROB, DRAW_THRESHOLD.
    destruct (draw_share_fits evaluation) as ((Hu & Hu1) & Hw & Hb).
    set (E := exp (- (4 / 1000) * evaluation)) in *.
    set (u := exp (- (evaluation / 350) ^ 2)) in *.
    assert (HE : 0 < E) by apply exp_pos.
    set (w := 50 + 50 * (2 / (1 + E) - 1)).
    assert (Hwq : w * (1 + E) = 100) by (unfold w; field; lra).
    set (d := Rmax 0 (Rmin 30 (30 * u))).
    assert (Hd : d = 30 * u).
    { unfold d. rewrite Rmin_right by lra. apply Rmax_right. lra. }
    assert (Hwd : 0 <= (w - d / 2) / 100) by (rewrite Hd; nra).
    assert (Hbd : 0 <= (100 - w - d / 2) / 100) by (rewrite Hd; nra).
    destruct (Rle_dec 0 evaluation); simpl white; simpl black; simpl draw;
      rewrite (Rmax_right 0 _ Hwd), (Rmax_right 0 _ Hbd);
      (repeat split;
       [apply Math_round_nonneg; lra
       |apply Math_round_nonneg; lra
       |apply Math_round_nonneg; rewrite Hd; lra
       |apply rounded_sum; lra
       |apply rounded_sum; lra]).
Qed.

End WinChanceFacts.

(** ** The generator *)

Module GeneratorFacts.
Import Js Constants ChessJs ChessUtils Stockfish PositionAnalyzer PositionGenerator.
Import Notions Scenario.

(** *** Squares *)

Lemma nodupb_sound l : nodupb l = true -> NoDup l.
Proof.
  induction l as [|x l IH]; simpl; intros H; constructor.
  - apply andb_true_iff in H as [H _]. apply negb_true_iff in H.
    intros Hin. assert (existsb (String.eqb x) l = true); [|congruence].
    apply existsb_exists. exists x. split; [exact Hin|apply String.eqb_refl].
  - apply IH. now apply andb_true_iff in H as [_ H].
Qed.

Lemma allSquares_NoDup : NoDup allSquares.
Proof. apply nodupb_sound. vm_compute. reflexivity. Qed.

Lemma file_rank_in_allSquares file rank :
  In file FILES -> In rank RANKS -> In (file ++ rank) allSquares.
Proof.
  intros Hf Hr. unfold allSquares. apply in_flat_map. exists rank. split; [exact Hr|].
  apply in_map_iff. exists file. auto.
Qed.

Lemma getRandomElement_in {T} (arr : list T) d g :
  arr <> [] -> In (fst (getRandomElement arr d g)) arr.
Proof.
  intros Hne. unfold getRandomElement, next_index. simpl.
  apply nth_In. apply Nat.mod_upper_bound. destruct arr; [congruence|discriminate].
Qed.

Lemma getRandomSquare_in allowedRanks g :
  ranksOk allowedRanks -> In (fst (getRandomSquare allowedRanks g)) allSquares.
Proof.
  intros [Hne Hlt]. unfold getRandomSquare.
  pose proof (getRandomElement_in FILES "undefined" g) as Hfile.
  destruct (getRandomElement FILES "undefined" g) as [file g1]. simpl in Hfile.
  pose proof (getRandomElement_in
                (map (fun r => nth r RANKS "undefined") allowedRanks) "undefined" g1)
    as Hrank.
  destruct (getRandomElement (map _ allowedRanks) "undefined" g1) as [rank g2].
  simpl in *. apply file_rank_in_allSquares.
  - apply Hfile. discriminate.
  - assert (Hin : In rank (map (fun r => nth r RANKS "undefined") allowedRanks)).
    { apply Hrank. destruct allowedRanks; [congruence|discriminate]. }
    apply in_map_iff in Hin as (r & <- & Hr).
    rewrite Forall_forall in Hlt. apply nth_In. simpl. now apply Hlt.
Qed.

(** *** Placement *)

Lemma placeOne_placed allowedRanks piece : forall left chess g chess' g',
  ranksOk allowedRanks ->
  placeOne chess piece allowedRanks left g = (true, chess', g') ->
  exists s, In s allSquares /\ get chess s = None /\ chess' = put chess piece s.
Proof.
  induction left as [|left IH]; intros chess g chess' g' Hok H; cbn [placeOne] in H;
    [discriminate|].
  pose proof (getRandomSquare_in allowedRanks g Hok) as Hin.
  destruct (getRandomSquare allowedRanks g) as [square g1]. cbn [fst] in Hin.
  destruct (get chess square) eqn:Hget.
  - eapply IH; eauto.
  - inversion H; subst. eauto.
Qed.

Lemma placeAll_placed allowedRanks : forall pieces chess g chess' g',
  ranksOk allowedRanks ->
  placeAll chess pieces allowedRanks g = (true, chess', g') ->
  placedOn chess pieces chess'.
Proof.
  induction pieces as [|piece pieces IH]; intros chess g chess' g' Hok H;
    cbn [placeAll] in H.
  - inversion H; subst. constructor.
  - destruct (placeOne chess piece allowedRanks 100 g) as [[[|] chess1] g1] eqn:H1;
      [|discriminate].
    destruct (placeOne_placed _ _ _ _ _ _ _ Hok H1) as (s & Hin & Hget & ->).
    econstructor; eauto.
Qed.

Lemma placedOn_app c l c' l' c'' :
  placedOn c l c' -> placedOn c' l' c'' -> placedOn c (l ++ l') c''.
Proof.
  induction 1; simpl; intros; [assumption|]. econstructor; eauto.
Qed.

Lemma placePieces_true R chess pieceOrList count allowedRanks options g chess' g' :
  ranksOk allowedRanks ->
  placePieces R chess pieceOrList count allowedRanks options g = (Ok true, chess', g') ->
  placedOn chess (match pieceOrList with
                  | PieceList l => l
                  | OnePiece x => repeat x count
                  end) chess'
  /\ (forall o, options = Some o -> earlyChecks R chess' o = Ok true).
Proof.
  intros Hok. unfold placePieces.
  destruct (placeAll chess _ allowedRanks g) as [[[|] chess1] g1] eqn:Hall.
  - apply placeAll_placed in Hall; [|exact Hok].
    destruct options as [o|]; intros H.
    + injection H as Hchecks <- <-.
      split; [exact Hall|]. intros o' Ho'. injection Ho' as <-. exact Hchecks.
    + injection H as <- <-. split; [exact Hall|]. discriminate.
  - discriminate.
Qed.

Lemma ranks_ok :
  ranksOk [1; 2; 3]%nat /\ ranksOk [4; 5; 6]%nat /\ ranksOk [0; 1; 2; 3]%nat
  /\ ranksOk [4; 5; 6; 7]%nat /\ ranksOk [0; 1; 2]%nat /\ ranksOk [5; 6; 7]%nat.
Proof.
  unfold ranksOk. repeat split; try discriminate; repeat constructor.
Qed.

Lemma areKingsAdjacent_refl s : areKingsAdjacent s s = true.
Proof.
  unfold areKingsAdjacent. rewrite !Z.sub_diag. reflexivity.
Qed.

Lemma placeKings_spec : forall fuel g wk bk g',
  placeKings fuel g = (Some (wk, bk), g') ->
  In wk allSquares /\ In bk allSquares /\ areKingsAdjacent wk bk = false.
Proof.
  induction fuel as [|fuel IH]; intros g wk bk g' H; cbn [placeKings] in H;
    [discriminate|].
  destruct ranks_ok as (_ & _ & _ & _ & Hw & Hb).
  pose proof (getRandomSquare_in _ g Hw) as Hwin.
  destruct (getRandomSquare [0; 1; 2]%nat g) as [w g1].
  pose proof (getRandomSquare_in _ g1 Hb) as Hbin.
  destruct (getRandomSquare [5; 6; 7]%nat g1) as [b g2]. cbn [fst] in *.
  destruct (areKingsAdjacent w b) eqn:Hadj.
  - eapply IH; eauto.
  - inversion H; subst. auto.
Qed.

Lemma getRandomSquare_zone allowedRanks g :
  allowedRanks <> [] -> In (fst (getRandomSquare allowedRanks g)) (zoneSquares allowedRanks).
Proof.
  intros Hne. unfold getRandomSquare.
  pose proof (getRandomElement_in FILES "undefined" g) as Hfile.
  destruct (getRandomElement FILES "undefined" g) as [file g1]. cbn [fst] in Hfile.
  pose proof (getRandomElement_in
                (map (fun r => nth r RANKS "undefined") allowedRanks) "undefined" g1)
    as Hrank.
  destruct (getRandomElement (map _ allowedRanks) "undefined" g1) as [rank g2].
  cbn [fst] in *.
  assert (Hin : In rank (map (fun r => nth r RANKS "undefined") allowedRanks)).
  { apply Hrank. destruct allowedRanks; [congruence|discriminate]. }
  apply in_map_iff in Hin as (r & <- & Hr).
  unfold zoneSquares. apply in_flat_map. exists r. split; [exact Hr|].
  apply in_map_iff. exists file. split; [reflexivity|]. apply Hfile. discriminate.
Qed.

Lemma king_zones_apart w b :
  In w (zoneSquares [0; 1; 2]%nat) -> In b (zoneSquares [5; 6; 7]%nat) ->
  areKingsAdjacent w b = false.
Proof.
  assert (H : forallb (fun w => forallb (fun b => negb (areKingsAdjacent w b))
                                        (zoneSquares [5; 6; 7]%nat))
                      (zoneSquares [0; 1; 2]%nat) = true) by (vm_compute; reflexivity).
  intros Hw Hb. rewrite forallb_forall in H. specialize (H w Hw).
  rewrite forallb_forall in H. specialize (H b Hb). now apply negb_true_iff in H.
Qed.

(** The king loop ends at its first round: the two zones are three
    ranks apart. *)
Lemma placeKings_first_round g :
  exists wk bk g', placeKings 1 g = (Some (wk, bk), g').
Proof.
  cbn [placeKings].
  pose proof (getRandomSquare_zone [0; 1; 2]%nat g) as Hw.
  destruct (getRandomSquare [0; 1; 2]%nat g) as [w g1].
  pose proof (getRandomSquare_zone [5; 6; 7]%nat g1) as Hb.
  destruct (getRandomSquare [5; 6; 7]%nat g1) as [b g2]. cbn [fst] in *.
  rewrite (king_zones_apart w b (Hw ltac:(discriminate)) (Hb ltac:(discriminate))).
  eauto.
Qed.

(** *** One round, taken apart *)

Lemma put_never_adjacent_square wk bk :
  areKingsAdjacent wk bk = false -> get (put cleared (mk King White) wk) bk = None.
Proof.
  intros Hadj. unfold get, put; simpl.
  destruct (String.eqb_spec bk wk) as [->|]; [|reflexivity].
  now rewrite areKingsAdjacent_refl in Hadj.
Qed.

Lemma buildCandidate_ok R o wk bk g cand g' :
  In wk allSquares -> In bk allSquares -> areKingsAdjacent wk bk = false ->
  buildCandidate R o wk bk g = (Ok (Some cand), g') ->
  exists chess,
    placedOn (put (put cleared (mk King White) wk) (mk King Black) bk)
             (repeat (mk Pawn White) 8 ++ repeat (mk Pawn Black) 8
              ++ whitePieces ++ blackPieces)%list chess
    /\ earlyChecks R chess o = Ok true
    /\ cand = clearCastlingAndEnPassant (setSide (fen chess) White).
Proof.
  intros Hwk Hbk Hadj. unfold buildCandidate.
  destruct ranks_ok as (H123 & H456 & H0123 & H4567 & _).
  destruct (placePieces R _ (OnePiece (mk Pawn White)) 8 _ None g)
    as [[[[|]|] c1] g1] eqn:E1; cbv beta iota; try (intros H; discriminate H).
  destruct (placePieces R c1 (OnePiece (mk Pawn Black)) 8 _ None g1)
    as [[[[|]|] c2] g2] eqn:E2; cbv beta iota; try (intros H; discriminate H).
  destruct (placePieces R c2 (PieceList whitePieces) _ _ (Some o) g2)
    as [[[[|]|] c3] g3] eqn:E3; cbv beta iota; try (intros H; discriminate H).
  destruct (placePieces R c3 (PieceList blackPieces) _ _ (Some o) g3)
    as [[[[|]|] c4] g4] eqn:E4; cbv beta iota; try (intros H; discriminate H).
  apply placePieces_true in E1 as [P1 _]; [|assumption].
  apply placePieces_true in E2 as [P2 _]; [|assumption].
  apply placePieces_true in E3 as [P3 _]; [|assumption].
  apply placePieces_true in E4 as [P4 C4]; [|assumption].
  unfold safeChessMutate, load, newChess, fen.
  destruct (validateFen R (position c4)); cbn [Js.bind position];
    [|intros H; discriminate H].
  destruct (validateFen R (clearCastlingAndEnPassant (setSide (position c4) White)));
    cbn [Js.bind position]; intros H; [|discriminate H].
  injection H as <- <-.
  exists c4. split; [|split; [now apply C4|reflexivity]].
  eauto using placedOn_app.
Qed.

Lemma buildInfo_verdict R chess f analysis info :
  buildInfo R chess f analysis = Ok info ->
  isFair info = fairVerdict (evaluation info) (forcedMate info).
Proof.
  unfold buildInfo.
  destruct (calculateLegalMovesCount R chess); cbn [Js.bind]; [|discriminate].
  destruct (safeChessMutate R chess _); cbn [Js.bind]; [|discriminate].
  destruct (isThreefoldRepetition R chess); cbn [Js.bind]; [|discriminate].
  intros H. injection H as <-. reflexivity.
Qed.

(** What [refreshPositionAnalysis] calls fair: no forced mate and an
    evaluation within [SLIGHT_ADVANTAGE]. *)
Lemma refresh_fair R evaluate chess depth info :
  refreshPositionAnalysis R evaluate chess depth = Resolved info ->
  isFair info = true ->
  forcedMate info = None /\ Qabs (evaluation info) <= inject_Z SLIGHT_ADVANTAGE.
Proof.
  intros Hres Hfair.
  destruct (AnalyzerFacts.refresh_cases R evaluate chess depth)
    as [E|[E|(f & a & info' & _ & _ & Hinfo & E)]];
    rewrite E in Hres; try discriminate; injection Hres as <-.
  - discriminate Hfair.
  - rewrite (buildInfo_verdict _ _ _ _ _ Hinfo) in Hfair. unfold fairVerdict in Hfair.
    destruct (forcedMate info'); [discriminate|].
    split; [reflexivity|]. now apply Qle_bool_iff.
Qed.

Lemma judge_accepted R B o cand f i :
  judge R B o cand = Accepted f i ->
  f = setSide cand (if Qle_bool (evaluation i) 0 then White else Black)
  /\ isLegal i = true /\ isFair i = true /\ forcedMate i = None
  /\ Qabs (evaluation i) <= inject_Z SLIGHT_ADVANTAGE.
Proof.
  unfold judge.
  destruct (newChess R cand) as [chess|]; [|discriminate].
  destruct (refreshPositionAnalysis R _ chess (stockfishDepth o)) as [analysis| |] eqn:E;
    try discriminate.
  destruct (forcedMate analysis) eqn:Hmate; [discriminate|].
  destruct (isFair analysis) eqn:Hfair; [|discriminate].
  intros H. injection H as <- <-. cbn [evaluation isLegal isFair forcedMate].
  repeat split. now apply (refresh_fair _ _ _ _ _ E).
Qed.

Lemma generateLoop_inversion R world o kingFuel : forall rounds attempts g f i,
  generateLoop R world o kingFuel rounds attempts g = Resolved (f, i) ->
  exists wk bk chess,
    In wk allSquares /\ In bk allSquares /\ areKingsAdjacent wk bk = false
    /\ placedOn (put (put cleared (mk King White) wk) (mk King Black) bk)
                (repeat (mk Pawn White) 8 ++ repeat (mk Pawn Black) 8
                 ++ whitePieces ++ blackPieces)%list chess
    /\ earlyChecks R chess o = Ok true
    /\ f = setSide (clearCastlingAndEnPassant (setSide (fen chess) White))
                   (if Qle_bool (evaluation i) 0 then White else Black)
    /\ isLegal i = true /\ isFair i = true /\ forcedMate i = None
    /\ Qabs (evaluation i) <= inject_Z SLIGHT_ADVANTAGE.
Proof.
  induction rounds as [|rounds IH]; intros attempts g f i H; cbn [generateLoop] in H;
    [discriminate|].
  destruct (round R (world (S attempts)) o kingFuel g)
    as [[f' i'| |] g'] eqn:Hround; [|eauto|discriminate].
  injection H as <- <-. clear IH.
  unfold round in Hround.
  destruct (placeKings kingFuel g) as [[[wk bk]|] g1] eqn:Hkings; [|discriminate].
  apply placeKings_spec in Hkings as (Hwk & Hbk & Hadj).
  destruct (buildCandidate R o wk bk g1) as [[[cand|]|] g2] eqn:Hcand;
    try discriminate.
  injection Hround as Hjudge _.
  apply buildCandidate_ok in Hcand as (chess & Hplaced & Hchecks & ->); try assumption.
  apply judge_accepted in Hjudge as (-> & Hrest).
  exists wk, bk, chess. auto 10.
Qed.

(** Every accepted position comes from a round that put the thirty-two
    pieces on empty squares, passed the enabled checks on that board,
    and was judged fair by the analysis. *)
Lemma accepted_inversion R world options kingFuel rounds g f i :
  generateRandomPosition R world options kingFuel rounds g = Resolved (f, i) ->
  exists wk bk chess,
    In wk allSquares /\ In bk allSquares /\ areKingsAdjacent wk bk = false
    /\ placedOn (put (put cleared (mk King White) wk) (mk King Black) bk)
                (repeat (mk Pawn White) 8 ++ repeat (mk Pawn Black) 8
                 ++ whitePieces ++ blackPieces)%list chess
    /\ earlyChecks R chess (mergeOptions options) = Ok true
    /\ f = setSide (clearCastlingAndEnPassant (setSide (fen chess) White))
                   (if Qle_bool (evaluation i) 0 then White else Black)
    /\ isLegal i = true /\ isFair i = true /\ forcedMate i = None
    /\ Qabs (evaluation i) <= inject_Z SLIGHT_ADVANTAGE.
Proof.
  apply generateLoop_inversion.
Qed.

(** X4.  Whatever the options say, an accepted position has no forced mate
    and an evaluation within the fixed [SLIGHT_ADVANTAGE] of 50
    centipawns. *)
Lemma accepted_within_slight_advantage R world options kingFuel rounds g f i :
  generateRandomPosition R world options kingFuel rounds g = Resolved (f, i) ->
  forcedMate i = None /\ Qabs (evaluation i) <= 50.
Proof.
  intros H. apply accepted_inversion in H as (wk & bk & chess & H). tauto.
Qed.



(** *** The evaluation range of the options *)

Lemma earlyChecks_ext R chess o o' :
  sameChecks o o' -> earlyChecks R chess o = earlyChecks R chess o'.
Proof.
  intros (_ & Hk & Hb & Hs). unfold earlyChecks. now rewrite Hk, Hb, Hs.
Qed.

Lemma placePieces_ext R chess pieceOrList count allowedRanks o o' g :
  sameChecks o o' ->
  placePieces R chess pieceOrList count allowedRanks (Some o) g
  = placePieces R chess pieceOrList count allowedRanks (Some o') g.
Proof.
  intros H. unfold placePieces.
  destruct (placeAll chess _ allowedRanks g) as [[[|] c] g']; [|reflexivity].
  now rewrite (earlyChecks_ext R c o o' H).
Qed.

Lemma buildCandidate_ext R o o' wk bk g :
  sameChecks o o' -> buildCandidate R o wk bk g = buildCandidate R o' wk bk g.
Proof.
  intros H. unfold buildCandidate.
  destruct (placePieces R _ (OnePiece (mk Pawn White)) 8 _ None g)
    as [[[[|]|] c1] g1]; try reflexivity.
  destruct (placePieces R c1 (OnePiece (mk Pawn Black)) 8 _ None g1)
    as [[[[|]|] c2] g2]; try reflexivity.
  rewrite (placePieces_ext R c2 _ _ _ o o' g2 H).
  destruct (placePieces R c2 (PieceList whitePieces) _ _ (Some o') g2)
    as [[[[|]|] c3] g3]; try reflexivity.
  now rewrite (placePieces_ext R c3 _ _ _ o o' g3 H).
Qed.

Lemma generateLoop_ext R world o o' kingFuel :
  sameChecks o o' ->
  forall rounds attempts g,
    generateLoop R world o kingFuel rounds attempts g
    = generateLoop R world o' kingFuel rounds attempts g.
Proof.
  intros H. induction rounds as [|rounds IH]; intros attempts g; cbn [generateLoop];
    [reflexivity|].
  assert (Hround : round R (world (S attempts)) o kingFuel g
                   = round R (world (S attempts)) o' kingFuel g).
  { unfold round. destruct (placeKings kingFuel g) as [[[wk bk]|] g1]; [|reflexivity].
    rewrite (buildCandidate_ext R o o' wk bk g1 H).
    destruct (buildCandidate R o' wk bk g1) as [[[f|]|] g2]; try reflexivity.
    unfold judge. destruct H as (-> & _). reflexivity. }
  rewrite Hround.
  destruct (round R (world (S attempts)) o' kingFuel g) as [[f i| |] g']; auto.
Qed.

(** X5.  The generator does the same whatever [maxEvaluation] is and whether
    or not [evaluationWithinRange] is enabled. *)
Lemma evaluation_range_is_ignored R world options bound enabled kingFuel rounds g :
  generateRandomPosition R world (withEvaluationRange options bound enabled)
                         kingFuel rounds g
  = generateRandomPosition R world options kingFuel rounds g.
Proof.
  unfold generateRandomPosition. apply generateLoop_ext.
  destruct options as [m d [[k b s r]|]]; repeat split.
Qed.

(** C1.  The caller asks for at most 25 centipawns with the
    [evaluationWithinRange] check enabled; the engine reports +40 and no
    mate; the first candidate is returned, with an evaluation of 40. *)
Theorem maxEvaluation_is_not_consulted :
  evaluationWithinRange (fairnessChecks (mergeOptions strictOptions)) = true
  /\ maxEvaluation (mergeOptions strictOptions) == 25
  /\ exists f i,
       generateRandomPosition quietRules (fun _ => engineReporting 40) strictOptions 1 1
                              standardRng = Resolved (f, i)
       /\ evaluation i == 40
       /\ forcedMate i = None
       /\ ~ Qabs (evaluation i) <= maxEvaluation (mergeOptions strictOptions).
Proof.
  split; [reflexivity|]. split; [reflexivity|].
  assert (H : match generateRandomPosition quietRules (fun _ => engineReporting 40)
                                           strictOptions 1 1 standardRng with
              | Resolved (f, i) =>
                  Qeq_bool (evaluation i) 40
                  && match forcedMate i with None => true | Some _ => false end
                  && negb (Qle_bool (Qabs (evaluation i))
                                    (maxEvaluation (mergeOptions strictOptions)))
              | _ => false
              end = true) by (vm_compute; reflexivity).
  destruct (generateRandomPosition quietRules (fun _ => engineReporting 40)
                                   strictOptions 1 1 standardRng)
    as [[f i]| |]; try discriminate H.
  apply andb_true_iff in H as [H Hover]. apply andb_true_iff in H as [Heq Hmate].
  exists f, i. split; [reflexivity|]. split; [now apply Qeq_bool_iff|].
  split; [destruct (forcedMate i); [discriminate|reflexivity]|].
  intros Hle. apply Qle_bool_iff in Hle. rewrite Hle in Hover. discriminate.
Qed.

(** *** Counting the pieces *)

Lemma Piece_eqb_eq x y : Piece_eqb x y = true <-> x = y.
Proof.
  destruct x as [[] []], y as [[] []]; split; intros H;
    try reflexivity; try discriminate H.
Qed.

Lemma filter_length_update (l : list Square) (P P' : Square -> bool) (s : Square) :
  NoDup l -> In s l -> P s = false ->
  (forall s', s' <> s -> P' s' = P s') ->
  List.length (filter P' l)
  = (List.length (filter P l) + if P' s then 1 else 0)%nat.
Proof.
  intros Hnd Hin Hs Hother.
  induction l as [|a l IH]; [contradiction|].
  inversion Hnd as [|? ? Hnotin Hnd']; subst. cbn [filter].
  destruct (string_dec a s) as [->|Hne].
  - rewrite Hs.
    assert (Hsame : filter P' l = filter P l).
    { apply filter_ext_in. intros s' Hs'. apply Hother. congruence. }
    rewrite Hsame. destruct (P' s); cbn [List.length]; lia.
  - rewrite (Hother a Hne).
    destruct Hin as [->|Hin]; [congruence|].
    specialize (IH Hnd' Hin). destruct (P a); cbn [List.length]; lia.
Qed.

Lemma countPieces_put c y s x :
  In s allSquares -> get c s = None ->
  countPieces (position (put c y s)) x
  = (countPieces (position c) x + if Piece_eqb y x then 1 else 0)%nat.
Proof.
  intros Hin Hget. unfold countPieces.
  rewrite (filter_length_update allSquares (holds (position c) x)
             (holds (position (put c y s)) x) s allSquares_NoDup Hin).
  - unfold holds, put. cbn [position placement]. now rewrite String.eqb_refl.
  - unfold holds. unfold get in Hget. now rewrite Hget.
  - intros s' Hne. unfold holds, put. cbn [position placement].
    apply String.eqb_neq in Hne. now rewrite Hne.
Qed.

Lemma placedOn_count c l c' :
  placedOn c l c' ->
  forall x, countPieces (position c') x
            = (countPieces (position c) x
               + List.length (filter (fun y => Piece_eqb y x) l))%nat.
Proof.
  induction 1 as [c|c y s l c' Hin Hget Hrest IH]; intros x; cbn [filter].
  - cbn [List.length]. lia.
  - rewrite IH, countPieces_put by assumption.
    destruct (Piece_eqb y x); cbn [List.length]; lia.
Qed.

(** The fields of the FEN besides the placement are those of the
    cleared board. *)
Lemma placedOn_fields c l c' :
  placedOn c l c' ->
  sideToMove (position c') = sideToMove (position c)
  /\ castlingField (position c') = castlingField (position c)
  /\ enPassantField (position c') = enPassantField (position c)
  /\ halfmoveField (position c') = halfmoveField (position c)
  /\ fullmoveField (position c') = fullmoveField (position c).
Proof.
  induction 1; [repeat split|assumption].
Qed.

Lemma placedOn_kings c l c' :
  placedOn c l c' -> Forall (fun y => type y <> King) l ->
  forall s k, type k = King -> get c' s = Some k -> get c s = Some k.
Proof.
  induction 1 as [c|c y s0 l c' Hin Hget Hrest IH]; intros Hall s k Hk Hs;
    [assumption|].
  inversion Hall as [|? ? Hy Hl]; subst.
  specialize (IH Hl s k Hk Hs). unfold get, put in IH. cbn [position placement] in IH.
  destruct (String.eqb s s0); [|exact IH].
  injection IH as ->. contradiction.
Qed.

(** Pieces stand on the sixty-four squares only. *)
Lemma placedOn_support c l c' :
  placedOn c l c' ->
  forall s, get c' s <> None -> get c s <> None \/ In s allSquares.
Proof.
  induction 1 as [c|c y s0 l c' Hin Hget Hrest IH]; intros s Hs; [now left|].
  destruct (IH s Hs) as [H|H]; [|now right].
  unfold get, put in H. cbn [position placement] in H.
  destruct (String.eqb_spec s s0) as [->|]; [now right|now left].
Qed.

Lemma adjacency_is_chebyshev s1 s2 :
  In s1 allSquares -> In s2 allSquares ->
  areKingsAdjacent s1 s2 = (chebyshev s1 s2 <=? 1)%Z.
Proof.
  assert (H : forallb (fun s1 => forallb (fun s2 =>
                Bool.eqb (areKingsAdjacent s1 s2) (chebyshev s1 s2 <=? 1)%Z)
                allSquares) allSquares = true) by (vm_compute; reflexivity).
  intros H1 H2. rewrite forallb_forall in H. specialize (H s1 H1).
  rewrite forallb_forall in H. now apply Bool.eqb_prop, H.
Qed.

Lemma isKingInCheck_false R chess c :
  isKingInCheck R chess c = false ->
  inCheckOnOwnTurn R (fen chess) (swapColor c) = Ok false.
Proof.
  unfold isKingInCheck, inCheckOnOwnTurn, safeChessMutate, load, newChess, fen.
  destruct (validateFen R (position chess)); cbn [Js.bind position]; [|discriminate].
  destruct (validateFen R (setSide (position chess) (swapColor c)));
    cbn [Js.bind]; [|discriminate].
  destruct (inCheck R _) as [[|]|]; intros H; try discriminate H. reflexivity.
Qed.

Lemma earlyChecks_no_check R chess o :
  earlyChecks R chess o = Ok true ->
  kingsNotInCheck (fairnessChecks o) = true ->
  forall c, inCheckOnOwnTurn R (fen chess) c = Ok false.
Proof.
  unfold earlyChecks. intros H Hk. rewrite Hk in H.
  destruct (isKingInCheck R chess White) eqn:Hw; [discriminate H|].
  destruct (isKingInCheck R chess Black) eqn:Hb; [discriminate H|].
  intros [|].
  - exact (isKingInCheck_false R chess Black Hb).
  - exact (isKingInCheck_false R chess White Hw).
Qed.

Lemma non_kings :
  Forall (fun y => type y <> King)
         (repeat (mk Pawn White) 8 ++ repeat (mk Pawn Black) 8
          ++ whitePieces ++ blackPieces)%list.
Proof.
  cbn. repeat constructor; discriminate.
Qed.

(** C3.  Every position returned carries, for each side, one king,
    eight pawns, one queen, two rooks, two bishops and two knights,
    sixteen pieces in all; the two kings are more than one square apart
    in Chebyshev distance; when the kings-not-in-check check is enabled,
    neither side is in check when it has the move; and no piece stands
    anywhere but on the sixty-four squares counted. *)
Theorem accepted_position_is_complete R world options kingFuel rounds g f i :
  generateRandomPosition R world options kingFuel rounds g = Resolved (f, i) ->
  (forall c,
      countPieces f (mk King c) = 1%nat /\ countPieces f (mk Pawn c) = 8%nat
      /\ countPieces f (mk Queen c) = 1%nat /\ countPieces f (mk Rook c) = 2%nat
      /\ countPieces f (mk Bishop c) = 2%nat /\ countPieces f (mk Knight c) = 2%nat
      /\ countSide f c = 16%nat)
  /\ (forall s1 s2,
         placement f s1 = Some (mk King White) ->
         placement f s2 = Some (mk King Black) ->
         (1 < chebyshev s1 s2)%Z)
  /\ (kingsNotInCheck (fairnessChecks (mergeOptions options)) = true ->
      forall c, inCheckOnOwnTurn R f c = Ok false)
  /\ (forall s, placement f s <> None -> In s allSquares).
Proof.
  intros H. apply accepted_inversion in H
    as (wk & bk & chess & Hwk & Hbk & Hadj & Hplaced & Hchecks & -> & _).
  assert (Hcount : forall x,
             countPieces (position chess) x
             = List.length (filter (fun y => Piece_eqb y x) allPieces)).
  { intros x. rewrite (placedOn_count _ _ _ Hplaced).
    rewrite !countPieces_put by (auto using put_never_adjacent_square).
    unfold allPieces. cbn [filter].
    destruct (Piece_eqb (mk King White) x), (Piece_eqb (mk King Black) x);
      cbn [List.length]; reflexivity. }
  split; [|split; [|split]].
  - assert (Hc : forall x,
               countPieces (setSide (clearCastlingAndEnPassant (setSide (fen chess) White))
                                    (if Qle_bool (evaluation i) 0 then White else Black)) x
               = List.length (filter (fun y => Piece_eqb y x) allPieces))
      by (intros x; rewrite <- Hcount; reflexivity).
    intros c. unfold countSide. rewrite !Hc. destruct c; repeat split.
  - cbn [setSide clearCastlingAndEnPassant placement fen]. intros s1 s2 H1 H2.
    apply (placedOn_kings _ _ _ Hplaced non_kings s1 (mk King White) eq_refl) in H1.
    apply (placedOn_kings _ _ _ Hplaced non_kings s2 (mk King Black) eq_refl) in H2.
    unfold get, put in H1, H2. cbn [position placement cleared emptyBoard] in H1, H2.
    assert (s1 = wk).
    { destruct (String.eqb s1 bk); [discriminate|].
      destruct (String.eqb_spec s1 wk); [assumption|discriminate]. }
    assert (s2 = bk).
    { destruct (String.eqb_spec s2 bk); [assumption|].
      destruct (String.eqb s2 wk); discriminate. }
    subst. rewrite (adjacency_is_chebyshev _ _ Hwk Hbk) in Hadj.
    apply Z.leb_gt in Hadj. exact Hadj.
  - intros Hk c.
    pose proof (earlyChecks_no_check R chess _ Hchecks Hk c) as Hc.
    destruct (placedOn_fields _ _ _ Hplaced) as (_ & Hcastle & Hep & _).
    cbn [position put cleared castlingField enPassantField] in Hcastle, Hep.
    unfold inCheckOnOwnTurn in *. unfold fen in *.
    replace (setSide (setSide (clearCastlingAndEnPassant (setSide (position chess) White))
                              (if Qle_bool (evaluation i) 0 then White else Black)) c)
      with (setSide (position chess) c); [exact Hc|].
    unfold setSide, clearCastlingAndEnPassant. cbn [placement sideToMove castlingField
      enPassantField halfmoveField fullmoveField]. now rewrite Hcastle, Hep.
  - cbn [setSide clearCastlingAndEnPassant placement fen]. intros s Hs.
    destruct (placedOn_support _ _ _ Hplaced s Hs) as [H|H]; [|exact H].
    unfold get, put in H. cbn [position placement cleared emptyBoard] in H.
    destruct (String.eqb_spec s bk) as [->|]; [assumption|].
    destruct (String.eqb_spec s wk) as [->|]; [assumption|now elim H].
Qed.

(** On the standard set-up both sides have their sixteen pieces. *)
Lemma accepted_position_is_complete_witness :
  exists f i,
    generateRandomPosition quietRules (fun _ => engineReporting (-20)) strictOptions 1 1
                           standardRng = Resolved (f, i)
    /\ countSide f White = 16%nat /\ countSide f Black = 16%nat
    /\ inCheckOnOwnTurn quietRules f White = Ok false.
Proof.
  assert (H : match generateRandomPosition quietRules (fun _ => engineReporting (-20))
                                           strictOptions 1 1 standardRng with
              | Resolved _ => true
              | _ => false
              end = true) by (vm_compute; reflexivity).
  destruct (generateRandomPosition quietRules (fun _ => engineReporting (-20))
                                   strictOptions 1 1 standardRng)
    as [[f i]| |] eqn:E; try discriminate H.
  exists f, i. split; [reflexivity|].
  destruct (accepted_position_is_complete
              quietRules (fun _ => engineReporting (-20)) strictOptions 1 1 standardRng f i E)
    as (Hcount & _ & Hcheck & _).
  split; [apply Hcount|]. split; [apply Hcount|]. now apply Hcheck.
Defined.

(** *** Bishops *)

Lemma flat_map_cells {A B C D} (F : A -> B -> list D) (cell : A -> B -> C)
    (P : C -> bool) (lab : C -> D) (L1 : list A) (L2 : list B) :
  (forall a b, In a L1 -> In b L2 ->
               F a b = if P (cell a b) then [lab (cell a b)] else []) ->
  flat_map (fun a => flat_map (F a) L2) L1
  = map lab (filter P (flat_map (fun a => map (cell a) L2) L1)).
Proof.
  intros H. induction L1 as [|a L1 IH]; [reflexivity|].
  cbn [flat_map]. rewrite filter_app, map_app. f_equal.
  - assert (Hrow : forall L, incl L L2 ->
              flat_map (F a) L = map lab (filter P (map (cell a) L))).
    { induction L as [|b L IHL]; intros Hincl; [reflexivity|].
      cbn [flat_map map filter].
      rewrite (H a b) by (try apply Hincl; now left).
      rewrite IHL by (intros x Hx; apply Hincl; now right).
      destruct (P (cell a b)); reflexivity. }
    apply Hrow, incl_refl.
  - apply IH. intros a' b Ha' Hb. apply H; [now right|assumption].
Qed.

Lemma board_cell chess rank file :
  In rank (seq 0 8) -> In file (seq 0 8) ->
  nth file (nth rank (board chess) []) None
  = get chess (nth file FILES "" ++ nth (7 - rank) RANKS "").
Proof.
  intros Hr Hf. cbn [seq In] in Hr, Hf.
  repeat (destruct Hr as [<-|Hr]); try contradiction;
    repeat (destruct Hf as [<-|Hf]); try contradiction; reflexivity.
Qed.

(** The scan pushes, for every cell that shows a bishop of the colour,
    the colour it computes for the cell. *)
Lemma bishopSquares_scan chess c :
  bishopSquares chess c
  = map (fun cell => isLightSquare (snd cell))
        (filter (fun cell => isBishopOf c (get chess (fst cell))) scanCells).
Proof.
  unfold bishopSquares, scanCells. cbv zeta.
  apply (flat_map_cells
           (fun rank file =>
              match nth file (nth rank (board chess) []) None with
              | Some piece =>
                  if PieceSymbol_eqb (type piece) Bishop && Color_eqb (color piece) c
                  then [isLightSquare (nth file FILES "" ++ nth rank RANKS "")]
                  else []
              | None => []
              end)
           (fun rank file => (nth file FILES "" ++ nth (7 - rank) RANKS "",
                              nth file FILES "" ++ nth rank RANKS ""))
           (fun cell => isBishopOf c (get chess (fst cell)))
           (fun cell => isLightSquare (snd cell))).
  intros rank file Hr Hf. rewrite (board_cell chess rank file Hr Hf). cbn [fst snd].
  destruct (get chess _) as [piece|]; reflexivity.
Qed.

Lemma scan_complete s : In s allSquares -> exists t, In (s, t) scanCells.
Proof.
  assert (H : forallb (fun s => existsb (fun cell => String.eqb s (fst cell)) scanCells)
                      allSquares = true) by (vm_compute; reflexivity).
  intros Hs. rewrite forallb_forall in H. specialize (H s Hs).
  apply existsb_exists in H as ([s' t] & Hin & Heq).
  apply String.eqb_eq in Heq. cbn [fst] in Heq. subst s'. eauto.
Qed.

(** The colour the scan computes is the colour of the square the cell
    shows, with the two names exchanged throughout. *)
Lemma scan_label cell :
  In cell scanCells ->
  isLightSquare (snd cell) = negb (squareColor (fst cell) =? 0)%Z.
Proof.
  assert (H : forallb (fun cell =>
                Bool.eqb (isLightSquare (snd cell)) (negb (squareColor (fst cell) =? 0)%Z))
                scanCells = true) by (vm_compute; reflexivity).
  intros Hin. rewrite forallb_forall in H. now apply Bool.eqb_prop, H.
Qed.

Lemma squareColor_cases s : In s allSquares -> squareColor s = 0%Z \/ squareColor s = 1%Z.
Proof.
  assert (H : forallb (fun s => (squareColor s =? 0)%Z || (squareColor s =? 1)%Z)
                      allSquares = true) by (vm_compute; reflexivity).
  intros Hin. rewrite forallb_forall in H. specialize (H s Hin).
  apply orb_true_iff in H as [H|H]; apply Z.eqb_eq in H; auto.
Qed.

Lemma count_one {A} (l : list A) (f P : A -> bool) x v :
  In x l -> P x = true -> f x = v ->
  (1 <= List.length (filter (Bool.eqb v) (map f (filter P l))))%nat.
Proof.
  intros Hin HP Hf. induction l as [|a l IH]; [contradiction|].
  cbn [filter]. destruct Hin as [->|Hin].
  - rewrite HP. cbn [map filter]. rewrite Hf, Bool.eqb_reflx. cbn [List.length]. lia.
  - specialize (IH Hin). destruct (P a); [|exact IH].
    cbn [map filter]. destruct (Bool.eqb v (f a)); cbn [List.length]; lia.
Qed.

Lemma count_two {A} (l : list A) (f P : A -> bool) x1 x2 v :
  In x1 l -> In x2 l -> x1 <> x2 ->
  P x1 = true -> P x2 = true -> f x1 = v -> f x2 = v ->
  (2 <= List.length (filter (Bool.eqb v) (map f (filter P l))))%nat.
Proof.
  intros H1 H2 Hne HP1 HP2 Hf1 Hf2. induction l as [|a l IH]; [contradiction|].
  cbn [filter]. destruct H1 as [->|H1], H2 as [->|H2].
  - congruence.
  - rewrite HP1. cbn [map filter]. rewrite Hf1, Bool.eqb_reflx. cbn [List.length].
    pose proof (count_one l f P x2 v H2 HP2 Hf2). lia.
  - rewrite HP2. cbn [map filter]. rewrite Hf2, Bool.eqb_reflx. cbn [List.length].
    pose proof (count_one l f P x1 v H1 HP1 Hf1). lia.
  - specialize (IH H1 H2). destruct (P a); [|exact IH].
    cbn [map filter]. destruct (Bool.eqb v (f a)); cbn [List.length]; lia.
Qed.

Lemma light_and_dark (L : list bool) :
  List.length (filter (Bool.eqb true) L) = List.length (filter (fun isLight => isLight) L)
  /\ List.length (filter (Bool.eqb false) L)
     = (List.length L - List.length (filter (fun isLight => isLight) L))%nat
  /\ (List.length (filter (fun isLight => isLight) L) <= List.length L)%nat.
Proof.
  induction L as [|[|] L (IH1 & IH2 & IH3)]; cbn [filter Bool.eqb List.length];
    repeat split; lia.
Qed.

Lemma twoOnOneColour_of_count (L : list bool) v :
  (2 <= List.length (filter (Bool.eqb v) L))%nat -> twoOnOneColour L = true.
Proof.
  intros H. destruct (light_and_dark L) as (Hl & Hd & Hle). unfold twoOnOneColour.
  assert (Hlen : (List.length (filter (Bool.eqb v) L) <= List.length L)%nat).
  { destruct v; lia. }
  destruct (Nat.leb_spec 2 (List.length L)); [|lia].
  apply orb_true_iff. destruct v.
  - left. apply Nat.leb_le. lia.
  - right. apply Nat.leb_le. lia.
Qed.

(** Two bishops of one side on squares of one colour are detected. *)
Lemma same_coloured_bishops_detected chess c s1 s2 :
  In s1 allSquares -> In s2 allSquares -> s1 <> s2 ->
  get chess s1 = Some (mk Bishop c) -> get chess s2 = Some (mk Bishop c) ->
  squareColor s1 = squareColor s2 ->
  hasBishopsOnSameColoredSquares chess = true.
Proof.
  intros H1 H2 Hne Hb1 Hb2 Hcol.
  destruct (scan_complete s1 H1) as (t1 & Hc1), (scan_complete s2 H2) as (t2 & Hc2).
  assert (Htwo : twoOnOneColour (bishopSquares chess c) = true).
  { rewrite bishopSquares_scan.
    apply twoOnOneColour_of_count with (v := isLightSquare t1).
    apply count_two with (x1 := (s1, t1)) (x2 := (s2, t2)); try assumption.
    - intros Heq. injection Heq as Heq _. contradiction.
    - cbn [fst]. rewrite Hb1. now destruct c.
    - cbn [fst]. rewrite Hb2. now destruct c.
    - reflexivity.
    - pose proof (scan_label _ Hc1) as L1. pose proof (scan_label _ Hc2) as L2.
      cbn [fst snd] in *. now rewrite L1, L2, Hcol. }
  unfold hasBishopsOnSameColoredSquares. destruct c.
  - now rewrite Htwo.
  - rewrite Htwo. now destruct (twoOnOneColour (bishopSquares chess White)).
Qed.

Lemma earlyChecks_rejects_bishops R chess o :
  bishopsOnDifferentColors (fairnessChecks o) = true ->
  hasBishopsOnSameColoredSquares chess = true ->
  earlyChecks R chess o = Ok false.
Proof.
  intros Hb Hsame. unfold earlyChecks. rewrite Hb, Hsame.
  now destruct (kingsNotInCheck (fairnessChecks o)
                && (isKingInCheck R chess White || isKingInCheck R chess Black)).
Qed.

(** C4.  With the bishops-on-different-colours check enabled: in every
    position returned, two bishops of one side stand on squares of
    different colour, the colour of a square being (file index + rank
    index) mod 2; and a board on which two bishops of one side share a
    square colour makes [placePieces] answer [false], so that the round
    is given up: the board is never repaired. *)
Theorem bishops_on_different_colours R world options kingFuel rounds g f i :
  bishopsOnDifferentColors (fairnessChecks (mergeOptions options)) = true ->
  (generateRandomPosition R world options kingFuel rounds g = Resolved (f, i) ->
   forall c s1 s2,
     s1 <> s2 ->
     placement f s1 = Some (mk Bishop c) -> placement f s2 = Some (mk Bishop c) ->
     squareColor s1 <> squareColor s2)
  /\ (forall chess0 pieceOrList count allowedRanks g0 answer chess g1 c s1 s2,
         placePieces R chess0 pieceOrList count allowedRanks
                     (Some (mergeOptions options)) g0 = (answer, chess, g1) ->
         In s1 allSquares -> In s2 allSquares -> s1 <> s2 ->
         get chess s1 = Some (mk Bishop c) -> get chess s2 = Some (mk Bishop c) ->
         squareColor s1 = squareColor s2 ->
         answer = Ok false).
Proof.
  intros Hb. split.
  - intros H c s1 s2 Hne H1 H2 Hcol.
    apply accepted_inversion in H
      as (wk & bk & chess & Hwk & Hbk & Hadj & Hplaced & Hchecks & -> & _).
    cbn [setSide clearCastlingAndEnPassant placement fen] in H1, H2.
    assert (Hsupport : forall s, get chess s = Some (mk Bishop c) -> In s allSquares).
    { intros s Hs.
      assert (Hnn : get chess s <> None) by (rewrite Hs; discriminate).
      destruct (placedOn_support _ _ _ Hplaced s Hnn) as [H|H]; [|exact H].
      unfold get, put in H. cbn [position placement cleared emptyBoard] in H.
      destruct (String.eqb_spec s bk) as [->|]; [assumption|].
      destruct (String.eqb_spec s wk) as [->|]; [assumption|now elim H]. }
    pose proof (same_coloured_bishops_detected chess c s1 s2
                  (Hsupport s1 H1) (Hsupport s2 H2) Hne H1 H2 Hcol) as Hdet.
    rewrite (earlyChecks_rejects_bishops R chess _ Hb Hdet) in Hchecks. discriminate.
  - intros chess0 pieceOrList count allowedRanks g0 answer chess g1 c s1 s2
           Hplace H1 H2 Hne Hb1 Hb2 Hcol.
    unfold placePieces in Hplace.
    destruct (placeAll chess0 _ allowedRanks g0) as [[[|] chess1] g'].
    + injection Hplace as <- <- _.
      apply earlyChecks_rejects_bishops; [exact Hb|].
      exact (same_coloured_bishops_detected chess1 c s1 s2 H1 H2 Hne Hb1 Hb2 Hcol).
    + now injection Hplace as <- _ _.
Qed.

(** On the standard set-up the white bishops stand on c1 and f1. *)
Lemma bishops_on_different_colours_witness :
  exists f i,
    generateRandomPosition quietRules (fun _ => engineReporting (-20)) strictOptions 1 1
                           standardRng = Resolved (f, i)
    /\ placement f "c1" = Some (mk Bishop White)
    /\ placement f "f1" = Some (mk Bishop White)
    /\ squareColor "c1" <> squareColor "f1".
Proof.
  assert (H : match generateRandomPosition quietRules (fun _ => engineReporting (-20))
                                           strictOptions 1 1 standardRng with
              | Resolved (f, _) =>
                  holds f (mk Bishop White) "c1" && holds f (mk Bishop White) "f1"
              | _ => false
              end = true) by (vm_compute; reflexivity).
  destruct (generateRandomPosition quietRules (fun _ => engineReporting (-20))
                                   strictOptions 1 1 standardRng)
    as [[f i]| |] eqn:E; try discriminate H.
  apply andb_true_iff in H as [Hc1 Hf1]. unfold holds in Hc1, Hf1.
  destruct (placement f "c1") as [x|] eqn:Ec1; [|discriminate].
  destruct (placement f "f1") as [y|] eqn:Ef1; [|discriminate].
  apply Piece_eqb_eq in Hc1, Hf1. subst x y.
  exists f, i. split; [reflexivity|]. split; [exact Ec1|]. split; [exact Ef1|].
  refine (proj1 (bishops_on_different_colours
                   quietRules (fun _ => engineReporting (-20)) strictOptions 1 1
                   standardRng f i eq_refl) E White "c1" "f1" _ Ec1 Ef1).
  discriminate.
Defined.

(** *** Failing backends *)


Lemma browser_failure_gives_basic_analysis B f depth difficulty msg :
  browserEvaluate B difficulty f depth = Rejected msg ->
  evaluateInBrowser B f depth difficulty = Resolved (basicAnalysis depth).
Proof.
  intros H. unfold evaluateInBrowser. now rewrite H.
Qed.





(** The server route, asked about the same position while its engine
    processes stay silent, does answer with the material estimate. *)
Lemma route_estimate_for_queenUp :
  exists a,
    Route.POST quietRules silentProcess queenUpRequest
    = {| Route.http_status := 200; Route.http_body := Route.AnalysisBody a |}
    /\ score a = Some (900 / 100)
    /\ error a
       = Some "Analysis failed after multiple attempts, providing estimated evaluation only".
Proof.
  eexists. split; [vm_compute; reflexivity|]. split; reflexivity.
Qed.

(** A generation whose evaluation backends all fail does not fail: the
    first candidate is taken as fair, with an evaluation of 0. *)
Lemma failed_evaluation_is_accepted_as_even :
  match generateRandomPosition quietRules (fun _ => noBackend) strictOptions 1 1
                               standardRng with
  | Resolved (f, i) => Qeq_bool (evaluation i) 0 && isFair i = true
  | _ => False
  end.
Proof.
  vm_compute. reflexivity.
Qed.

End GeneratorFacts.

(** ** Where a round places the pieces *)

Module PlacementFacts.
Import Js Constants ChessJs ChessUtils Stockfish PositionAnalyzer PositionGenerator.
Import Notions Scenario Measures GeneratorFacts.

(** *** Where the pieces are drawn *)

Lemma getRandomSquare_pos allowedRanks g :
  pos (snd (getRandomSquare allowedRanks g)) = S (S (pos g))
  /\ draws (snd (getRandomSquare allowedRanks g)) = draws g.
Proof. split; reflexivity. Qed.

Lemma placeKings_zone : forall fuel g wk bk g',
  placeKings fuel g = (Some (wk, bk), g') ->
  In wk (zoneSquares [0; 1; 2]%nat) /\ In bk (zoneSquares [5; 6; 7]%nat).
Proof.
  induction fuel as [|fuel IH]; intros g wk bk g' H; cbn [placeKings] in H;
    [discriminate|].
  pose proof (getRandomSquare_zone [0; 1; 2]%nat g ltac:(discriminate)) as Hw.
  destruct (getRandomSquare [0; 1; 2]%nat g) as [w g1].
  pose proof (getRandomSquare_zone [5; 6; 7]%nat g1 ltac:(discriminate)) as Hb.
  destruct (getRandomSquare [5; 6; 7]%nat g1) as [b g2]. cbn [fst] in *.
  destruct (areKingsAdjacent w b) eqn:Hadj.
  - eapply IH; eauto.
  - inversion H; subst. auto.
Qed.

Lemma placeOne_zone allowedRanks piece : forall left chess g chess' g',
  allowedRanks <> [] ->
  placeOne chess piece allowedRanks left g = (true, chess', g') ->
  exists s, In s (zoneSquares allowedRanks) /\ get chess s = None
            /\ chess' = put chess piece s.
Proof.
  induction left as [|left IH]; intros chess g chess' g' Hne H; cbn [placeOne] in H;
    [discriminate|].
  pose proof (getRandomSquare_zone allowedRanks g Hne) as Hin.
  destruct (getRandomSquare allowedRanks g) as [square g1]. cbn [fst] in Hin.
  destruct (get chess square) eqn:Hget.
  - eapply IH; eauto.
  - inversion H; subst. eauto.
Qed.

Lemma get_put chess x s s' :
  get (put chess x s) s' = if String.eqb s' s then Some x else get chess s'.
Proof. reflexivity. Qed.

Lemma placeAll_zone allowedRanks : forall pieces chess g chess' g',
  allowedRanks <> [] ->
  placeAll chess pieces allowedRanks g = (true, chess', g') ->
  forall s x, get chess' s = Some x ->
              get chess s = Some x \/ (In x pieces /\ In s (zoneSquares allowedRanks)).
Proof.
  induction pieces as [|piece pieces IH]; intros chess g chess' g' Hne H s x Hs;
    cbn [placeAll] in H.
  - inversion H; subst. now left.
  - destruct (placeOne chess piece allowedRanks 100 g) as [[[|] chess1] g1] eqn:H1;
      [|discriminate].
    destruct (placeOne_zone _ _ _ _ _ _ _ Hne H1) as (s0 & Hin & Hget & ->).
    destruct (IH _ _ _ _ Hne H s x Hs) as [Hold|[Hx Hz]].
    + rewrite get_put in Hold. destruct (String.eqb_spec s s0) as [->|].
      * injection Hold as <-. right. split; [now left|exact Hin].
      * now left.
    + right. split; [now right|exact Hz].
Qed.

Lemma placePieces_zone R chess pieceOrList count allowedRanks options g chess' g' :
  allowedRanks <> [] ->
  placePieces R chess pieceOrList count allowedRanks options g = (Ok true, chess', g') ->
  forall s x, get chess' s = Some x ->
              get chess s = Some x
              \/ (In x (match pieceOrList with
                        | PieceList l => l
                        | OnePiece y => repeat y count
                        end)
                  /\ In s (zoneSquares allowedRanks)).
Proof.
  intros Hne H. unfold placePieces in H.
  destruct (placeAll chess _ allowedRanks g) as [[[|] c1] g1] eqn:E.
  - assert (c1 = chess') as <-.
    { destruct options; congruence. }
    exact (placeAll_zone _ _ _ _ _ _ Hne E).
  - discriminate H.
Qed.

Lemma buildCandidate_zones R o wk bk g cand g' :
  In wk (zoneSquares [0; 1; 2]%nat) -> In bk (zoneSquares [5; 6; 7]%nat) ->
  buildCandidate R o wk bk g = (Ok (Some cand), g') ->
  (forall s x, placement cand s = Some x -> In s (zoneSquares (ownZone x)))
  /\ sideToMove cand = White /\ castlingField cand = "-" /\ enPassantField cand = "-"
  /\ halfmoveField cand = 0%Z /\ fullmoveField cand = 1%Z.
Proof.
  intros Hwk Hbk. unfold buildCandidate.
  destruct (placePieces R _ (OnePiece (mk Pawn White)) 8 _ None g)
    as [[[[|]|] c1] g1] eqn:E1; cbv beta iota; try (intros H; discriminate H).
  destruct (placePieces R c1 (OnePiece (mk Pawn Black)) 8 _ None g1)
    as [[[[|]|] c2] g2] eqn:E2; cbv beta iota; try (intros H; discriminate H).
  destruct (placePieces R c2 (PieceList whitePieces) _ _ (Some o) g2)
    as [[[[|]|] c3] g3] eqn:E3; cbv beta iota; try (intros H; discriminate H).
  destruct (placePieces R c3 (PieceList blackPieces) _ _ (Some o) g3)
    as [[[[|]|] c4] g4] eqn:E4; cbv beta iota; try (intros H; discriminate H).
  destruct ranks_ok as (H123 & H456 & H0123 & H4567 & _).
  pose proof (placePieces_true _ _ _ _ _ _ _ _ _ H123 E1) as [P1 _].
  pose proof (placePieces_true _ _ _ _ _ _ _ _ _ H456 E2) as [P2 _].
  pose proof (placePieces_true _ _ _ _ _ _ _ _ _ H0123 E3) as [P3 _].
  pose proof (placePieces_true _ _ _ _ _ _ _ _ _ H4567 E4) as [P4 _].
  pose proof (fun H => placePieces_zone _ _ _ _ _ _ _ _ _ H E1) as Z1.
  specialize (Z1 ltac:(discriminate)).
  pose proof (fun H => placePieces_zone _ _ _ _ _ _ _ _ _ H E2) as Z2.
  specialize (Z2 ltac:(discriminate)).
  pose proof (fun H => placePieces_zone _ _ _ _ _ _ _ _ _ H E3) as Z3.
  specialize (Z3 ltac:(discriminate)).
  pose proof (fun H => placePieces_zone _ _ _ _ _ _ _ _ _ H E4) as Z4.
  specialize (Z4 ltac:(discriminate)).
  unfold safeChessMutate, load, newChess, fen.
  destruct (validateFen R (position c4)); cbn [Js.bind position];
    [|intros H; discriminate H].
  destruct (validateFen R (clearCastlingAndEnPassant (setSide (position c4) White)));
    cbn [Js.bind position]; intros H; [|discriminate H].
  injection H as <- <-.
  split.
  - cbn [clearCastlingAndEnPassant setSide placement]. intros s x Hs.
    change (get c4 s = Some x) in Hs.
    destruct (Z4 s x Hs) as [Hs3|[Hx Hz]].
    2:{ cbn [In whitePieces blackPieces] in Hx.
        repeat (destruct Hx as [<-|Hx]; [exact Hz|]). elim Hx. }
    destruct (Z3 s x Hs3) as [Hs2|[Hx Hz]].
    2:{ cbn [In whitePieces blackPieces] in Hx.
        repeat (destruct Hx as [<-|Hx]; [exact Hz|]). elim Hx. }
    destruct (Z2 s x Hs2) as [Hs1|[Hx Hz]].
    2:{ apply repeat_spec in Hx as ->. exact Hz. }
    destruct (Z1 s x Hs1) as [Hs0|[Hx Hz]].
    2:{ apply repeat_spec in Hx as ->. exact Hz. }
    rewrite !get_put in Hs0.
    destruct (String.eqb_spec s bk) as [->|].
    { injection Hs0 as <-. exact Hbk. }
    destruct (String.eqb_spec s wk) as [->|].
    { injection Hs0 as <-. exact Hwk. }
    discriminate Hs0.
  - pose proof (placedOn_app _ _ _ _ _ P1 (placedOn_app _ _ _ _ _ P2
                 (placedOn_app _ _ _ _ _ P3 P4))) as P.
    destruct (placedOn_fields _ _ _ P) as (_ & _ & _ & Hh & Hf).
    cbn [position put cleared halfmoveField fullmoveField] in Hh, Hf.
    cbn [clearCastlingAndEnPassant setSide sideToMove castlingField enPassantField
         halfmoveField fullmoveField].
    auto.
Qed.

Lemma round_accepted R B o kingFuel g f i g' :
  round R B o kingFuel g = (Accepted f i, g') ->
  exists wk bk g1 cand,
    placeKings kingFuel g = (Some (wk, bk), g1)
    /\ buildCandidate R o wk bk g1 = (Ok (Some cand), g')
    /\ judge R B o cand = Accepted f i.
Proof.
  unfold round.
  destruct (placeKings kingFuel g) as [[[wk bk]|] g1] eqn:Hkings; [|discriminate].
  destruct (buildCandidate R o wk bk g1) as [[[cand|]|] g2] eqn:Hcand;
    try discriminate.
  intros H. injection H as Hjudge <-. eauto 10.
Qed.

Lemma generateLoop_round R world o kingFuel : forall rounds attempts g f i,
  generateLoop R world o kingFuel rounds attempts g = Resolved (f, i) ->
  exists attempt g0 g1, round R (world attempt) o kingFuel g0 = (Accepted f i, g1).
Proof.
  induction rounds as [|rounds IH]; intros attempts g f i H; cbn [generateLoop] in H;
    [discriminate|].
  destruct (round R (world (S attempts)) o kingFuel g)
    as [[f' i'| |] g'] eqn:Hround; [|eauto|discriminate].
  injection H as <- <-. eauto.
Qed.

Lemma accepted_candidate R world options kingFuel rounds g f i :
  generateRandomPosition R world options kingFuel rounds g = Resolved (f, i) ->
  exists attempt wk bk g1 g2 cand,
    In wk (zoneSquares [0; 1; 2]%nat) /\ In bk (zoneSquares [5; 6; 7]%nat)
    /\ buildCandidate R (mergeOptions options) wk bk g1 = (Ok (Some cand), g2)
    /\ judge R (world attempt) (mergeOptions options) cand = Accepted f i.
Proof.
  intros H. unfold generateRandomPosition in H.
  apply generateLoop_round in H as (attempt & g0 & g1 & H).
  apply round_accepted in H as (wk & bk & g2 & cand & Hk & Hc & Hj).
  apply placeKings_zone in Hk as [Hw Hb].
  exists attempt, wk, bk, g2, g1, cand. auto.
Qed.


Lemma zone_rank allowedRanks s :
  Forall (fun r => (r < 8)%nat) allowedRanks ->
  In s (zoneSquares allowedRanks) ->
  In s allSquares /\ In (Z.to_nat (rankIndex s)) allowedRanks.
Proof.
  intros Hok Hs. unfold zoneSquares in Hs.
  apply in_flat_map in Hs as (r & Hr & Hs).
  apply in_map_iff in Hs as (file & <- & Hfile).
  rewrite Forall_forall in Hok. specialize (Hok r Hr).
  assert (H : forallb (fun r =>
                forallb (fun file =>
                  existsb (String.eqb (file ++ nth r RANKS "undefined")) allSquares
                  && (Z.to_nat (rankIndex (file ++ nth r RANKS "undefined")) =? r)%nat)
                  FILES) (seq 0 8) = true) by (vm_compute; reflexivity).
  rewrite forallb_forall in H. specialize (H r). rewrite in_seq in H.
  specialize (H ltac:(lia)). rewrite forallb_forall in H. specialize (H file Hfile).
  apply andb_true_iff in H as [Hin Hrank]. split.
  - apply existsb_exists in Hin as (t & Ht & Heq).
    apply String.eqb_eq in Heq. now rewrite Heq.
  - apply Nat.eqb_eq in Hrank. now rewrite Hrank.
Qed.

Lemma ownZone_ok x : Forall (fun r => (r < 8)%nat) (ownZone x).
Proof.
  destruct x as [[] []]; cbn; repeat constructor.
Qed.

(** X1.  Every piece of a generated position stands in the zone of its
    kind: white pawns on ranks 2 to 4, black pawns on ranks 5 to 7, the
    white king on ranks 1 to 3, the black king on ranks 6 to 8, the other
    white pieces on ranks 1 to 4 and the other black pieces on ranks 5
    to 8. *)
Theorem generated_pieces_stay_in_their_zones R world options kingFuel rounds g f i :
  generateRandomPosition R world options kingFuel rounds g = Resolved (f, i) ->
  forall s x,
    placement f s = Some x ->
    In s (zoneSquares (ownZone x)) /\ In s allSquares
    /\ In (Z.to_nat (rankIndex s)) (ownZone x).
Proof.
  intros H s x Hs.
  apply accepted_candidate in H as (attempt & wk & bk & g1 & g2 & cand & Hw & Hb & Hc & Hj).
  apply judge_accepted in Hj as (-> & _).
  apply (buildCandidate_zones _ _ _ _ _ _ _ Hw Hb) in Hc as (Hz & _).
  cbn [setSide placement] in Hs. specialize (Hz s x Hs).
  split; [exact Hz|]. exact (zone_rank _ _ (ownZone_ok x) Hz).
Qed.

Lemma generated_pieces_stay_in_their_zones_witness :
  exists f i,
    generateRandomPosition quietRules (fun _ => engineReporting (-20)) strictOptions 1 1
                           standardRng = Resolved (f, i)
    /\ placement f "e1" = Some (mk King White)
    /\ In "e1" (zoneSquares (ownZone (mk King White))).
Proof.
  assert (H : match generateRandomPosition quietRules (fun _ => engineReporting (-20))
                                           strictOptions 1 1 standardRng with
              | Resolved (f, _) => match placement f "e1" with
                                   | Some x => Piece_eqb x (mk King White)
                                   | None => false
                                   end
              | _ => false
              end = true) by (vm_compute; reflexivity).
  destruct (generateRandomPosition quietRules (fun _ => engineReporting (-20))
                                   strictOptions 1 1 standardRng)
    as [[f i]| |] eqn:E; try discriminate H.
  exists f, i. split; [reflexivity|].
  destruct (placement f "e1") as [x|] eqn:Hx; [|discriminate H].
  apply Piece_eqb_eq in H. subst x. split; [reflexivity|].
  exact (proj1 (generated_pieces_stay_in_their_zones
                  quietRules (fun _ => engineReporting (-20)) strictOptions 1 1
                  standardRng f i E "e1" (mk King White) Hx)).
Defined.

(** X3.  A generated position carries no castling rights and no en-passant
    square, its half-move clock is 0 and its move number 1. *)
Theorem generated_position_has_no_castling_rights R world options kingFuel rounds g f i h :
  generateRandomPosition R world options kingFuel rounds g = Resolved (f, i) ->
  castlingField f = "-" /\ enPassantField f = "-"
  /\ halfmoveField f = 0%Z /\ fullmoveField f = 1%Z
  /\ BoardAnalysis.getCastlingRights {| position := f; history := h |} = "None"
  /\ BoardAnalysis.getEnPassantSquare {| position := f; history := h |} = "None".
Proof.
  intros H.
  apply accepted_candidate in H as (attempt & wk & bk & g1 & g2 & cand & Hw & Hb & Hc & Hj).
  apply judge_accepted in Hj as (-> & _).
  apply (buildCandidate_zones _ _ _ _ _ _ _ Hw Hb) in Hc as (_ & _ & Hcs & Hep & Hh & Hf).
  unfold BoardAnalysis.getCastlingRights, BoardAnalysis.getEnPassantSquare, fen.
  cbn [position setSide castlingField enPassantField halfmoveField fullmoveField].
  rewrite Hcs, Hep. repeat split; assumption.
Qed.

Lemma generated_position_has_no_castling_rights_witness :
  exists f i,
    generateRandomPosition quietRules (fun _ => engineReporting (-20)) strictOptions 1 1
                           standardRng = Resolved (f, i)
    /\ BoardAnalysis.getCastlingRights {| position := f; history := [] |} = "None".
Proof.
  assert (H : match generateRandomPosition quietRules (fun _ => engineReporting (-20))
                                           strictOptions 1 1 standardRng with
              | Resolved _ => true
              | _ => false
              end = true) by (vm_compute; reflexivity).
  destruct (generateRandomPosition quietRules (fun _ => engineReporting (-20))
                                   strictOptions 1 1 standardRng)
    as [[f i]| |] eqn:E; try discriminate H.
  exists f, i. split; [reflexivity|].
  exact (proj1 (proj2 (proj2 (proj2 (proj2
           (generated_position_has_no_castling_rights
              quietRules (fun _ => engineReporting (-20)) strictOptions 1 1
              standardRng f i [] E)))))).
Defined.

(** X8.  The king loop of a round never repeats: the first pair of squares
    drawn is kept, after exactly four draws, the white king on ranks 1
    to 3 and the black king on ranks 6 to 8. *)
Theorem king_squares_need_one_round fuel g :
  exists wk bk g',
    placeKings (S fuel) g = (Some (wk, bk), g')
    /\ In wk (zoneSquares [0; 1; 2]%nat) /\ In bk (zoneSquares [5; 6; 7]%nat)
    /\ areKingsAdjacent wk bk = false
    /\ pos g' = (pos g + 4)%nat /\ draws g' = draws g.
Proof.
  cbn [placeKings].
  pose proof (getRandomSquare_zone [0; 1; 2]%nat g ltac:(discriminate)) as Hw.
  destruct (getRandomSquare_pos [0; 1; 2]%nat g) as [Hp1 Hd1].
  destruct (getRandomSquare [0; 1; 2]%nat g) as [w g1].
  pose proof (getRandomSquare_zone [5; 6; 7]%nat g1 ltac:(discriminate)) as Hb.
  destruct (getRandomSquare_pos [5; 6; 7]%nat g1) as [Hp2 Hd2].
  destruct (getRandomSquare [5; 6; 7]%nat g1) as [b g2]. cbn [fst snd] in *.
  rewrite (king_zones_apart w b Hw Hb).
  exists w, b, g2. repeat split; try assumption.
  - apply king_zones_apart; assumption.
  - lia.
  - congruence.
Qed.

(** X9.  [areKingsAdjacent] is the Chebyshev test: on the squares of the
    board it answers [true] exactly for two squares at distance at most
    one (a square is adjacent to itself), whatever the order of its
    arguments. *)
Theorem areKingsAdjacent_is_chebyshev_distance s1 s2 :
  In s1 allSquares -> In s2 allSquares ->
  (areKingsAdjacent s1 s2 = true <-> (chebyshev s1 s2 <= 1)%Z)
  /\ areKingsAdjacent s1 s2 = areKingsAdjacent s2 s1.
Proof.
  intros H1 H2. split.
  - rewrite (adjacency_is_chebyshev _ _ H1 H2). apply Z.leb_le.
  - rewrite (adjacency_is_chebyshev _ _ H1 H2), (adjacency_is_chebyshev _ _ H2 H1).
    unfold chebyshev.
    replace (fileIndex s2 - fileIndex s1)%Z with (- (fileIndex s1 - fileIndex s2))%Z by lia.
    replace (rankIndex s2 - rankIndex s1)%Z with (- (rankIndex s1 - rankIndex s2))%Z by lia.
    now rewrite !Z.abs_opp.
Qed.

Lemma areKingsAdjacent_is_chebyshev_distance_witness :
  areKingsAdjacent "e1" "d2" = true /\ (chebyshev "e1" "d2" <= 1)%Z.
Proof.
  assert (H1 : In "e1" allSquares) by (vm_compute; tauto).
  assert (H2 : In "d2" allSquares) by (vm_compute; tauto).
  pose proof (areKingsAdjacent_is_chebyshev_distance "e1" "d2" H1 H2) as [H _].
  split; [reflexivity|]. apply H. reflexivity.
Defined.

End PlacementFacts.

(** ** Material *)

Module MaterialFacts.
Import Js Constants ChessJs ChessUtils Stockfish PositionAnalyzer PositionGenerator.
Import Notions Scenario Measures GeneratorFacts PlacementFacts.

(** *** The scan of [chess.board()] visits every square once *)

Lemma fold_rows {A B} (step : A -> B -> A) (rows : list (list B)) : forall acc,
  fold_left (fun acc row => fold_left step row acc) rows acc
  = fold_left step (List.concat rows) acc.
Proof.
  induction rows as [|row rows IH]; intros acc; cbn [fold_left List.concat];
    [reflexivity|].
  now rewrite IH, fold_left_app.
Qed.

Lemma board_cells chess : List.concat (board chess) = map (get chess) (map fst scanCells).
Proof. reflexivity. Qed.

Lemma scanned_squares : Permutation (map fst scanCells) allSquares.
Proof.
  apply NoDup_Permutation.
  - apply nodupb_sound. vm_compute. reflexivity.
  - exact allSquares_NoDup.
  - assert (H1 : forallb (fun s => existsb (String.eqb s) allSquares)
                         (map fst scanCells) = true) by (vm_compute; reflexivity).
    assert (H2 : forallb (fun s => existsb (String.eqb s) (map fst scanCells))
                         allSquares = true) by (vm_compute; reflexivity).
    rewrite forallb_forall in H1, H2.
    intros s. split; intros Hs.
    + apply H1 in Hs. apply existsb_exists in Hs as (t & Ht & Heq).
      apply String.eqb_eq in Heq. now subst.
    + apply H2 in Hs. apply existsb_exists in Hs as (t & Ht & Heq).
      apply String.eqb_eq in Heq. now subst.
Qed.

Lemma filter_length_perm {A} (P : A -> bool) (l l' : list A) :
  Permutation l l' -> List.length (filter P l) = List.length (filter P l').
Proof.
  induction 1 as [|x l l' _ IH|x y l|l l' l'' _ IH1 _ IH2]; cbn [filter].
  - reflexivity.
  - destruct (P x); cbn [List.length]; now rewrite IH.
  - destruct (P x), (P y); reflexivity.
  - now rewrite IH1.
Qed.

Lemma weighedOn_scan value f c :
  weighedOn (map fst scanCells) value f c = weighedBy value f c.
Proof.
  unfold weighedOn, weighedBy, countPieces.
  now rewrite !(filter_length_perm _ _ _ scanned_squares).
Qed.

Ltac weigh_cell Hget :=
  unfold weighedOn, holds; cbn [filter]; unfold get in Hget; rewrite Hget;
  cbn [Piece_eqb PieceSymbol_eqb Color_eqb type color mk andb List.length];
  rewrite ?Nat2Z.inj_succ; cbn [pieceValue Route.pieceValues];
  unfold PAWN, KNIGHT, BISHOP, ROOK, QUEEN, KING; lia.

Lemma material_fold chess l : forall a b,
  fold_left
    (fun (acc : Z * Z) (square : option Piece) =>
       match square with
       | Some x =>
           let value := pieceValue (type x) in
           match color x with
           | White => (fst acc + value, snd acc)%Z
           | Black => (fst acc, snd acc + value)%Z
           end
       | None => acc
       end)
    (map (get chess) l) (a, b)
  = ((a + weighedOn l pieceValue (position chess) White)%Z,
     (b + weighedOn l pieceValue (position chess) Black)%Z).
Proof.
  induction l as [|s l IH]; intros a b; cbn [map fold_left].
  - unfold weighedOn. cbn. f_equal; lia.
  - destruct (get chess s) as [[t c]|] eqn:Hget.
    + destruct c; cbn [color type fst snd]; rewrite IH; f_equal;
        destruct t; weigh_cell Hget.
    + rewrite IH. f_equal; weigh_cell Hget.
Qed.

Lemma estimate_fold chess l : forall a,
  fold_left
    (fun evaluation piece =>
       match piece with
       | None => evaluation
       | Some x =>
           let value := Route.pieceValues (type x) in
           (evaluation + match color x with White => value | Black => - value end)%Z
       end)
    (map (get chess) l) a
  = (a + weighedOn l Route.pieceValues (position chess) White
     - weighedOn l Route.pieceValues (position chess) Black)%Z.
Proof.
  induction l as [|s l IH]; intros a; cbn [map fold_left].
  - unfold weighedOn. cbn. lia.
  - destruct (get chess s) as [[t c]|] eqn:Hget.
    + rewrite IH. destruct c, t; weigh_cell Hget.
    + rewrite IH. weigh_cell Hget.
Qed.

Lemma material_totals chess :
  fold_left
    (fun acc row =>
       fold_left
         (fun (acc : Z * Z) (square : option Piece) =>
            match square with
            | Some x =>
                let value := pieceValue (type x) in
                match color x with
                | White => (fst acc + value, snd acc)%Z
                | Black => (fst acc, snd acc + value)%Z
                end
            | None => acc
            end)
         row acc)
    (board chess) (0, 0)%Z
  = (weighedBy pieceValue (position chess) White,
     weighedBy pieceValue (position chess) Black).
Proof.
  rewrite fold_rows, board_cells, material_fold.
  rewrite (weighedOn_scan pieceValue (position chess) White).
  rewrite (weighedOn_scan pieceValue (position chess) Black).
  reflexivity.
Qed.

Lemma estimate_total chess :
  fold_left
    (fun evaluation row =>
       fold_left
         (fun evaluation piece =>
            match piece with
            | None => evaluation
            | Some x =>
                let value := Route.pieceValues (type x) in
                (evaluation + match color x with White => value | Black => - value end)%Z
            end)
         row evaluation)
    (board chess) 0%Z
  = (weighedBy Route.pieceValues (position chess) White
     - weighedBy Route.pieceValues (position chess) Black)%Z.
Proof.
  rewrite (fold_rows _ (board chess)), board_cells, estimate_fold.
  rewrite (weighedOn_scan Route.pieceValues (position chess) White).
  rewrite (weighedOn_scan Route.pieceValues (position chess) Black).
  lia.
Qed.

(** X11.  [calculateMaterialCount] weighs the pieces of each side,
    wherever they stand: a pawn counts 1, a knight or a bishop 3, a rook
    5, a queen 9 and a king nothing; the advantage is White's total less
    Black's. *)
Theorem calculateMaterialCount_weighs_the_pieces chess :
  calculateMaterialCount chess
  = {| mc_white := weighedBy pieceValue (position chess) White;
       mc_black := weighedBy pieceValue (position chess) Black;
       mc_advantage := (weighedBy pieceValue (position chess) White
                        - weighedBy pieceValue (position chess) Black)%Z |}.
Proof.
  unfold calculateMaterialCount. cbv zeta.
  rewrite material_totals. reflexivity.
Qed.

(** X12.  The estimate of the server route is the material balance in
    centipawns: each side's pieces weighed 100, 320, 330, 500 and 900
    (the king 0), White's total less Black's. *)
Theorem estimateEvaluation_is_the_material_balance chess :
  Route.estimateEvaluation chess
  = (weighedBy Route.pieceValues (position chess) White
     - weighedBy Route.pieceValues (position chess) Black)%Z.
Proof.
  unfold Route.estimateEvaluation. apply estimate_total.
Qed.

Lemma generated_counts R world options kingFuel rounds g f i :
  generateRandomPosition R world options kingFuel rounds g = Resolved (f, i) ->
  forall x, countPieces f x = List.length (filter (fun y => Piece_eqb y x) allPieces).
Proof.
  intros H. apply accepted_inversion in H
    as (wk & bk & chess & Hwk & Hbk & Hadj & Hplaced & Hchecks & -> & _).
  intros x.
  change (countPieces (position chess) x
          = List.length (filter (fun y => Piece_eqb y x) allPieces)).
  rewrite (placedOn_count _ _ _ Hplaced).
  rewrite !countPieces_put by (auto using put_never_adjacent_square).
  unfold allPieces. cbn [filter].
  destruct (Piece_eqb (mk King White) x), (Piece_eqb (mk King Black) x);
    cbn [List.length]; reflexivity.
Qed.

(** X2.  In a generated position the material is level: each side counts 39
    pawn units, and the static estimate of the server route is 0,
    whatever the engine thinks of the position. *)
Theorem generated_material_is_level R world options kingFuel rounds g f i h :
  generateRandomPosition R world options kingFuel rounds g = Resolved (f, i) ->
  calculateMaterialCount {| position := f; history := h |}
  = {| mc_white := 39; mc_black := 39; mc_advantage := 0 |}
  /\ Route.estimateEvaluation {| position := f; history := h |} = 0%Z.
Proof.
  intros H. pose proof (generated_counts _ _ _ _ _ _ _ _ H) as Hc.
  unfold calculateMaterialCount, Route.estimateEvaluation. cbv zeta.
  rewrite material_totals, estimate_total.
  unfold weighedBy. cbn [position]. rewrite !Hc. split; reflexivity.
Qed.

Lemma generated_material_is_level_witness :
  exists f i,
    generateRandomPosition quietRules (fun _ => engineReporting (-20)) strictOptions 1 1
                           standardRng = Resolved (f, i)
    /\ calculateMaterialCount {| position := f; history := [] |}
       = {| mc_white := 39; mc_black := 39; mc_advantage := 0 |}.
Proof.
  assert (H : match generateRandomPosition quietRules (fun _ => engineReporting (-20))
                                           strictOptions 1 1 standardRng with
              | Resolved _ => true
              | _ => false
              end = true) by (vm_compute; reflexivity).
  destruct (generateRandomPosition quietRules (fun _ => engineReporting (-20))
                                   strictOptions 1 1 standardRng)
    as [[f i]| |] eqn:E; try discriminate H.
  exists f, i. split; [reflexivity|].
  exact (proj1 (generated_material_is_level
                  quietRules (fun _ => engineReporting (-20)) strictOptions 1 1
                  standardRng f i [] E)).
Defined.

End MaterialFacts.

(** ** What the acceptance test lets through *)

Module AcceptanceFacts.
Import Js Constants ChessJs ChessUtils Stockfish PositionAnalyzer PositionGenerator.
Import Notions Scenario Measures GeneratorFacts PlacementFacts MaterialFacts.

Lemma judge_accepted_info R B o cand f i :
  judge R B o cand = Accepted f i ->
  description i = generatePositionDescription true true (evaluation i) None
  /\ winChance i = Some (calculateWinChances (Q2R (evaluation i)) None)
  /\ materialCount i = None /\ legalMovesCount i = None.
Proof.
  unfold judge.
  destruct (newChess R cand) as [chess|]; [|discriminate].
  destruct (refreshPositionAnalysis R _ chess (stockfishDepth o)) as [analysis| |];
    try discriminate.
  destruct (forcedMate analysis); [discriminate|].
  destruct (isFair analysis); [|discriminate].
  intros H. injection H as <- <-. repeat split.
Qed.

Lemma describe_fair e :
  Qabs e <= 50 ->
  (Qabs e < 25
   /\ generatePositionDescription true true e None
      = DescKey "analysis:description.balanced" (Some []))
  \/ (25 <= Qabs e /\ Qabs e < 50
      /\ generatePositionDescription true true e None
         = DescKey "analysis:description.slightAdvantage" (Some [("side", sideKey e)]))
  \/ (Qabs e == 50
      /\ generatePositionDescription true true e None
         = DescKey "analysis:description.advantage" (Some [("side", sideKey e)])).
Proof.
  intros Hle. unfold generatePositionDescription, Qlt_bool. cbn [negb].
  change (inject_Z BALANCED) with 25. change (inject_Z SLIGHT_ADVANTAGE) with 50.
  change (inject_Z ADVANTAGE) with 100.
  destruct (Qle_bool 25 (Qabs e)) eqn:H25; cbn [negb].
  - apply Qle_bool_iff in H25.
    destruct (Qle_bool 50 (Qabs e)) eqn:H50; cbn [negb].
    + apply Qle_bool_iff in H50.
      destruct (Qle_bool 100 (Qabs e)) eqn:H100; cbn [negb].
      * apply Qle_bool_iff in H100. exfalso.
        apply (Qlt_irrefl 50). apply Qlt_le_trans with 100; [reflexivity|].
        now apply Qle_trans with (Qabs e).
      * right. right. split; [now apply Qle_antisym|reflexivity].
    + right. left. repeat split; [assumption|].
      apply Qnot_le_lt. intros H. apply Qle_bool_iff in H. congruence.
  - left. split; [|reflexivity].
    apply Qnot_le_lt. intros H. apply Qle_bool_iff in H. congruence.
Qed.

(** X6.  A generated position is described as balanced below 25
    centipawns and as a slight advantage from 25 up to, but not
    including, 50; at exactly 50 centipawns, which the fairness test
    still accepts, it is described as an advantage. *)
Theorem generated_position_description R world options kingFuel rounds g f i :
  generateRandomPosition R world options kingFuel rounds g = Resolved (f, i) ->
  (Qabs (evaluation i) < 25
   /\ description i = DescKey "analysis:description.balanced" (Some []))
  \/ (25 <= Qabs (evaluation i) /\ Qabs (evaluation i) < 50
      /\ description i
         = DescKey "analysis:description.slightAdvantage"
                   (Some [("side", sideKey (evaluation i))]))
  \/ (Qabs (evaluation i) == 50
      /\ description i
         = DescKey "analysis:description.advantage"
                   (Some [("side", sideKey (evaluation i))])).
Proof.
  intros H.
  apply accepted_candidate in H as (attempt & wk & bk & g1 & g2 & cand & _ & _ & _ & Hj).
  destruct (judge_accepted_info _ _ _ _ _ _ Hj) as (-> & _).
  apply judge_accepted in Hj as (_ & _ & _ & _ & Hle).
  now apply describe_fair.
Qed.

Lemma generated_position_description_witness :
  exists f i,
    generateRandomPosition quietRules (fun _ => engineReporting 50) strictOptions 1 1
                           standardRng = Resolved (f, i)
    /\ isFair i = true
    /\ descriptionKey (description i) = "analysis:description.advantage".
Proof.
  assert (H : match generateRandomPosition quietRules (fun _ => engineReporting 50)
                                           strictOptions 1 1 standardRng with
              | Resolved (_, i) =>
                  isFair i && Qeq_bool (evaluation i) 50
              | _ => false
              end = true) by (vm_compute; reflexivity).
  destruct (generateRandomPosition quietRules (fun _ => engineReporting 50)
                                   strictOptions 1 1 standardRng)
    as [[f i]| |] eqn:E; try discriminate H.
  apply andb_true_iff in H as [Hfair Heq]. apply Qeq_bool_iff in Heq.
  exists f, i. split; [reflexivity|]. split; [exact Hfair|].
  destruct (generated_position_description
              quietRules (fun _ => engineReporting 50) strictOptions 1 1
              standardRng f i E) as [[Hlt _]|[(_ & Hlt & _)|[_ ->]]].
  - exfalso. rewrite Heq in Hlt. discriminate Hlt.
  - exfalso. rewrite Heq in Hlt. discriminate Hlt.
  - reflexivity.
Defined.

(** X7.  When the browser engine fails on a candidate, the round treats the
    candidate as level: provided the rule queries answer, it is
    accepted with evaluation 0 and White to move. *)
Theorem failed_engine_counts_as_level R B o f msg n b r :
  validateFen R f = true ->
  browserEvaluate B max f (stockfishDepth o) = Rejected msg ->
  movesLength R {| position := f; history := [] |} = Ok n ->
  inCheck R {| position := f; history := [] |} = Ok b ->
  isThreefoldRepetition R {| position := f; history := [] |} = Ok r ->
  exists i,
    judge R B o f = Accepted (setSide f White) i
    /\ evaluation i == 0 /\ isFair i = true /\ forcedMate i = None
    /\ description i = DescKey "analysis:description.balanced" (Some []).
Proof.
  intros Hvalid Hfail Hmoves Hcheck Hrep.
  unfold judge, newChess. rewrite Hvalid.
  unfold refreshPositionAnalysis, safeChessMutate, newChess, fen. cbn [position].
  rewrite Hvalid. cbn [Js.bind].
  cbv beta. unfold evaluateChessPosition. cbn [andb]. cbv beta iota. cbn [position].
  rewrite (browser_failure_gives_basic_analysis _ _ _ _ _ Hfail).
  unfold buildInfo, calculateLegalMovesCount, safeChessMutate, newChess, fen.
  cbn [position]. rewrite Hmoves, Hvalid. cbn [Js.bind].
  rewrite Hcheck, Hrep. cbn [Js.bind].
  match goal with
  | |- context [try_catch ?c ?h] => destruct (try_catch c h) as [lm|] eqn:Hlm
  end.
  2:{ exfalso. revert Hlm. unfold try_catch.
      match goal with |- context [match ?c with Ok _ => _ | Throw _ => _ end] =>
        destruct c end; discriminate. }
  cbn [score basicAnalysis mate orNull forcedMate isFair evaluation].
  eexists. split; [reflexivity|]. cbn [evaluation isFair forcedMate description].
  repeat split.
Qed.

Lemma failed_engine_counts_as_level_witness :
  exists i,
    judge quietRules noBackend DEFAULT_POSITION_OPTIONS queenUp
    = Accepted (setSide queenUp White) i
    /\ evaluation i == 0.
Proof.
  destruct (failed_engine_counts_as_level
              quietRules noBackend DEFAULT_POSITION_OPTIONS queenUp
              "Stockfish worker not initialized" 20%nat false false
              eq_refl eq_refl eq_refl eq_refl eq_refl) as (i & Hj & He & _).
  exists i. split; assumption.
Defined.

Lemma accepted_within_slight_advantage_witness :
  exists f i,
    generateRandomPosition quietRules (fun _ => engineReporting 40) strictOptions 1 1
                           standardRng = Resolved (f, i)
    /\ forcedMate i = None /\ Qabs (evaluation i) <= 50.
Proof.
  assert (H : match generateRandomPosition quietRules (fun _ => engineReporting 40)
                                           strictOptions 1 1 standardRng with
              | Resolved _ => true
              | _ => false
              end = true) by (vm_compute; reflexivity).
  destruct (generateRandomPosition quietRules (fun _ => engineReporting 40)
                                   strictOptions 1 1 standardRng)
    as [[f i]| |] eqn:E; try discriminate H.
  exists f, i. split; [reflexivity|].
  exact (accepted_within_slight_advantage
           quietRules (fun _ => engineReporting 40) strictOptions 1 1 standardRng f i E).
Defined.

(** *** The bishop test, read backwards *)

Lemma two_in_filter {A} (Q : A -> bool) (l : list A) :
  NoDup l -> (2 <= List.length (filter Q l))%nat ->
  exists x1 x2, In x1 l /\ In x2 l /\ x1 <> x2 /\ Q x1 = true /\ Q x2 = true.
Proof.
  intros Hnd Hlen.
  assert (Hf : NoDup (filter Q l)) by now apply NoDup_filter.
  destruct (filter Q l) as [|x1 [|x2 rest]] eqn:E; cbn [List.length] in Hlen; try lia.
  assert (H1 : In x1 (filter Q l)) by (rewrite E; now left).
  assert (H2 : In x2 (filter Q l)) by (rewrite E; right; now left).
  apply filter_In in H1 as [H1 Q1]. apply filter_In in H2 as [H2 Q2].
  exists x1, x2. repeat split; try assumption.
  intros ->. inversion Hf as [|? ? Hnot _]. apply Hnot. now left.
Qed.

Lemma filter_map_length {A} (lab : A -> bool) (P : A -> bool) v (l : list A) :
  List.length (filter (Bool.eqb v) (map lab (filter P l)))
  = List.length (filter (fun x => P x && Bool.eqb v (lab x)) l).
Proof.
  induction l as [|x l IH]; cbn [filter map]; [reflexivity|].
  destruct (P x); cbn [andb filter map]; [|exact IH].
  destruct (Bool.eqb v (lab x)); cbn [List.length]; now rewrite IH.
Qed.

Lemma NoDup_map_neq {A B} (f : A -> B) (l : list A) x y :
  NoDup (map f l) -> In x l -> In y l -> x <> y -> f x <> f y.
Proof.
  induction l as [|a l IH]; cbn [map In]; [tauto|].
  intros Hnd [->|Hx] [->|Hy] Hne Heq; inversion Hnd as [|? ? Hnot Hnd']; subst.
  - now elim Hne.
  - apply Hnot. rewrite Heq. now apply in_map.
  - apply Hnot. rewrite <- Heq. now apply in_map.
  - exact (IH Hnd' Hx Hy Hne Heq).
Qed.

Lemma scanCells_NoDup : NoDup (map fst scanCells).
Proof. apply nodupb_sound. vm_compute. reflexivity. Qed.

Lemma twoOnOneColour_count (L : list bool) :
  twoOnOneColour L = true -> exists v, (2 <= List.length (filter (Bool.eqb v) L))%nat.
Proof.
  unfold twoOnOneColour. destruct (light_and_dark L) as (Hl & Hd & Hle).
  destruct (2 <=? List.length L)%nat; [|discriminate].
  intros H. apply orb_true_iff in H as [H|H]; apply Nat.leb_le in H.
  - exists true. lia.
  - exists false. lia.
Qed.

Lemma isBishopOf_holds c chess s :
  isBishopOf c (get chess s) = true -> get chess s = Some (mk Bishop c).
Proof.
  unfold isBishopOf. destruct (get chess s) as [[t c']|]; [|discriminate].
  cbn [type color]. destruct t, c', c; cbn; intros H; try discriminate H; reflexivity.
Qed.

Lemma detected_bishops chess c :
  twoOnOneColour (bishopSquares chess c) = true -> twoBishopsOnOneColour chess.
Proof.
  intros H. apply twoOnOneColour_count in H as (v & H).
  rewrite bishopSquares_scan, filter_map_length in H.
  assert (Hnd : NoDup scanCells) by (eapply NoDup_map_inv; exact scanCells_NoDup).
  destruct (two_in_filter _ _ Hnd H) as (x1 & x2 & H1 & H2 & Hne & Q1 & Q2).
  apply andb_true_iff in Q1 as [B1 L1]. apply andb_true_iff in Q2 as [B2 L2].
  apply Bool.eqb_prop in L1, L2.
  assert (Hin : forall x, In x scanCells -> In (fst x) allSquares).
  { intros x Hx. apply (Permutation_in _ scanned_squares). now apply in_map. }
  assert (Hfst : fst x1 <> fst x2)
    by exact (NoDup_map_neq fst _ _ _ scanCells_NoDup H1 H2 Hne).
  exists c, (fst x1), (fst x2). repeat split; auto using isBishopOf_holds.
  pose proof (scan_label _ H1) as S1. pose proof (scan_label _ H2) as S2.
  rewrite <- L1 in S1. rewrite <- L2 in S2.
  destruct (squareColor_cases _ (Hin _ H1)) as [E1|E1],
           (squareColor_cases _ (Hin _ H2)) as [E2|E2];
    rewrite E1, E2 in *; cbn in S1, S2; congruence.
Qed.

(** X10.  [hasBishopsOnSameColoredSquares] answers [true] exactly when some
    side has two bishops on squares of one colour: the mirrored ranks of
    its scan cost neither a detection nor a false alarm. *)
Theorem hasBishopsOnSameColoredSquares_is_exact chess :
  hasBishopsOnSameColoredSquares chess = true <-> twoBishopsOnOneColour chess.
Proof.
  split.
  - unfold hasBishopsOnSameColoredSquares.
    destruct (twoOnOneColour (bishopSquares chess White)) eqn:HW.
    + intros _. now apply (detected_bishops chess White).
    + apply (detected_bishops chess Black).
  - intros (c & s1 & s2 & H1 & H2 & Hne & B1 & B2 & Hcol).
    exact (same_coloured_bishops_detected chess c s1 s2 H1 H2 Hne B1 B2 Hcol).
Qed.

End AcceptanceFacts.

(** ** The engine client: requests and their promises *)

Module RequestFacts.
Import Js Constants ChessJs Stockfish Notions Scenario Measures EngineClientFacts.

(** *** What one message does to the promises *)

Lemma onmessage_effect e line :
  exists e',
    onmessage e line = Ok e'
    /\ ((line = "readyok" /\ e' = onReadyOk e)
        \/ (line <> "readyok"
            /\ rejected e' = rejected e /\ worker e' = worker e
            /\ resolver_ready e' = resolver_ready e /\ isReady e' = isReady e
            /\ ((match_after "bestmove " coordinate_move line = None
                 /\ resolved e' = resolved e
                 /\ resolver_bestmove e' = resolver_bestmove e)
                \/ (exists m, match_after "bestmove " coordinate_move line = Some m
                              /\ resolver_bestmove e = None
                              /\ resolved e' = resolved e
                              /\ resolver_bestmove e' = None)
                \/ (exists m request a,
                       match_after "bestmove " coordinate_move line = Some m
                       /\ resolver_bestmove e = Some request
                       /\ bestMove a = Value m
                       /\ resolved e' = (request, a) :: resolved e
                       /\ resolver_bestmove e' = None)))).
Proof.
  unfold onmessage.
  destruct (String.eqb_spec line "readyok") as [->|Hline].
  - exists (onReadyOk e). split; [reflexivity|]. now left.
  - destruct (parseScore_frame line e) as (e1 & H1 & F1). rewrite H1. cbn [Js.bind].
    destruct (parseMate_frame line e1) as (e2 & H2 & F2). rewrite H2. cbn [Js.bind].
    pose proof (sameRequests_trans _ _ _ F1 F2) as (Fres & Frej & Fbest & Frdy & Fwk & Fis).
    rewrite parseBestMove_spec. cbn [Js.bind].
    destruct (match_after "bestmove " coordinate_move line) as [m|] eqn:Hm.
    + destruct (resolver_bestmove e2) as [request|] eqn:Hreq.
      * match goal with |- context [Js.bind (parsePv line ?x) _] =>
          destruct (tail_frame line x) as (e' & He' & Gres & Grej & Gbest & Grdy & Gwk & Gis)
        end.
        exists e'. split; [exact He'|]. right. cbn in Gres, Grej, Gbest, Grdy, Gwk, Gis.
        split; [exact Hline|]. repeat split; try congruence.
        right. right. exists m, request, (with_bestMove (currentAnalysis e2) m).
        repeat split; try congruence.
      * match goal with |- context [Js.bind (parsePv line ?x) _] =>
          destruct (tail_frame line x) as (e' & He' & Gres & Grej & Gbest & Grdy & Gwk & Gis)
        end.
        exists e'. split; [exact He'|]. right. cbn in Gres, Grej, Gbest, Grdy, Gwk, Gis.
        split; [exact Hline|]. repeat split; try congruence.
        right. left. exists m. repeat split; congruence.
    + destruct (tail_frame line e2) as (e' & He' & Gres & Grej & Gbest & Grdy & Gwk & Gis).
      exists e'. split; [exact He'|]. right.
      split; [exact Hline|]. repeat split; try congruence.
      left. repeat split; congruence.
Qed.

Lemma settled_cons_other e e' request other a :
  resolved e' = (other, a) :: resolved e -> rejected e' = rejected e ->
  other <> request ->
  settled e' request = settled e request.
Proof.
  intros Hres Hrej Hne. unfold settled. rewrite Hres, Hrej. cbn [find fst].
  apply Nat.eqb_neq in Hne. now rewrite Hne.
Qed.

Lemma settled_same e e' request :
  resolved e' = resolved e -> rejected e' = rejected e ->
  settled e' request = settled e request.
Proof. intros Hres Hrej. unfold settled. now rewrite Hres, Hrej. Qed.

Lemma onReadyOk_forgotten e request :
  worker e <> None -> forgotten e request ->
  forgotten (onReadyOk e) request /\ worker (onReadyOk e) <> None.
Proof.
  destruct e as [w r rr rb cb wasm d a n res rej calls].
  unfold forgotten. cbn [worker resolver_bestmove resolver_ready].
  intros Hw (Hb & Hr & Hs). destruct w as [sent|]; [|congruence].
  unfold onReadyOk. cbn.
  destruct rr as [[c|]|]; cbn.
  - unfold startSearch. cbn. specialize (Hr c eq_refl).
    destruct (call_multiPV c >? 1)%Z; cbn;
      (split; [split; [congruence|split; [discriminate|exact Hs]]|discriminate]).
  - split; [split; [exact Hb|split; [discriminate|exact Hs]]|discriminate].
  - split; [split; [exact Hb|split; [discriminate|exact Hs]]|discriminate].
Qed.

Lemma onmessage_forgotten e line request :
  worker e <> None -> forgotten e request ->
  exists e', onmessage e line = Ok e' /\ worker e' <> None /\ forgotten e' request.
Proof.
  intros Hw Hf.
  destruct (onmessage_effect e line) as (e' & He' & [[-> ->]|(Hline & Hrej & Hwk & Hrdy & _ & Hcase)]).
  - exists (onReadyOk e). destruct (onReadyOk_forgotten e request Hw Hf). auto.
  - exists e'. split; [exact He'|]. split; [congruence|].
    destruct Hf as (Hb & Hr & Hs). unfold forgotten. rewrite Hrdy.
    destruct Hcase as [(_ & Hres & Hbest)|[(m & _ & _ & Hres & Hbest)
                                          |(m & other & a & _ & Hother & _ & Hres & Hbest)]].
    + rewrite Hbest, (settled_same _ _ _ Hres Hrej). auto.
    + rewrite Hbest, (settled_same _ _ _ Hres Hrej). repeat split; auto. discriminate.
    + rewrite Hbest, (settled_cons_other _ _ _ _ _ Hres Hrej).
      * repeat split; auto. discriminate.
      * congruence.
Qed.

Lemma run_forgotten events : forall e request,
  worker e <> None -> forgotten e request ->
  exists e', run e events = Ok e' /\ forgotten e' request.
Proof.
  induction events as [|ev events IH]; intros e request Hw Hf; cbn [run].
  - eauto.
  - destruct ev as [data|ms]; cbn [react].
    + destruct (onmessage_forgotten e data request Hw Hf) as (e1 & H1 & Hw1 & Hf1).
      rewrite H1. cbn [Js.bind]. now apply IH.
    + cbn [Js.bind]. now apply IH.
Qed.

(** X18.  A second call of [evaluatePosition] made while the first is
    pending takes over its resolver: whatever the engine then posts, and
    however long one waits, the promise of the first call is never
    settled. *)
Theorem overlapping_call_orphans_the_first e f1 depth1 multiPV1 f2 depth2 multiPV2 events :
  worker e <> None ->
  forgotten e (nextRequest e) ->
  exists e',
    run (fst (evaluatePosition (fst (evaluatePosition e f1 depth1 multiPV1))
                               f2 depth2 multiPV2)) events = Ok e'
    /\ settled e' (snd (evaluatePosition e f1 depth1 multiPV1)) = Never
    /\ snd (evaluatePosition e f1 depth1 multiPV1) = nextRequest e.
Proof.
  intros Hw Hf.
  assert (H : worker (fst (evaluatePosition (fst (evaluatePosition e f1 depth1 multiPV1))
                                            f2 depth2 multiPV2)) <> None
              /\ forgotten (fst (evaluatePosition (fst (evaluatePosition e f1 depth1 multiPV1))
                                                  f2 depth2 multiPV2))
                           (nextRequest e)
              /\ snd (evaluatePosition e f1 depth1 multiPV1) = nextRequest e).
  { destruct e as [w r rr rb cb wasm d a n res rej calls].
    unfold forgotten in *. cbn [worker resolver_bestmove resolver_ready nextRequest] in *.
    destruct Hf as (Hb & Hr & Hs).
    destruct w as [sent|]; [|congruence].
    unfold evaluatePosition. cbn.
    destruct r; cbn.
    - unfold startSearch. cbn.
      destruct (multiPV1 >? 1)%Z, (multiPV2 >? 1)%Z; cbn;
        (split; [discriminate|]; split; [|reflexivity];
         split; [intros H; injection H; lia|split; [exact Hr|exact Hs]]).
    - split; [discriminate|]. split; [|reflexivity].
      split; [exact Hb|]. split; [|exact Hs].
      intros c Hc. injection Hc as <-. cbn. lia. }
  destruct H as (Hw2 & Hf2 & Hr1). rewrite Hr1.
  destruct (run_forgotten events _ _ Hw2 Hf2) as (e' & He' & _ & _ & Hs).
  eauto.
Qed.

Lemma overlapping_call_orphans_the_first_witness :
  exists e',
    run (fst (evaluatePosition
                (fst (evaluatePosition (construct modernBrowser max) queenUp 15 1))
                queenUp 10 1))
        [Posted "readyok"; Posted "bestmove d1d7 ponder e8f8"; Elapsed 60000] = Ok e'
    /\ settled e' (snd (evaluatePosition (construct modernBrowser max) queenUp 15 1)) = Never
    /\ snd (evaluatePosition (construct modernBrowser max) queenUp 15 1) = 0%nat.
Proof.
  apply (overlapping_call_orphans_the_first
           (construct modernBrowser max) queenUp 15 1 queenUp 10 1
           [Posted "readyok"; Posted "bestmove d1d7 ponder e8f8"; Elapsed 60000]).
  - discriminate.
  - unfold forgotten. cbn. repeat split; discriminate.
Defined.

(** *** A request on a ready engine *)

Lemma quiet_step e ev request :
  worker e <> None -> resolver_ready e = None -> resolver_bestmove e = Some request ->
  quiet ev ->
  exists e', react e ev = Ok e'
             /\ worker e' <> None /\ resolver_ready e' = None
             /\ resolver_bestmove e' = Some request.
Proof.
  intros Hw Hr Hb Hq. destruct ev as [line|ms]; cbn [react]; [|eauto].
  cbn [quiet] in Hq.
  destruct (onmessage_effect e line)
    as (e' & He' & [[-> ->]|(Hline & Hrej & Hwk & Hrdy & _ & Hcase)]).
  - exists (onReadyOk e). split; [exact He'|].
    unfold onReadyOk. cbn [resolver_ready set_isReady]. rewrite Hr.
    cbn [worker resolver_ready resolver_bestmove set_isReady]. auto.
  - exists e'. split; [exact He'|].
    destruct Hcase as [(_ & _ & Hbest)|[(m & Hm & _)|(m & other & a & Hm & _)]];
      try congruence.
    repeat split; congruence.
Qed.

Lemma quiet_run events : forall e request,
  worker e <> None -> resolver_ready e = None -> resolver_bestmove e = Some request ->
  Forall quiet events ->
  exists e', run e events = Ok e'
             /\ worker e' <> None /\ resolver_ready e' = None
             /\ resolver_bestmove e' = Some request.
Proof.
  induction events as [|ev events IH]; intros e request Hw Hr Hb Hall; cbn [run].
  - eauto.
  - inversion Hall as [|? ? Hev Hrest]; subst.
    destruct (quiet_step e ev request Hw Hr Hb Hev) as (e1 & H1 & Hw1 & Hr1 & Hb1).
    rewrite H1. cbn [Js.bind]. now apply IH.
Qed.

Lemma run_app events1 : forall e e1 events2,
  run e events1 = Ok e1 -> run e (events1 ++ events2) = run e1 events2.
Proof.
  induction events1 as [|ev events1 IH]; intros e e1 events2 H; cbn [run app] in *.
  - now injection H as <-.
  - destruct (react e ev) as [e0|]; cbn [Js.bind] in *; [now apply IH|discriminate].
Qed.

(** X19.  A request made on a ready engine is resolved by the first line
    that announces a best move, with that move, whatever lines without
    a best move and however much time come before. *)
Theorem ready_request_is_resolved_by_bestmove e f depth multiPV events line m :
  worker e <> None -> isReady e = true -> resolver_ready e = None ->
  Forall quiet events ->
  announcesBestMove line m ->
  exists e' analysis m',
    run (fst (evaluatePosition e f depth multiPV)) (events ++ [Posted line]) = Ok e'
    /\ settled e' (snd (evaluatePosition e f depth multiPV)) = Resolved analysis
    /\ bestMove analysis = Value m'
    /\ announcesBestMove line m'
    /\ resolver_bestmove e' = None.
Proof.
  intros Hw Hready Hr Hall Hline.
  assert (H : worker (fst (evaluatePosition e f depth multiPV)) <> None
              /\ resolver_ready (fst (evaluatePosition e f depth multiPV)) = None
              /\ resolver_bestmove (fst (evaluatePosition e f depth multiPV))
                 = Some (snd (evaluatePosition e f depth multiPV))).
  { destruct e as [w r rr rb cb wasm d a n res rej calls].
    cbn [worker isReady resolver_ready] in *. subst r rr.
    destruct w as [sent|]; [|congruence].
    unfold evaluatePosition, startSearch. cbn.
    destruct (multiPV >? 1)%Z; cbn; repeat split; discriminate. }
  destruct H as (Hw1 & Hr1 & Hb1).
  destruct (quiet_run events _ _ Hw1 Hr1 Hb1 Hall) as (e2 & He2 & Hw2 & Hr2 & Hb2).
  rewrite (run_app _ _ _ _ He2). cbn [run react].
  destruct (bestmove_match_complete line m Hline) as (m' & Hm').
  destruct (onmessage_effect e2 line)
    as (e' & He' & [[-> _]|(_ & Hrej & _ & _ & _ & Hcase)]).
  { now apply readyok_announces_nothing in Hline. }
  rewrite He'. cbn [Js.bind].
  destruct Hcase as [(Hm & _)|[(m0 & _ & Hnone & _)
                               |(m0 & request & a & Hm0 & Hreq & Ha & Hres & Hbest)]];
    try congruence.
  exists e', a, m0. split; [reflexivity|].
  assert (request = snd (evaluatePosition e f depth multiPV)) as <- by congruence.
  repeat split.
  - unfold settled. rewrite Hres. cbn [find fst snd]. now rewrite Nat.eqb_refl.
  - exact Ha.
  - now apply bestmove_match_sound.
  - exact Hbest.
Qed.

Lemma ready_request_is_resolved_by_bestmove_witness :
  exists e' analysis m',
    run (fst (evaluatePosition (onReadyOk (construct modernBrowser max)) queenUp 15 1))
        ([Posted "info depth 1 score cp 912 pv d1d7"; Elapsed 2000]
         ++ [Posted "bestmove d1d7 ponder e8f8"]) = Ok e'
    /\ settled e' (snd (evaluatePosition (onReadyOk (construct modernBrowser max))
                                         queenUp 15 1)) = Resolved analysis
    /\ bestMove analysis = Value m'
    /\ announcesBestMove "bestmove d1d7 ponder e8f8" m'
    /\ resolver_bestmove e' = None.
Proof.
  apply (ready_request_is_resolved_by_bestmove
           (onReadyOk (construct modernBrowser max)) queenUp 15 1
           [Posted "info depth 1 score cp 912 pv d1d7"; Elapsed 2000]
           "bestmove d1d7 ponder e8f8" "d1d7").
  - discriminate.
  - reflexivity.
  - reflexivity.
  - repeat constructor.
  - exists "", " ponder e8f8". split; [reflexivity|].
    exists "d"%char, "1"%char, "d"%char, "7"%char.
    repeat split. now left.
Defined.

(** X20.  A call of [evaluatePosition] on an engine that is not ready posts
    [isready] and nothing else; the position and the [go] command are
    posted when [readyok] arrives, and only then does the call hold the
    best-move resolver. *)
Theorem search_starts_after_readyok e sent f depth multiPV :
  worker e = Some sent -> isReady e = false ->
  worker (fst (evaluatePosition e f depth multiPV)) = Some (sent ++ [IsReady])%list
  /\ resolver_bestmove (fst (evaluatePosition e f depth multiPV)) = resolver_bestmove e
  /\ exists e',
       onmessage (fst (evaluatePosition e f depth multiPV)) "readyok" = Ok e'
       /\ isReady e' = true
       /\ worker e'
          = Some (sent ++ [IsReady] ++ [PositionFen f]
                    ++ (if (multiPV >? 1)%Z
                        then [SetOption "MultiPV" (Z_to_string multiPV)] else [])
                    ++ [GoDepth depth])%list
       /\ resolver_bestmove e' = Some (snd (evaluatePosition e f depth multiPV)).
Proof.
  destruct e as [w r rr rb cb wasm d a n res rej calls].
  cbn [worker isReady]. intros -> ->.
  unfold evaluatePosition. cbn. repeat split.
  eexists. split; [reflexivity|].
  unfold onReadyOk, startSearch. cbn.
  destruct (multiPV >? 1)%Z; cbn; rewrite <- ?app_assoc; repeat split.
Qed.

Lemma search_starts_after_readyok_witness :
  exists sent,
    worker (construct modernBrowser max) = Some sent
    /\ worker (fst (evaluatePosition (construct modernBrowser max) queenUp 15 1))
       = Some (sent ++ [IsReady])%list.
Proof.
  destruct (worker (construct modernBrowser max)) as [sent|] eqn:E;
    [|discriminate E].
  exists sent. split; [reflexivity|].
  exact (proj1 (search_starts_after_readyok
                  (construct modernBrowser max) sent queenUp 15 1 E eq_refl)).
Defined.

(** X21.  The constructor leaves the client without a worker exactly when
    there is no [window] or no worker script could be started; every
    evaluation asked of such a client is rejected at once. *)
Theorem client_without_worker_rejects env difficulty f depth multiPV :
  (worker (construct env difficulty) = None
   <-> hasWindow env = false
       \/ (nnueWorkerStarts env = false
           /\ ((hasSharedArrayBuffer env || serviceWorkerControls env) = false
               \/ wasmWorkerStarts env = false)))
  /\ (worker (construct env difficulty) = None ->
      settled (fst (evaluatePosition (construct env difficulty) f depth multiPV))
              (snd (evaluatePosition (construct env difficulty) f depth multiPV))
      = Rejected "Stockfish worker not initialized").
Proof.
  destruct env as [win sab sw wasm nnue]. unfold construct.
  cbn [hasWindow hasSharedArrayBuffer serviceWorkerControls wasmWorkerStarts
       nnueWorkerStarts].
  destruct win, (sab || sw), wasm, nnue, difficulty; cbn;
    (split; [split; [try discriminate; intros _; tauto
                    |try reflexivity;
                     intros [H|[H [H'|H']]]; discriminate]
            |try discriminate; reflexivity]).
Qed.

Lemma client_without_worker_rejects_witness :
  settled (fst (evaluatePosition
                  (construct {| hasWindow := false; hasSharedArrayBuffer := false;
                                serviceWorkerControls := false;
                                wasmWorkerStarts := false; nnueWorkerStarts := false |}
                             max) queenUp 15 1))
          (snd (evaluatePosition
                  (construct {| hasWindow := false; hasSharedArrayBuffer := false;
                                serviceWorkerControls := false;
                                wasmWorkerStarts := false; nnueWorkerStarts := false |}
                             max) queenUp 15 1))
  = Rejected "Stockfish worker not initialized".
Proof.
  apply (client_without_worker_rejects
           {| hasWindow := false; hasSharedArrayBuffer := false;
              serviceWorkerControls := false;
              wasmWorkerStarts := false; nnueWorkerStarts := false |}
           max queenUp 15 1).
  reflexivity.
Defined.

Lemma silence_settles_nothing_witness :
  exists e',
    run (construct modernBrowser max)
        [Posted "info depth 1 score cp 20"; Elapsed 10000; Posted "bestmove (none)"] = Ok e'
    /\ settled e' 0 = settled (construct modernBrowser max) 0.
Proof.
  apply (silence_settles_nothing
           [Posted "info depth 1 score cp 20"; Elapsed 10000; Posted "bestmove (none)"]
           (construct modernBrowser max) 0%nat).
  - discriminate.
  - repeat constructor.
Defined.

Lemma unrecognised_line_is_ignored_witness :
  onmessage (construct modernBrowser max) "Stockfish 16 by the Stockfish developers"
  = Ok (construct modernBrowser max).
Proof.
  apply (unrecognised_line_is_ignored (construct modernBrowser max)
           "Stockfish 16 by the Stockfish developers");
    solve [discriminate | reflexivity].
Defined.

End RequestFacts.

(** ** The server route: attempts and status *)

Module RouteFacts.
Import Js Constants ChessJs Stockfish Route Notions Scenario Measures.

Lemma tryAnalysis_first_success analyze a : forall k remaining attempt,
  (k < remaining)%nat ->
  (forall j, (j < k)%nat -> exists msg, raceWithTimeout (analyze (attempt + j)%nat) = Throw msg) ->
  raceWithTimeout (analyze (attempt + k)%nat) = Ok a ->
  tryAnalysis analyze remaining attempt = Some a.
Proof.
  induction k as [|k IH]; intros remaining attempt Hk Hfail Hok;
    (destruct remaining as [|remaining]; [lia|]); cbn [tryAnalysis].
  - rewrite Nat.add_0_r in Hok. now rewrite Hok.
  - destruct (Hfail 0%nat ltac:(lia)) as (msg & H0). rewrite Nat.add_0_r in H0.
    rewrite H0. apply IH; [lia| |].
    + intros j Hj. replace (S attempt + j)%nat with (attempt + S j)%nat by lia.
      apply Hfail. lia.
    + now replace (S attempt + k)%nat with (attempt + S k)%nat by lia.
Qed.

Lemma tryAnalysis_ext analyze analyze' : forall remaining attempt,
  (forall n, (attempt <= n < attempt + remaining)%nat -> analyze n = analyze' n) ->
  tryAnalysis analyze remaining attempt = tryAnalysis analyze' remaining attempt.
Proof.
  induction remaining as [|remaining IH]; intros attempt H; cbn [tryAnalysis];
    [reflexivity|].
  rewrite <- (H attempt) by lia.
  destruct (raceWithTimeout (analyze attempt)); [reflexivity|].
  apply IH. intros n Hn. apply H. lia.
Qed.

(** X24.  [POST] answers with the analysis of the first of its three
    attempts that settles before the timeout, and with status 200. *)
Theorem POST_answers_with_first_success R analyze body k t a :
  validateFen R (body_fen body) = true ->
  (k < 3)%nat ->
  (forall j, (j < k)%nat ->
     exists msg,
       raceWithTimeout (analyze j (body_fen body)
                                (orDefault (body_depth body) DEFAULT_DEPTH)
                                (orDefault (body_multiPv body) DEFAULT_MULTI_PV)
                                (orDefault (body_difficulty body) "medium")) = Throw msg) ->
  analyze k (body_fen body)
          (orDefault (body_depth body) DEFAULT_DEPTH)
          (orDefault (body_multiPv body) DEFAULT_MULTI_PV)
          (orDefault (body_difficulty body) "medium") = Some (t, Ok a) ->
  (t < ANALYSIS_TIMEOUT)%Z ->
  POST R analyze (Ok body) = {| http_status := 200; http_body := AnalysisBody a |}.
Proof.
  intros Hvalid Hk Hfail Hok Ht. unfold POST, newChess. rewrite Hvalid. cbn [negb].
  rewrite (tryAnalysis_first_success
             (fun n => analyze n (body_fen body)
                               (orDefault (body_depth body) DEFAULT_DEPTH)
                               (orDefault (body_multiPv body) DEFAULT_MULTI_PV)
                               (orDefault (body_difficulty body) "medium"))
             a k (S MAX_RETRIES) 0%nat); [reflexivity|exact Hk|exact Hfail|].
  cbn [Nat.add]. rewrite Hok. unfold raceWithTimeout.
  apply Z.ltb_lt in Ht. now rewrite Ht.
Qed.

Lemma POST_answers_with_first_success_witness :
  POST quietRules
       (fun n _ _ _ _ =>
          match n with
          | 0%nat => None
          | _ => Some (1200%Z, Ok (with_bestMove (with_score emptyAnalysis 9) "d1d7"))
          end)
       queenUpRequest
  = {| http_status := 200;
       http_body := AnalysisBody (with_bestMove (with_score emptyAnalysis 9) "d1d7") |}.
Proof.
  apply (POST_answers_with_first_success quietRules
           (fun n _ _ _ _ =>
              match n with
              | 0%nat => None
              | _ => Some (1200%Z, Ok (with_bestMove (with_score emptyAnalysis 9) "d1d7"))
              end)
           {| body_fen := queenUp; body_depth := None; body_multiPv := None;
              body_difficulty := None |}
           1%nat 1200%Z).
  - reflexivity.
  - lia.
  - intros j Hj. assert (j = 0%nat) as -> by lia. eexists. reflexivity.
  - reflexivity.
  - reflexivity.
Defined.

(** X25.  The status of the answer of [POST] tells an unreadable request
    (500) and an invalid FEN (400) from everything else: a valid
    request is answered with 200 whether or not an engine attempt
    succeeded, and an invalid FEN is refused before any engine is
    asked. *)
Theorem POST_status R analyze req :
  http_status (POST R analyze req)
  = match req with
    | Throw _ => 500%Z
    | Ok body => if validateFen R (body_fen body) then 200%Z else 400%Z
    end
  /\ (forall body analyze',
        req = Ok body -> validateFen R (body_fen body) = false ->
        POST R analyze' req = POST R analyze req).
Proof.
  split.
  - destruct req as [body|msg]; [|reflexivity].
    unfold POST, newChess. destruct (validateFen R (body_fen body)); [|reflexivity].
    cbn [negb]. destruct (tryAnalysis _ _ _); reflexivity.
  - intros body analyze' -> Hbad. unfold POST, newChess. now rewrite Hbad.
Qed.

(** X26.  [POST] makes at most three attempts: what the engine would do in a
    fourth or later attempt has no bearing on the answer. *)
Theorem POST_makes_three_attempts R analyze analyze' req :
  (forall n f depth multiPv difficulty,
      (n < 3)%nat -> analyze n f depth multiPv difficulty
                     = analyze' n f depth multiPv difficulty) ->
  POST R analyze req = POST R analyze' req.
Proof.
  intros H. destruct req as [body|msg]; [|reflexivity].
  unfold POST. destruct (newChess R (body_fen body)); [|reflexivity].
  destruct (negb (validateFen R (body_fen body))); [reflexivity|].
  rewrite (tryAnalysis_ext _ (fun n => analyze' n (body_fen body)
                               (orDefault (body_depth body) DEFAULT_DEPTH)
                               (orDefault (body_multiPv body) DEFAULT_MULTI_PV)
                               (orDefault (body_difficulty body) "medium")));
    [reflexivity|].
  intros n Hn. apply H. unfold MAX_RETRIES in Hn. lia.
Qed.

Lemma POST_makes_three_attempts_witness :
  POST quietRules silentProcess queenUpRequest
  = POST quietRules
         (fun n _ _ _ _ =>
            if (n <? 3)%nat then None
            else Some (0%Z, Ok (with_bestMove emptyAnalysis "d1d7")))
         queenUpRequest.
Proof.
  apply (POST_makes_three_attempts quietRules silentProcess
           (fun n _ _ _ _ =>
              if (n <? 3)%nat then None
              else Some (0%Z, Ok (with_bestMove emptyAnalysis "d1d7")))
           queenUpRequest).
  intros n f depth multiPv difficulty Hn. unfold silentProcess.
  apply Nat.ltb_lt in Hn. now rewrite Hn.
Defined.

End RouteFacts.

(** ** The shape of the win chances; verdicts and their display *)

Module WinChanceShape.
Import Constants ChessUtils WinChanceFacts.
Local Open Scope R_scope.

Lemma Math_round_monotone x y : x <= y -> (Math_round x <= Math_round y)%Z.
Proof.
  intros Hxy.
  destruct (Math_round_bounds x) as [_ Hx], (Math_round_bounds y) as [Hy _].
  assert (H : IZR (Math_round x) < IZR (Math_round y + 1)) by (rewrite plus_IZR; lra).
  apply lt_IZR in H. lia.
Qed.

Lemma Math_round_30 : Math_round 30 = 30%Z.
Proof.
  destruct (Math_round_bounds 30) as [Hlo Hhi].
  assert (H1 : IZR 29 < IZR (Math_round 30)) by lra.
  assert (H2 : IZR (Math_round 30) < IZR 31) by lra.
  apply lt_IZR in H1, H2. lia.
Qed.

Lemma logistic_mirror c :
  50 + 50 * (2 / (1 + exp (- (4 / 1000) * c)) - 1)
  = 100 - (50 + 50 * (2 / (1 + exp (- (4 / 1000) * - c)) - 1)).
Proof.
  replace (- (4 / 1000) * - c) with (- (- (4 / 1000) * c)) by lra.
  rewrite exp_Ropp.
  assert (HE : 0 < exp (- (4 / 1000) * c)) by apply exp_pos.
  field. split; lra.
Qed.

Lemma draw_mirror c : exp (- (- c / 350) ^ 2) = exp (- (c / 350) ^ 2).
Proof. f_equal. lra. Qed.

(** X14.  The win chances are symmetric: changing the sign of the
    evaluation exchanges the chances of White and Black and leaves the
    draw chance as it is. *)
Theorem calculateWinChances_mirror (evaluation : R) :
  white (calculateWinChances (- evaluation) None)
  = black (calculateWinChances evaluation None)
  /\ black (calculateWinChances (- evaluation) None)
     = white (calculateWinChances evaluation None)
  /\ draw (calculateWinChances (- evaluation) None)
     = draw (calculateWinChances evaluation None).
Proof.
  unfold calculateWinChances. rewrite Rabs_Ropp.
  destruct (Rlt_dec (IZR MATE_THRESHOLD) (Rabs evaluation)) as [Hbig|Hsmall].
  - destruct (Rlt_dec 0 evaluation) as [Hp|Hp], (Rlt_dec 0 (- evaluation)) as [Hn|Hn];
      cbn [white black draw]; try (repeat split; reflexivity); exfalso.
    + lra.
    + assert (evaluation = 0) as -> by lra. rewrite Rabs_R0 in Hbig.
      unfold MATE_THRESHOLD in Hbig. lra.
  - cbv zeta.
    unfold SIGMOID_FACTOR_num, SIGMOID_FACTOR_den, MAX_DRAW_PROB, DRAW_THRESHOLD.
    rewrite draw_mirror. rewrite (logistic_mirror evaluation).
    set (w := 50 + 50 * (2 / (1 + exp (- (4 / 1000) * - evaluation)) - 1)).
    set (d := Rmax 0 (Rmin 30 (30 * exp (- (evaluation / 350) ^ 2)))).
    destruct (Rle_dec 0 evaluation), (Rle_dec 0 (- evaluation));
      cbn [white black draw]; repeat split; f_equal; f_equal; f_equal; lra.
Qed.

(** X15.  The side that is ahead never has the smaller chance, and the draw
    chance never exceeds 30. *)
Theorem calculateWinChances_favours_the_leader (evaluation : R) :
  0 <= evaluation ->
  (black (calculateWinChances evaluation None)
   <= white (calculateWinChances evaluation None))%Z
  /\ (draw (calculateWinChances evaluation None) <= 30)%Z.
Proof.
  intros Hpos. unfold calculateWinChances.
  destruct (Rlt_dec (IZR MATE_THRESHOLD) (Rabs evaluation)) as [Hbig|Hsmall].
  - destruct (Rlt_dec 0 evaluation) as [Hp|Hp]; cbn [white black draw]; [lia|].
    exfalso. assert (evaluation = 0) as -> by lra. rewrite Rabs_R0 in Hbig.
    unfold MATE_THRESHOLD in Hbig. lra.
  - cbv zeta.
    unfold SIGMOID_FACTOR_num, SIGMOID_FACTOR_den, MAX_DRAW_PROB, DRAW_THRESHOLD.
    assert (HE : 0 < exp (- (4 / 1000) * evaluation)) by apply exp_pos.
    assert (HE1 : exp (- (4 / 1000) * evaluation) <= 1) by (apply exp_le_1_below_0; lra).
    assert (HW : 1 <= 2 / (1 + exp (- (4 / 1000) * evaluation))).
    { apply Rmult_le_reg_r with (1 + exp (- (4 / 1000) * evaluation)); [lra|].
      unfold Rdiv. rewrite Rmult_assoc, Rinv_l by lra. lra. }
    set (W := 2 / (1 + exp (- (4 / 1000) * evaluation))) in *.
    assert (Hd : Rmax 0 (Rmin 30 (30 * exp (- (evaluation / 350) ^ 2))) <= 30).
    { apply Rmax_lub; [lra|apply Rmin_l]. }
    set (d := Rmax 0 (Rmin 30 (30 * exp (- (evaluation / 350) ^ 2)))) in *.
    destruct (Rle_dec 0 evaluation); cbn [white black draw]; split;
      try (rewrite <- Math_round_30; now apply Math_round_monotone);
      apply Math_round_monotone; unfold Rmax;
      repeat match goal with |- context [Rle_dec ?a ?b] => destruct (Rle_dec a b) end;
      lra.
Qed.

Lemma calculateWinChances_favours_the_leader_witness :
  (black (calculateWinChances 120 None) <= white (calculateWinChances 120 None))%Z
  /\ (draw (calculateWinChances 120 None) <= 30)%Z.
Proof.
  apply (calculateWinChances_favours_the_leader 120). lra.
Defined.

End WinChanceShape.

Module VerdictFacts.
Import Js Constants ChessJs ChessUtils Stockfish PositionAnalyzer Notions Scenario Measures.









(** X13.  [calculateLegalMovesCount] fails only when the moves of the side
    to move cannot be listed.  Whatever goes wrong with the opposite
    side (the copy or the position with the other side to move is
    refused, or its moves cannot be listed) is absorbed: that side is
    then reported with no move at all. *)
Theorem calculateLegalMovesCount_absorbs_failures R chess :
  (forall msg, calculateLegalMovesCount R chess = Throw msg
               <-> movesLength R chess = Throw msg)
  /\ (forall n,
        movesLength R chess = Ok n ->
        exists other,
          calculateLegalMovesCount R chess
          = Ok {| lm_white := if Color_eqb (turn chess) White then n else other;
                  lm_black := if Color_eqb (turn chess) Black then n else other;
                  lm_current := n |}
          /\ match movesLength R {| position := setSide (fen chess) (swapColor (turn chess));
                                    history := [] |} with
             | Ok m =>
                 other = if validateFen R (fen chess)
                            && validateFen R (setSide (fen chess) (swapColor (turn chess)))
                         then m else 0%nat
             | Throw _ => other = 0%nat
             end).
Proof.
  unfold calculateLegalMovesCount, safeChessMutate, load, newChess. cbv zeta.
  split.
  - intros msg. destruct (movesLength R chess) as [n|m]; cbn [Js.bind].
    + split; [|discriminate].
      destruct (validateFen R (fen chess)); cbn [Js.bind try_catch]; [|discriminate].
      unfold fen. cbn [position].
      destruct (validateFen R (setSide (position chess) (swapColor (turn chess))));
        cbn [Js.bind try_catch]; [|discriminate].
      destruct (movesLength R _); cbn [Js.bind try_catch]; discriminate.
    + split; intros H; injection H as ->; reflexivity.
  - intros n Hn. rewrite Hn. clear Hn. cbn [Js.bind].
    destruct (validateFen R (fen chess)); cbn [Js.bind try_catch andb].
    + unfold fen. cbn [position].
      destruct (validateFen R (setSide (position chess) (swapColor (turn chess))));
        cbn [Js.bind try_catch].
      * destruct (movesLength R _) as [m|]; cbn [Js.bind try_catch];
          eexists; split; reflexivity.
      * eexists. split; [reflexivity|]. destruct (movesLength R _); reflexivity.
    + eexists. split; [reflexivity|]. destruct (movesLength R _); reflexivity.
Qed.

End VerdictFacts.

(** ** The move of the computer opponent *)

Module BotMoveFacts.
Import Js Constants ChessJs Stockfish Route UseStockfish Notions Scenario Measures Games.
Import RouteFacts.

Lemma fifth_character s :
  (4 < String.length s)%nat -> falsy (Some (substring 4 1 s)) = false.
Proof.
  destruct s as [|a [|b [|c [|d [|e rest]]]]]; cbn [String.length]; try lia.
  intros _. cbn. now destruct rest.
Qed.

Lemma sameOptional_eq a b : sameOptional a b = true -> a = b.
Proof.
  destruct a as [x|], b as [y|]; cbn; try discriminate; [|reflexivity].
  intros H. apply String.eqb_eq in H. now subst.
Qed.

Lemma processMove_listed Q chess notation m :
  processMove Q chess notation = Some m ->
  In m (movesVerbose Q chess)
  /\ (4 <= String.length notation)%nat
  /\ move_from m = substring 0 2 notation
  /\ move_to m = substring 2 2 notation
  /\ (if (4 <? String.length notation)%nat
      then move_promotion m = Some (substring 4 1 notation)
      else falsy (move_promotion m) = true).
Proof.
  unfold processMove.
  destruct (Nat.leb_spec 4 (String.length notation)) as [Hlen|Hlen]; [|discriminate].
  intros H. apply find_some in H as [Hin Hcond].
  apply andb_true_iff in Hcond as [Hft Hp].
  apply andb_true_iff in Hft as [Hf Ht].
  apply String.eqb_eq in Hf, Ht.
  repeat split; try assumption.
  destruct (Nat.ltb_spec 4 (String.length notation)) as [Hlong|Hshort].
  - apply orb_true_iff in Hp as [Hp|Hp].
    + now apply sameOptional_eq.
    + apply andb_true_iff in Hp as [_ Hp]. rewrite fifth_character in Hp by exact Hlong.
      discriminate Hp.
  - apply orb_true_iff in Hp as [Hp|Hp].
    + apply sameOptional_eq in Hp. now rewrite Hp.
    + now apply andb_true_iff in Hp as [Hp _].
Qed.

Lemma moveOf_listed Q chess best m :
  moveOf Q chess best = Some m ->
  exists notation, best = Value notation /\ processMove Q chess notation = Some m.
Proof.
  unfold moveOf. destruct best as [| |[|c s]]; try discriminate. eauto.
Qed.

(** X27.  The computer opponent only ever plays a move that chess.js lists
    for the position: the move handed to [onMove] is one of
    [chess.moves({ verbose: true })], from and to the squares the engine
    named, with the promotion piece the engine named; and the game was
    not over. *)
Theorem getBotMove_plays_a_listed_move Q B difficulty chess m :
  getBotMove Q B difficulty chess = Resolved (Some m) ->
  isGameOver Q chess = false
  /\ In m (movesVerbose Q chess)
  /\ exists notation,
       (4 <= String.length notation)%nat
       /\ move_from m = substring 0 2 notation
       /\ move_to m = substring 2 2 notation
       /\ (if (4 <? String.length notation)%nat
           then move_promotion m = Some (substring 4 1 notation)
           else falsy (move_promotion m) = true)
       /\ ((exists data,
              askServer B (fen chess) (DIFFICULTY_DEPTHS difficulty) difficulty
              = Resolved (Some data) /\ bestMove data = Value notation)
           \/ (askServer B (fen chess) (DIFFICULTY_DEPTHS difficulty) difficulty
               = Resolved None
               /\ exists analysis,
                    browserEvaluate B difficulty (fen chess) (DIFFICULTY_DEPTHS difficulty)
                    = Resolved analysis
                    /\ bestMove analysis = Value notation)).
Proof.
  unfold getBotMove. destruct (isGameOver Q chess); [discriminate|].
  destruct (askServer B (fen chess) (DIFFICULTY_DEPTHS difficulty) difficulty)
    as [[data|]| |]; try discriminate.
  - intros H. injection H as H.
    apply moveOf_listed in H as (notation & Hbest & H).
    apply processMove_listed in H as (Hin & Hlen & Hf & Ht & Hp).
    split; [reflexivity|]. split; [exact Hin|].
    exists notation. repeat split; try assumption. left. eauto.
  - destruct (browserEvaluate B difficulty (fen chess) (DIFFICULTY_DEPTHS difficulty))
      as [analysis| |] eqn:Hev; try discriminate.
    destruct (bestMove analysis) as [| |[|c s]] eqn:Hbest; try discriminate.
    intros H. injection H as H.
    apply processMove_listed in H as (Hin & Hlen & Hf & Ht & Hp).
    split; [reflexivity|]. split; [exact Hin|].
    exists (String c s). repeat split; try assumption. right. eauto.
Qed.

Lemma getBotMove_plays_a_listed_move_witness :
  getBotMove twoMoves (engineReporting 20) max cleared
  = Resolved (Some {| move_from := "e2"; move_to := "e4"; move_promotion := None;
                      move_san := "e4" |})
  /\ In {| move_from := "e2"; move_to := "e4"; move_promotion := None; move_san := "e4" |}
        (movesVerbose twoMoves cleared).
Proof.
  split; [reflexivity|].
  exact (proj1 (proj2 (getBotMove_plays_a_listed_move
                         twoMoves (engineReporting 20) max cleared
                         {| move_from := "e2"; move_to := "e4"; move_promotion := None;
                            move_san := "e4" |} eq_refl))).
Defined.

Lemma tryAnalysis_all_fail analyze : forall remaining attempt,
  (forall n, (attempt <= n < attempt + remaining)%nat ->
             exists msg, raceWithTimeout (analyze n) = Throw msg) ->
  tryAnalysis analyze remaining attempt = None.
Proof.
  induction remaining as [|remaining IH]; intros attempt H; cbn [tryAnalysis];
    [reflexivity|].
  destruct (H attempt ltac:(lia)) as (msg & ->).
  apply IH. intros n Hn. apply H. lia.
Qed.

(** X28.  When every engine attempt of the server fails, the server still
    answers 200, with its estimate and no best move; the computer
    opponent takes that answer for the analysis, does not turn to the
    browser engine, and makes no move. *)
Theorem degraded_server_answer_stops_the_bot R analyze Q B difficulty chess body :
  body_fen body = fen chess ->
  validateFen R (fen chess) = true ->
  (forall n, (n < 3)%nat ->
     exists msg,
       raceWithTimeout (analyze n (body_fen body)
                                (orDefault (body_depth body) DEFAULT_DEPTH)
                                (orDefault (body_multiPv body) DEFAULT_MULTI_PV)
                                (orDefault (body_difficulty body) "medium")) = Throw msg) ->
  isGameOver Q chess = false ->
  isGitHubPages B = false ->
  fetchRoute B (fen chess) (DIFFICULTY_DEPTHS difficulty) difficulty
  = Resolved (toResponse (POST R analyze (Ok body))) ->
  getBotMove Q B difficulty chess = Resolved None.
Proof.
  intros Hfen Hvalid Hfail Hover Hpages Hfetch.
  unfold getBotMove, askServer. rewrite Hover, Hpages, Hfetch.
  unfold POST, newChess. rewrite Hfen, Hvalid. cbn [negb].
  rewrite tryAnalysis_all_fail.
  - reflexivity.
  - intros n Hn. rewrite <- Hfen. apply Hfail. unfold MAX_RETRIES in Hn. lia.
Qed.

Lemma degraded_server_answer_stops_the_bot_witness :
  getBotMove twoMoves degradedServer max cleared = Resolved None.
Proof.
  apply (degraded_server_answer_stops_the_bot
           quietRules silentProcess twoMoves degradedServer max cleared
           {| body_fen := fen cleared; body_depth := Some 20%Z; body_multiPv := None;
              body_difficulty := None |}); try reflexivity.
  intros n _. eexists. reflexivity.
Defined.

End BotMoveFacts.

(** ** Pawn structure *)

Module PawnFacts.
Import Js Constants ChessJs ChessUtils BoardAnalysis PositionGenerator.
Import Notions Scenario Measures GeneratorFacts MaterialFacts.

(** *** [indexOf] and the two filters on positions *)

Lemma indexOf_in_prefix x : forall pre l,
  In x pre -> (0 <= indexOf (pre ++ l) x < Z.of_nat (List.length pre))%Z.
Proof.
  induction pre as [|y pre IH]; intros l Hin; [now elim Hin|].
  cbn [app indexOf List.length]. rewrite Nat2Z.inj_succ.
  destruct (String.eqb_spec y x) as [->|Hne]; [lia|].
  destruct Hin as [->|Hin]; [now elim Hne|].
  specialize (IH l Hin).
  destruct (Z.ltb_spec (indexOf (pre ++ l) x) 0); lia.
Qed.

Lemma indexOf_first x : forall pre post,
  ~ In x pre -> indexOf (pre ++ x :: post) x = Z.of_nat (List.length pre).
Proof.
  induction pre as [|y pre IH]; intros post Hnot; cbn [app indexOf List.length].
  - now rewrite String.eqb_refl.
  - rewrite Nat2Z.inj_succ.
    destruct (String.eqb_spec y x) as [->|Hne]; [elim Hnot; now left|].
    rewrite IH by (intros H; apply Hnot; now right).
    destruct (Z.ltb_spec (Z.of_nat (List.length pre)) 0); lia.
Qed.

Lemma indexOf_here arr x pre post :
  arr = (pre ++ x :: post)%list ->
  (indexOf arr x =? Z.of_nat (List.length pre))%Z
  = negb (existsb (String.eqb x) pre).
Proof.
  intros ->. destruct (existsb (String.eqb x) pre) eqn:E; cbn [negb].
  - apply existsb_exists in E as (y & Hy & Heq). apply String.eqb_eq in Heq. subst y.
    pose proof (indexOf_in_prefix x pre (x :: post) Hy). apply Z.eqb_neq. lia.
  - rewrite indexOf_first; [apply Z.eqb_refl|].
    intros Hin. apply Bool.not_true_iff_false in E. apply E.
    apply existsb_exists. exists x. split; [exact Hin|apply String.eqb_refl].
Qed.

Lemma first_occurrences_from arr : forall post pre,
  arr = (pre ++ post)%list ->
  NoDup (filterFrom (fun v i => (indexOf arr v =? Z.of_nat i)%Z) (List.length pre) post)
  /\ forall x,
       In x (filterFrom (fun v i => (indexOf arr v =? Z.of_nat i)%Z) (List.length pre) post)
       <-> In x post /\ ~ In x pre.
Proof.
  induction post as [|y post IH]; intros pre Harr; cbn [filterFrom].
  - split; [constructor|]. intros x. cbn [In]. tauto.
  - assert (Harr' : arr = ((pre ++ [y]) ++ post)%list)
      by (rewrite <- app_assoc; exact Harr).
    destruct (IH (pre ++ [y])%list Harr') as [Hnd Hin].
    rewrite length_app, Nat.add_1_r in Hnd, Hin. cbn [List.length] in Hnd, Hin.
    rewrite (indexOf_here arr y pre post Harr).
    destruct (existsb (String.eqb y) pre) eqn:E; cbn [negb].
    + split; [exact Hnd|]. intros x. rewrite Hin, in_app_iff. cbn [In].
      apply existsb_exists in E as (z & Hz & Heq). apply String.eqb_eq in Heq. subst z.
      split.
      * intros [Hp Hn]. split; [now right|tauto].
      * intros [[->|Hp] Hn]; [contradiction|]. split; [exact Hp|].
        intros [H|[->|[]]]; [contradiction|contradiction].
    + assert (Hy : ~ In y pre).
      { intros H. apply Bool.not_true_iff_false in E. apply E.
        apply existsb_exists. exists y. split; [exact H|apply String.eqb_refl]. }
      split.
      * constructor; [|exact Hnd]. rewrite Hin, in_app_iff. cbn [In]. tauto.
      * intros x. cbn [In]. rewrite Hin, in_app_iff. cbn [In].
        destruct (string_dec y x) as [->|Hne]; tauto.
Qed.

Lemma later_occurrences_from arr : forall post pre,
  arr = (pre ++ post)%list ->
  forall x,
    In x (filterFrom (fun f i => negb (indexOf arr f =? Z.of_nat i)%Z) (List.length pre) post)
    <-> (In x post /\ In x pre) \/ (2 <= count_occ string_dec post x)%nat.
Proof.
  induction post as [|y post IH]; intros pre Harr x; cbn [filterFrom count_occ].
  - cbn [In]. split; [tauto|]. intros [[[] _]|H]; lia.
  - assert (Harr' : arr = ((pre ++ [y]) ++ post)%list)
      by (rewrite <- app_assoc; exact Harr).
    pose proof (IH (pre ++ [y])%list Harr' x) as Hin.
    rewrite length_app, Nat.add_1_r in Hin. cbn [List.length] in Hin.
    rewrite (indexOf_here arr y pre post Harr), negb_involutive.
    pose proof (count_occ_In string_dec post x) as Hocc.
    destruct (existsb (String.eqb y) pre) eqn:E.
    + apply existsb_exists in E as (z & Hz & Heq). apply String.eqb_eq in Heq. subst z.
      cbn [In]. rewrite Hin, in_app_iff. cbn [In].
      destruct (string_dec y x) as [->|Hne].
      * split; [intros _; left; tauto|]. intros _. left. reflexivity.
      * split.
        -- intros [Heq|[[Hp [Hq|[Heq|[]]]]|H2]]; try contradiction; tauto.
        -- intros [[[Heq|Hp] Hq]|H2]; try contradiction; tauto.
    + assert (Hy : ~ In y pre).
      { intros H. apply Bool.not_true_iff_false in E. apply E.
        apply existsb_exists. exists y. split; [exact H|apply String.eqb_refl]. }
      rewrite Hin, in_app_iff. cbn [In].
      destruct (string_dec y x) as [->|Hne].
      * split.
        -- intros [[Hp [Hq|_]]|H2]; [contradiction| |]; right; [|lia].
           apply Hocc in Hp. lia.
        -- intros [[_ Hq]|H2]; [contradiction|].
           left. split; [|tauto]. apply Hocc. lia.
      * split.
        -- intros [[Hp [Hq|[Heq|[]]]]|H2]; try contradiction; tauto.
        -- intros [[[Heq|Hp] Hq]|H2]; try contradiction; tauto.
Qed.

Lemma firstOccurrences_spec l :
  NoDup (firstOccurrences l) /\ forall x, In x (firstOccurrences l) <-> In x l.
Proof.
  destruct (first_occurrences_from l l [] eq_refl) as [Hnd Hin].
  split; [exact Hnd|]. intros x. unfold firstOccurrences.
  cbn [List.length] in Hin. rewrite Hin. cbn [In]. tauto.
Qed.

Lemma laterOccurrences_spec l x :
  In x (laterOccurrences l) <-> (2 <= count_occ string_dec l x)%nat.
Proof.
  pose proof (later_occurrences_from l l [] eq_refl x) as Hin.
  unfold laterOccurrences. cbn [List.length] in Hin. rewrite Hin. cbn [In]. tauto.
Qed.

(** *** The pawns met by the scan *)

Lemma cellName_square rank file :
  In rank (seq 0 8) -> In file (seq 0 8) ->
  cellName rank file = (nth file FILES "" ++ nth (7 - rank) RANKS "").
Proof.
  intros Hr Hf.
  assert (H : forallb (fun r => forallb (fun f =>
                String.eqb (cellName r f) (nth f FILES "" ++ nth (7 - r) RANKS ""))
                (seq 0 8)) (seq 0 8) = true) by (vm_compute; reflexivity).
  rewrite forallb_forall in H. specialize (H rank Hr).
  rewrite forallb_forall in H. specialize (H file Hf). now apply String.eqb_eq.
Qed.

Lemma pawnSquares_scan chess c :
  pawnSquares chess c
  = filter (holds (position chess) (mk Pawn c)) (map fst scanCells).
Proof.
  unfold pawnSquares. cbv zeta.
  rewrite (flat_map_cells
             (fun r f =>
                match nth f (nth r (board chess) []) None with
                | Some sq =>
                    if PieceSymbol_eqb (type sq) Pawn && Color_eqb (color sq) c
                    then [cellName r f] else []
                | None => []
                end)
             (fun r f => nth f FILES "" ++ nth (7 - r) RANKS "")
             (holds (position chess) (mk Pawn c))
             (fun s => s)).
  - rewrite map_id. reflexivity.
  - intros r f Hr Hf. rewrite (board_cell chess r f Hr Hf), (cellName_square r f Hr Hf).
    unfold holds, get.
    destruct (placement (position chess) (nth f FILES "" ++ nth (7 - r) RANKS ""));
      reflexivity.
Qed.

Lemma count_occ_map_filter (file : Square -> string) (P : Square -> bool) x (l : list Square) :
  count_occ string_dec (map file (filter P l)) x
  = List.length (filter (fun s => P s && String.eqb (file s) x) l).
Proof.
  induction l as [|s l IH]; cbn [filter map count_occ]; [reflexivity|].
  destruct (P s); cbn [andb map count_occ]; [|exact IH].
  destruct (string_dec (file s) x) as [->|Hne].
  - rewrite String.eqb_refl. cbn [List.length]. now rewrite IH.
  - apply String.eqb_neq in Hne. now rewrite Hne.
Qed.

Lemma pawn_files_count chess c file :
  count_occ string_dec (map (fun sq => charAt sq 0) (pawnSquares chess c)) file
  = pawnsOnFile (position chess) c file.
Proof.
  rewrite pawnSquares_scan, count_occ_map_filter. unfold pawnsOnFile.
  apply filter_length_perm. exact scanned_squares.
Qed.

Lemma pawn_files_are_files chess c file :
  In file (map (fun sq => charAt sq 0) (pawnSquares chess c)) -> In file FILES.
Proof.
  rewrite pawnSquares_scan. intros H. apply in_map_iff in H as (s & <- & Hs).
  apply filter_In in Hs as [Hs _].
  assert (H : forallb (fun s => existsb (String.eqb (charAt s 0)) FILES)
                      (map fst scanCells) = true) by (vm_compute; reflexivity).
  rewrite forallb_forall in H. specialize (H s Hs).
  apply existsb_exists in H as (t & Ht & Heq). apply String.eqb_eq in Heq.
  now rewrite Heq.
Qed.

(** X29.  [getPawnStructure] counts as doubled the files, not the pawns:
    for each colour, [doubled] is the number of files that hold at least
    two pawns of that colour. *)
Theorem doubled_counts_files chess c :
  doubled (analyze chess c)
  = List.length (filter (fun file => (2 <=? pawnsOnFile (position chess) c file)%nat) FILES).
Proof.
  unfold analyze. cbv zeta. cbn [doubled].
  set (files := map (fun sq => charAt sq 0) (pawnSquares chess c)).
  destruct (firstOccurrences_spec (laterOccurrences files)) as [Hnd Hin].
  apply Permutation_length. apply NoDup_Permutation.
  - exact Hnd.
  - apply NoDup_filter. apply nodupb_sound. reflexivity.
  - intros x. rewrite Hin, laterOccurrences_spec, filter_In.
    unfold files. rewrite pawn_files_count. rewrite Nat.leb_le.
    split; [|tauto]. intros H. split; [|exact H].
    apply (pawn_files_are_files chess c).
    apply (count_occ_In string_dec). rewrite pawn_files_count. lia.
Qed.

End PawnFacts.

(** ** King safety *)

Module KingSafetyFacts.
Import Js Constants ChessJs ChessUtils BoardAnalysis PositionGenerator.
Import Notions Scenario Measures GeneratorFacts MaterialFacts PawnFacts.

Lemma fold_pairs {A B C} (G : C -> A -> B -> C) (L2 : list B) : forall (L1 : list A) init,
  fold_left (fun acc a => fold_left (fun acc b => G acc a b) L2 acc) L1 init
  = fold_left (fun acc ab => G acc (fst ab) (snd ab)) (list_prod L1 L2) init.
Proof.
  induction L1 as [|a L1 IH]; intros init; cbn [fold_left list_prod]; [reflexivity|].
  rewrite fold_left_app, IH. f_equal.
  generalize init. clear. induction L2 as [|b L2 IH]; intros init; cbn [fold_left map];
    [reflexivity|]. apply IH.
Qed.

Lemma fold_left_map_in {A B C} (f : C -> A -> C) (g : C -> B -> C) (h : A -> B) :
  forall (l : list A) init,
    (forall a acc, In a l -> f acc a = g acc (h a)) ->
    fold_left f l init = fold_left g (map h l) init.
Proof.
  induction l as [|a l IH]; intros init H; cbn [fold_left map]; [reflexivity|].
  rewrite (H a init) by now left. apply IH. intros a' acc Hin. apply H. now right.
Qed.

Lemma getKingSafety_scan chess :
  getKingSafety chess
  = fold_left
      (fun acc s =>
         match get chess s with
         | Some sq =>
             if PieceSymbol_eqb (type sq) King then
               match color sq with
               | White => (kingPlaceOf White s, snd acc)
               | Black => (fst acc, kingPlaceOf Black s)
               end
             else acc
         | None => acc
         end)
      (map fst scanCells) (center, center).
Proof.
  unfold getKingSafety. cbv zeta.
  rewrite (fold_pairs
             (fun acc r f =>
                match nth f (nth r (board chess) []) None with
                | Some sq =>
                    if PieceSymbol_eqb (type sq) King then
                      match color sq with
                      | White =>
                          (if String.eqb (cellName r f) "g1" || String.eqb (cellName r f) "c1"
                           then castled
                           else if String.eqb (cellName r f) "e1" then center else moved,
                           snd acc)
                      | Black =>
                          (fst acc,
                           if String.eqb (cellName r f) "g8" || String.eqb (cellName r f) "c8"
                           then castled
                           else if String.eqb (cellName r f) "e8" then center else moved)
                      end
                    else acc
                | None => acc
                end)).
  rewrite (fold_left_map_in _
             (fun acc s =>
                match get chess s with
                | Some sq =>
                    if PieceSymbol_eqb (type sq) King then
                      match color sq with
                      | White => (kingPlaceOf White s, snd acc)
                      | Black => (fst acc, kingPlaceOf Black s)
                      end
                    else acc
                | None => acc
                end)
             (fun rf => nth (snd rf) FILES "" ++ nth (7 - fst rf) RANKS "")).
  - reflexivity.
  - intros [r f] acc Hin. apply in_prod_iff in Hin as [Hr Hf]. cbn [fst snd].
    rewrite (board_cell chess r f Hr Hf), (cellName_square r f Hr Hf). reflexivity.
Qed.

Lemma only_one {A} (P : A -> bool) (l : list A) s s' :
  NoDup l -> In s l -> In s' l -> P s = true -> P s' = true ->
  List.length (filter P l) = 1%nat -> s' = s.
Proof.
  intros Hnd Hs Hs' Ps Ps' Hlen.
  destruct (filter P l) as [|x [|y rest]] eqn:E; try discriminate Hlen.
  assert (H1 : In s (filter P l)) by (apply filter_In; auto).
  assert (H2 : In s' (filter P l)) by (apply filter_In; auto).
  rewrite E in H1, H2. cbn [In] in H1, H2.
  destruct H1 as [<-|[]], H2 as [<-|[]]. reflexivity.
Qed.

Lemma holds_king chess c s :
  holds (position chess) (mk King c) s = true <-> get chess s = Some (mk King c).
Proof.
  unfold holds, get. destruct (placement (position chess) s) as [y|].
  - rewrite Piece_eqb_eq. split; congruence.
  - split; discriminate.
Qed.

Lemma scan_keeps_verdict chess c (l : list Square) : forall acc,
  (forall s, In s l -> get chess s <> Some (mk King c)) ->
  verdictFor c
    (fold_left
       (fun acc s =>
          match get chess s with
          | Some sq =>
              if PieceSymbol_eqb (type sq) King then
                match color sq with
                | White => (kingPlaceOf White s, snd acc)
                | Black => (fst acc, kingPlaceOf Black s)
                end
              else acc
          | None => acc
          end) l acc)
  = verdictFor c acc.
Proof.
  induction l as [|s l IH]; intros acc H; cbn [fold_left]; [reflexivity|].
  rewrite IH by (intros s' Hs'; apply H; now right).
  specialize (H s (or_introl eq_refl)).
  destruct (get chess s) as [[t c']|]; [|reflexivity].
  destruct t; cbn [type color PieceSymbol_eqb]; try reflexivity.
  destruct c', c; cbn [verdictFor fst snd]; try reflexivity; now elim H.
Qed.

(** X30.  On a board with one king of a colour, [getKingSafety] reports that
    king as castled exactly on g1 or c1 (g8 or c8 for Black), as in the
    centre exactly on e1 (e8), and as moved on every other square. *)
Theorem getKingSafety_of_the_only_king chess c s :
  In s allSquares ->
  get chess s = Some (mk King c) ->
  countPieces (position chess) (mk King c) = 1%nat ->
  verdictFor c (getKingSafety chess) = kingPlaceOf c s.
Proof.
  intros Hs Hking Hone. rewrite getKingSafety_scan.
  assert (Hin : In s (map fst scanCells))
    by (apply (Permutation_in _ (Permutation_sym scanned_squares)); exact Hs).
  assert (Hnd : NoDup (map fst scanCells)).
  { apply (Permutation_NoDup (Permutation_sym scanned_squares)). exact allSquares_NoDup. }
  assert (Hother : forall s', In s' (map fst scanCells) -> s' <> s ->
                              get chess s' <> Some (mk King c)).
  { intros s' Hs' Hne Hk. apply Hne.
    apply (only_one (holds (position chess) (mk King c)) allSquares s s');
      try assumption.
    - exact allSquares_NoDup.
    - apply (Permutation_in _ scanned_squares). exact Hs'.
    - now apply holds_king.
    - now apply holds_king. }
  apply in_split in Hin as (l1 & l2 & Hsplit). rewrite Hsplit in Hnd, Hother |- *.
  apply NoDup_remove_2 in Hnd.
  rewrite fold_left_app. cbn [fold_left]. rewrite Hking.
  cbn [type color mk PieceSymbol_eqb].
  rewrite scan_keeps_verdict.
  - destruct c; reflexivity.
  - intros s' Hs'. apply Hother.
    + apply in_or_app. right. now right.
    + intros ->. apply Hnd. apply in_or_app. now right.
Qed.

Lemma getKingSafety_of_the_only_king_witness :
  verdictFor White (getKingSafety {| position := queenUp; history := [] |})
  = kingPlaceOf White "e1".
Proof.
  apply (getKingSafety_of_the_only_king {| position := queenUp; history := [] |} White "e1").
  - vm_compute. tauto.
  - reflexivity.
  - vm_compute. reflexivity.
Defined.

End KingSafetyFacts.
